(** * JLS: the chunked signal container, writer and reader

    A shallow embedding of [src/writer.c] and [src/reader.c].

    Integers are [Z] with the C width written out where the code can
    wrap, bytes are [Z] in [0, 256), a C pointer to bytes is
    [option (list Z)]: [None] is the null pointer and [Some m] gives the
    bytes that can be read starting at the pointer.  A model function
    returns [None] where the C program has no defined result: a read
    through a null pointer or past the bytes of an object, a write past
    an array, or a loop that does not come back within its fuel. *)

From Stdlib Require Import String Ascii.
From Stdlib Require Import ZArith List Lia Bool.
From stdpp Require Import base option list gmap.
Import ListNotations.
Local Open Scope Z_scope.

(** ** Fixed-width helpers *)

Definition u8 (x : Z) : Z := x mod 2^8.
Definition u16 (x : Z) : Z := x mod 2^16.
Definition u32 (x : Z) : Z := x mod 2^32.
Definition u64 (x : Z) : Z := x mod 2^64.
(** two's complement reading of a 64-bit pattern *)
Definition i64 (x : Z) : Z :=
  let y := x mod 2^64 in if y <? 2^63 then y else y - 2^64.

Definition zlen {A} (l : list A) : Z := Z.of_nat (length l).

(** little-endian bytes of a [w]-byte value *)
Fixpoint le_bytes (w : nat) (x : Z) : list Z :=
  match w with
  | O => []
  | S w' => Z.land x 255 :: le_bytes w' (Z.shiftr x 8)
  end.

Fixpoint le_value (bs : list Z) : Z :=
  match bs with
  | [] => 0
  | b :: bs' => Z.lor b (Z.shiftl (le_value bs') 8)
  end.

(** a string literal: its characters and the terminator *)
Definition bytes_of_string (s : String.string) : list Z :=
  map (fun c => Z.of_N (Ascii.N_of_ascii c)) (String.list_ascii_of_string s).
Definition lit (s : String.string) : option (list Z) := Some (bytes_of_string s ++ [0]).

(** [p[0..n)] read through a C pointer *)
Definition mem_read (p : option (list Z)) (n : Z) : option (list Z) :=
  if n =? 0 then Some []
  else match p with
       | None => None
       | Some m => if n <=? zlen m then Some (firstn (Z.to_nat n) m) else None
       end.

(** an array held as a finite map: every slot starts zeroed ([calloc]) *)
Definition arr_get {A} (zero : A) (m : gmap Z A) (i : Z) : A :=
  default zero (m !! i).

(** ** State passing with undefined results

    A C function on a state [S] that returns an [A]: [None] where the
    program has no defined result. *)

Definition M (S A : Type) : Type := S -> option (A * S).

Definition ret {S A} (a : A) : M S A := fun s => Some (a, s).
Definition bind {S A B} (m : M S A) (k : A -> M S B) : M S B :=
  fun s => match m s with
           | None => None
           | Some (a, s') => k a s'
           end.
Definition undefined {S A} : M S A := fun _ => None.
Definition get_st {S} : M S S := fun s => Some (s, s).
Definition modify {S} (f : S -> S) : M S unit := fun s => Some (tt, f s).

Declare Scope c_scope.
Delimit Scope c_scope with c.
Notation "'LET' x <- m ;; k" := (bind m (fun x => k))
  (at level 10, x name, m at level 99, k at level 200) : c_scope.
Notation "'DO' m ;; k" := (bind m (fun _ => k))
  (at level 10, m at level 99, k at level 200) : c_scope.

(** ** Format: constants and structures of [jls/format.h] and [jls/ec.h] *)

Module Format.

(** Modelled from the spec: [jls/ec.h] is not under src/; section 7 of
    the spec lists the error taxonomy.  Only "zero or not" and equality
    of codes are used by the code. *)
Inductive jls_ec :=
  | JLS_SUCCESS
  | JLS_ERROR_NOT_ENOUGH_MEMORY
  | JLS_ERROR_NOT_SUPPORTED
  | JLS_ERROR_IO
  | JLS_ERROR_PARAMETER_INVALID
  | JLS_ERROR_NOT_FOUND
  | JLS_ERROR_ALREADY_EXISTS
  | JLS_ERROR_EMPTY
  | JLS_ERROR_TOO_BIG
  | JLS_ERROR_CRC_HEADER
  | JLS_ERROR_CRC_PAYLOAD.

Definition is_ok (rc : jls_ec) : bool :=
  match rc with JLS_SUCCESS => true | _ => false end.

#[global] Instance jls_ec_eq_dec : EqDecision jls_ec.
Proof. solve_decision. Defined.

(** Modelled from the spec: [jls/format.h] is not under src/; the counts
    are those of section 6. *)
Definition JLS_SOURCE_COUNT : Z := 256.
Definition JLS_SIGNAL_COUNT : Z := 256.
Definition JLS_SUMMARY_LEVEL_COUNT : Z := 8.

Definition JLS_TRACK_TYPE_FSR : Z := 0.
Definition JLS_TRACK_TYPE_VSR : Z := 1.
Definition JLS_TRACK_TYPE_ANNOTATION : Z := 2.
Definition JLS_TRACK_TYPE_UTC : Z := 3.

Definition JLS_TRACK_CHUNK_DEF : Z := 0.
Definition JLS_TRACK_CHUNK_HEAD : Z := 1.
Definition JLS_TRACK_CHUNK_DATA : Z := 2.
Definition JLS_TRACK_CHUNK_INDEX : Z := 3.
Definition JLS_TRACK_CHUNK_SUMMARY : Z := 4.

(** track tags: [0x20 | (track_type << 3) | chunk_kind] *)
Definition track_tag (track_type kind : Z) : Z :=
  Z.lor (Z.lor 0x20 (Z.shiftl (Z.land track_type 0x03) 3)) kind.

Definition JLS_TAG_TRACK_FSR_DATA := track_tag JLS_TRACK_TYPE_FSR JLS_TRACK_CHUNK_DATA.
Definition JLS_TAG_TRACK_FSR_INDEX := track_tag JLS_TRACK_TYPE_FSR JLS_TRACK_CHUNK_INDEX.
Definition JLS_TAG_TRACK_FSR_SUMMARY := track_tag JLS_TRACK_TYPE_FSR JLS_TRACK_CHUNK_SUMMARY.
Definition JLS_TAG_TRACK_VSR_DATA := track_tag JLS_TRACK_TYPE_VSR JLS_TRACK_CHUNK_DATA.
Definition JLS_TAG_TRACK_VSR_INDEX := track_tag JLS_TRACK_TYPE_VSR JLS_TRACK_CHUNK_INDEX.
Definition JLS_TAG_TRACK_VSR_SUMMARY := track_tag JLS_TRACK_TYPE_VSR JLS_TRACK_CHUNK_SUMMARY.
Definition JLS_TAG_TRACK_ANNOTATION_DATA :=
  track_tag JLS_TRACK_TYPE_ANNOTATION JLS_TRACK_CHUNK_DATA.
Definition JLS_TAG_TRACK_UTC_DATA := track_tag JLS_TRACK_TYPE_UTC JLS_TRACK_CHUNK_DATA.

(** Modelled from the spec: section 6 names the three tags below without
    their values; the values here are a choice, below every track tag. *)
Definition JLS_TAG_SOURCE_DEF : Z := 0x01.
Definition JLS_TAG_SIGNAL_DEF : Z := 0x02.
Definition JLS_TAG_USER_DATA : Z := 0x03.

(** storage types, section 6 of the spec *)
Definition JLS_STORAGE_TYPE_INVALID : Z := 0.
Definition JLS_STORAGE_TYPE_BINARY : Z := 1.
Definition JLS_STORAGE_TYPE_STRING : Z := 2.
Definition JLS_STORAGE_TYPE_JSON : Z := 3.

(** Modelled from the spec: the values of the signal types and of the one
    data type are not given; FSR and VSR follow the track types. *)
Definition JLS_SIGNAL_TYPE_FSR : Z := 0.
Definition JLS_SIGNAL_TYPE_VSR : Z := 1.
Definition JLS_DATATYPE_F32 : Z := 1.

Record jls_chunk_header_s := mk_hdr {
  item_next : Z;            (* u64 *)
  item_prev : Z;            (* u64 *)
  tag : Z;                  (* u8 *)
  rsv0_u8 : Z;
  chunk_meta : Z;           (* u16 *)
  payload_length : Z;       (* u32 *)
  payload_prev_length : Z   (* u32 *)
}.

Definition hdr0 : jls_chunk_header_s := mk_hdr 0 0 0 0 0 0 0.

Definition set_item_next (n : Z) (h : jls_chunk_header_s) : jls_chunk_header_s :=
  mk_hdr n (item_prev h) (tag h) (rsv0_u8 h) (chunk_meta h)
         (payload_length h) (payload_prev_length h).

Record jls_source_def_s := mk_source {
  src_source_id : Z;                 (* u16 *)
  src_name : option (list Z);
  src_vendor : option (list Z);
  src_model : option (list Z);
  src_version : option (list Z);
  src_serial_number : option (list Z)
}.

Definition source0 : jls_source_def_s := mk_source 0 None None None None None.

(** Modelled from the spec: the declaration of [struct jls_signal_def_s]
    is not under src/.  The fields are those of section 3, which are the
    ones reader.c and the example use.  writer.c calls the entries-per-
    chunk field [decimations_per_chunk]; it is [entries_per_summary]
    here, the field the spec bounds by 1000. *)
Record jls_signal_def_s := mk_signal {
  signal_id : Z;                     (* u16 *)
  source_id : Z;                     (* u16 *)
  signal_type : Z;                   (* u8 *)
  data_type : Z;                     (* u32 *)
  sample_rate : Z;                   (* u32 *)
  samples_per_data : Z;              (* u32 *)
  sample_decimate_factor : Z;        (* u32 *)
  entries_per_summary : Z;           (* u32 *)
  summary_decimate_factor : Z;       (* u32 *)
  utc_rate_auto : Z;                 (* u32 *)
  name : option (list Z);
  si_units : option (list Z)
}.

Definition signal0 : jls_signal_def_s :=
  mk_signal 0 0 0 0 0 0 0 0 0 0 None None.

Definition src_set_id (v : Z) (d : jls_source_def_s) : jls_source_def_s :=
  mk_source v (src_name d) (src_vendor d) (src_model d) (src_version d)
    (src_serial_number d).
Definition src_set_name (v : option (list Z)) (d : jls_source_def_s) : jls_source_def_s :=
  mk_source (src_source_id d) v (src_vendor d) (src_model d) (src_version d)
    (src_serial_number d).
Definition src_set_vendor (v : option (list Z)) (d : jls_source_def_s) : jls_source_def_s :=
  mk_source (src_source_id d) (src_name d) v (src_model d) (src_version d)
    (src_serial_number d).
Definition src_set_model (v : option (list Z)) (d : jls_source_def_s) : jls_source_def_s :=
  mk_source (src_source_id d) (src_name d) (src_vendor d) v (src_version d)
    (src_serial_number d).
Definition src_set_version (v : option (list Z)) (d : jls_source_def_s) : jls_source_def_s :=
  mk_source (src_source_id d) (src_name d) (src_vendor d) (src_model d) v
    (src_serial_number d).
Definition src_set_serial_number (v : option (list Z)) (d : jls_source_def_s)
  : jls_source_def_s :=
  mk_source (src_source_id d) (src_name d) (src_vendor d) (src_model d) (src_version d) v.

(** writer.c reads and writes [entries_per_summary] under the name
    [decimations_per_chunk] *)
Definition sd_set_signal_id (v : Z) (d : jls_signal_def_s) : jls_signal_def_s :=
  mk_signal v (source_id d) (signal_type d) (data_type d) (sample_rate d)
    (samples_per_data d) (sample_decimate_factor d) (entries_per_summary d)
    (summary_decimate_factor d) (utc_rate_auto d) (name d) (si_units d).
Definition sd_set_source_id (v : Z) (d : jls_signal_def_s) : jls_signal_def_s :=
  mk_signal (signal_id d) v (signal_type d) (data_type d) (sample_rate d)
    (samples_per_data d) (sample_decimate_factor d) (entries_per_summary d)
    (summary_decimate_factor d) (utc_rate_auto d) (name d) (si_units d).
Definition sd_set_signal_type (v : Z) (d : jls_signal_def_s) : jls_signal_def_s :=
  mk_signal (signal_id d) (source_id d) v (data_type d) (sample_rate d)
    (samples_per_data d) (sample_decimate_factor d) (entries_per_summary d)
    (summary_decimate_factor d) (utc_rate_auto d) (name d) (si_units d).
Definition sd_set_data_type (v : Z) (d : jls_signal_def_s) : jls_signal_def_s :=
  mk_signal (signal_id d) (source_id d) (signal_type d) v (sample_rate d)
    (samples_per_data d) (sample_decimate_factor d) (entries_per_summary d)
    (summary_decimate_factor d) (utc_rate_auto d) (name d) (si_units d).
Definition sd_set_sample_rate (v : Z) (d : jls_signal_def_s) : jls_signal_def_s :=
  mk_signal (signal_id d) (source_id d) (signal_type d) (data_type d) v
    (samples_per_data d) (sample_decimate_factor d) (entries_per_summary d)
    (summary_decimate_factor d) (utc_rate_auto d) (name d) (si_units d).
Definition sd_set_samples_per_data (v : Z) (d : jls_signal_def_s) : jls_signal_def_s :=
  mk_signal (signal_id d) (source_id d) (signal_type d) (data_type d) (sample_rate d)
    v (sample_decimate_factor d) (entries_per_summary d) (summary_decimate_factor d)
    (utc_rate_auto d) (name d) (si_units d).
Definition sd_set_sample_decimate_factor (v : Z) (d : jls_signal_def_s) :
    jls_signal_def_s :=
  mk_signal (signal_id d) (source_id d) (signal_type d) (data_type d) (sample_rate d)
    (samples_per_data d) v (entries_per_summary d) (summary_decimate_factor d)
    (utc_rate_auto d) (name d) (si_units d).
Definition sd_set_entries_per_summary (v : Z) (d : jls_signal_def_s) :
    jls_signal_def_s :=
  mk_signal (signal_id d) (source_id d) (signal_type d) (data_type d) (sample_rate d)
    (samples_per_data d) (sample_decimate_factor d) v (summary_decimate_factor d)
    (utc_rate_auto d) (name d) (si_units d).
Definition sd_set_summary_decimate_factor (v : Z) (d : jls_signal_def_s) :
    jls_signal_def_s :=
  mk_signal (signal_id d) (source_id d) (signal_type d) (data_type d) (sample_rate d)
    (samples_per_data d) (sample_decimate_factor d) (entries_per_summary d) v
    (utc_rate_auto d) (name d) (si_units d).
Definition sd_set_utc_rate_auto (v : Z) (d : jls_signal_def_s) : jls_signal_def_s :=
  mk_signal (signal_id d) (source_id d) (signal_type d) (data_type d) (sample_rate d)
    (samples_per_data d) (sample_decimate_factor d) (entries_per_summary d)
    (summary_decimate_factor d) v (name d) (si_units d).
Definition sd_set_name (v : option (list Z)) (d : jls_signal_def_s) : jls_signal_def_s
    :=
  mk_signal (signal_id d) (source_id d) (signal_type d) (data_type d) (sample_rate d)
    (samples_per_data d) (sample_decimate_factor d) (entries_per_summary d)
    (summary_decimate_factor d) (utc_rate_auto d) v (si_units d).
Definition sd_set_si_units (v : option (list Z)) (d : jls_signal_def_s) :
    jls_signal_def_s :=
  mk_signal (signal_id d) (source_id d) (signal_type d) (data_type d) (sample_rate d)
    (samples_per_data d) (sample_decimate_factor d) (entries_per_summary d)
    (summary_decimate_factor d) (utc_rate_auto d) (name d) v.

End Format.

(** ** The raw chunk layer *)

Module Raw.
Import Format.

(** Modelled from the spec: raw.c is not under src/.  Section 4.1 gives
    the operations: a file is a file header followed by chunks, a chunk
    is identified by its byte offset, [write] puts header and payload at
    the current position and advances it, the header and the payload of
    a chunk can be rewritten in place, [read] fails with [Empty] at the
    end of the file and with [TooBig] when the payload exceeds the
    caller's capacity.  The file is kept as the map from offsets to
    chunks; the CRC fields are left out, so every stored chunk verifies.
    Device errors are not modelled: a write always succeeds. *)
Record raw_chunk := mk_raw_chunk {
  rc_hdr : jls_chunk_header_s;
  rc_payload : list Z
}.

Record jls_raw_s := mk_raw {
  chunks : gmap Z raw_chunk;
  fpos : Z
}.

(** Modelled from the spec: the sizes are not in the spec; the header
    fields of section 3 add up to 32 bytes with the header CRC, the
    payload is followed by its 4-byte CRC, and the file header is taken
    as 32 bytes.  The writer only needs offsets that are not zero and
    grow. *)
Definition FILE_HEADER_SIZE : Z := 32.
Definition CHUNK_HEADER_SIZE : Z := 32.
Definition chunk_size (payload_len : Z) : Z := CHUNK_HEADER_SIZE + payload_len + 4.

(** Modelled from the spec: [open] in write mode emits the file header. *)
Definition jls_raw_open_w : jls_raw_s := mk_raw ∅ FILE_HEADER_SIZE.

(** Modelled from the spec: [open] in read mode validates the file header
    and stands at the first chunk. *)
Definition jls_raw_open_r (f : gmap Z raw_chunk) : jls_raw_s := mk_raw f FILE_HEADER_SIZE.

(** Modelled from the spec: [tell]. *)
Definition jls_raw_chunk_tell (r : jls_raw_s) : Z := fpos r.

(** Modelled from the spec: [seek]. *)
Definition jls_raw_chunk_seek (r : jls_raw_s) (off : Z) : jls_ec * jls_raw_s :=
  (JLS_SUCCESS, mk_raw (chunks r) off).

(** Modelled from the spec: [write(header, payload)]; [payload] is the
    [payload_length] bytes the layer has read from the caller. *)
Definition jls_raw_wr (r : jls_raw_s) (h : jls_chunk_header_s) (payload : list Z)
  : jls_ec * jls_raw_s :=
  (JLS_SUCCESS,
   mk_raw (<[fpos r := mk_raw_chunk h payload]> (chunks r))
          (fpos r + chunk_size (payload_length h))).

(** Modelled from the spec: rewrite only the header of the chunk at the
    current position. *)
Definition jls_raw_wr_header (r : jls_raw_s) (h : jls_chunk_header_s)
  : jls_ec * jls_raw_s :=
  let old := default [] (rc_payload <$> chunks r !! fpos r) in
  (JLS_SUCCESS, mk_raw (<[fpos r := mk_raw_chunk h old]> (chunks r)) (fpos r)).

(** Modelled from the spec: rewrite only the payload of the chunk at the
    current position. *)
Definition jls_raw_wr_payload (r : jls_raw_s) (payload : list Z)
  : jls_ec * jls_raw_s :=
  let old := default hdr0 (rc_hdr <$> chunks r !! fpos r) in
  (JLS_SUCCESS, mk_raw (<[fpos r := mk_raw_chunk old payload]> (chunks r)) (fpos r)).

(** Modelled from the spec: [read]; the header is returned also with
    [TooBig], and the position then stays at the chunk. *)
Definition jls_raw_rd (r : jls_raw_s) (capacity : Z)
  : jls_ec * jls_chunk_header_s * list Z * jls_raw_s :=
  match chunks r !! fpos r with
  | None => (JLS_ERROR_EMPTY, hdr0, [], r)
  | Some c =>
      if capacity <? payload_length (rc_hdr c)
      then (JLS_ERROR_TOO_BIG, rc_hdr c, [], r)
      else (JLS_SUCCESS, rc_hdr c, rc_payload c,
            mk_raw (chunks r) (fpos r + chunk_size (payload_length (rc_hdr c))))
  end.

(** Modelled from the spec: [close]. *)
Definition jls_raw_close (r : jls_raw_s) : jls_ec := JLS_SUCCESS.

End Raw.

(** the macro ROE of writer.c and reader.c: return on error *)
Notation "'ROE' m ;; k" :=
  (bind m (fun rc => if Format.is_ok rc then k else ret rc))
  (at level 10, m at level 99, k at level 200) : c_scope.

(** ** The writer, [src/writer.c] *)

Module Writer.
Import Format Raw.

Definition BUFFER_SIZE : Z := Z.shiftl 1 20.
Definition SUMMARY_DECIMATE_FACTOR_MIN : Z := 10.
Definition DECIMATIONS_PER_CHUNK_MIN : Z := 1000.

Record chunk_s := mk_chunk {
  hdr : jls_chunk_header_s;
  offset : Z                          (* file offset *)
}.

Definition chunk0 : chunk_s := mk_chunk hdr0 0.

Record track_info_s := mk_track {
  ti_signal_id : Z;
  ti_track_type : Z;
  def : chunk_s;
  head : chunk_s;
  index : list chunk_s;               (* JLS_SUMMARY_LEVEL_COUNT entries *)
  data : chunk_s;
  summary : list chunk_s
}.

Definition track0 : track_info_s :=
  mk_track 0 0 chunk0 chunk0 (repeat chunk0 8) chunk0 (repeat chunk0 8).

(** [data] holds the samples written so far, [data[0..offset)]: the rest
    of the allocation has no defined content.  A sample is its 32-bit
    pattern: the writer only copies samples. *)
Record sample_buffer_s := mk_sample_buffer {
  sb_length : Z;                      (* u32 *)
  sb_offset : Z;                      (* u32 *)
  sb_timestamp : Z;                   (* u64 *)
  sb_data : list Z
}.

(** the indices of [struct track_info_s tracks[4]] *)
Definition track_index_ok (i : Z) : bool := (0 <=? i) && (i <? 4).

(** [tracks] is indexed by [enum jls_track_type_e]: the map holds the
    slots 0 to 3.  [track_type] is no such index once [jls_wr_signal_def]
    has set it: it then holds a tag value, 0x22 or 0x2a, and indexing
    [tracks] with it has no defined result. *)
Record signal_info_s := mk_signal_info {
  chunk_def : chunk_s;
  signal_def : jls_signal_def_s;
  info_name : list Z;                 (* char name[1024] *)
  tracks : gmap Z track_info_s;
  sample_buffer : option sample_buffer_s;
  data_tag : Z;
  summary_tag : Z;
  index_tag : Z;
  track_type : Z
}.

Definition signal_info0 : signal_info_s :=
  mk_signal_info chunk0 signal0 [] ∅ None 0 0 0 0.

(** [buf] is [buffer[0 .. cur - start)], the bytes added since
    [buf_reset]. *)
Record jls_wr_s := mk_wr {
  raw : jls_raw_s;
  buf : list Z;
  source_info : gmap Z chunk_s;
  source_mra : chunk_s;
  signal_info : gmap Z signal_info_s;
  signal_mra : chunk_s;
  user_data_mra : chunk_s;
  wr_payload_prev_length : Z          (* u32 *)
}.

Definition set_raw (r : jls_raw_s) (s : jls_wr_s) : jls_wr_s :=
  mk_wr r (buf s) (source_info s) (source_mra s) (signal_info s)
        (signal_mra s) (user_data_mra s) (wr_payload_prev_length s).
Definition set_buf (b : list Z) (s : jls_wr_s) : jls_wr_s :=
  mk_wr (raw s) b (source_info s) (source_mra s) (signal_info s)
        (signal_mra s) (user_data_mra s) (wr_payload_prev_length s).
Definition set_source_info (m : gmap Z chunk_s) (s : jls_wr_s) : jls_wr_s :=
  mk_wr (raw s) (buf s) m (source_mra s) (signal_info s)
        (signal_mra s) (user_data_mra s) (wr_payload_prev_length s).
Definition set_source_mra (c : chunk_s) (s : jls_wr_s) : jls_wr_s :=
  mk_wr (raw s) (buf s) (source_info s) c (signal_info s)
        (signal_mra s) (user_data_mra s) (wr_payload_prev_length s).
Definition set_signal_info (m : gmap Z signal_info_s) (s : jls_wr_s) : jls_wr_s :=
  mk_wr (raw s) (buf s) (source_info s) (source_mra s) m
        (signal_mra s) (user_data_mra s) (wr_payload_prev_length s).
Definition set_signal_mra (c : chunk_s) (s : jls_wr_s) : jls_wr_s :=
  mk_wr (raw s) (buf s) (source_info s) (source_mra s) (signal_info s)
        c (user_data_mra s) (wr_payload_prev_length s).
Definition set_user_data_mra (c : chunk_s) (s : jls_wr_s) : jls_wr_s :=
  mk_wr (raw s) (buf s) (source_info s) (source_mra s) (signal_info s)
        (signal_mra s) c (wr_payload_prev_length s).
Definition set_payload_prev_length (n : Z) (s : jls_wr_s) : jls_wr_s :=
  mk_wr (raw s) (buf s) (source_info s) (source_mra s) (signal_info s)
        (signal_mra s) (user_data_mra s) n.

Definition get_source (s : jls_wr_s) (i : Z) : chunk_s := arr_get chunk0 (source_info s) i.
Definition get_info (s : jls_wr_s) (i : Z) : signal_info_s :=
  arr_get signal_info0 (signal_info s) i.
Definition set_info (i : Z) (x : signal_info_s) (s : jls_wr_s) : jls_wr_s :=
  set_signal_info (<[i := x]> (signal_info s)) s.
Definition get_track (x : signal_info_s) (t : Z) : track_info_s := arr_get track0 (tracks x) t.

Definition set_chunk_def (c : chunk_s) (x : signal_info_s) : signal_info_s :=
  mk_signal_info c (signal_def x) (info_name x) (tracks x) (sample_buffer x)
    (data_tag x) (summary_tag x) (index_tag x) (track_type x).
Definition set_signal_def (d : jls_signal_def_s) (x : signal_info_s) : signal_info_s :=
  mk_signal_info (chunk_def x) d (info_name x) (tracks x) (sample_buffer x)
    (data_tag x) (summary_tag x) (index_tag x) (track_type x).
Definition set_info_name (n : list Z) (x : signal_info_s) : signal_info_s :=
  mk_signal_info (chunk_def x) (signal_def x) n (tracks x) (sample_buffer x)
    (data_tag x) (summary_tag x) (index_tag x) (track_type x).
Definition set_tracks (t : gmap Z track_info_s) (x : signal_info_s) : signal_info_s :=
  mk_signal_info (chunk_def x) (signal_def x) (info_name x) t (sample_buffer x)
    (data_tag x) (summary_tag x) (index_tag x) (track_type x).
Definition set_sample_buffer (b : option sample_buffer_s) (x : signal_info_s) : signal_info_s :=
  mk_signal_info (chunk_def x) (signal_def x) (info_name x) (tracks x) b
    (data_tag x) (summary_tag x) (index_tag x) (track_type x).
Definition set_tags (d sm ix ty : Z) (x : signal_info_s) : signal_info_s :=
  mk_signal_info (chunk_def x) (signal_def x) (info_name x) (tracks x) (sample_buffer x)
    d sm ix ty.
Definition set_track (t : Z) (ti : track_info_s) (x : signal_info_s) : signal_info_s :=
  set_tracks (<[t := ti]> (tracks x)) x.

Definition set_def (c : chunk_s) (t : track_info_s) : track_info_s :=
  mk_track (ti_signal_id t) (ti_track_type t) c (head t) (index t) (data t) (summary t).
Definition set_head (c : chunk_s) (t : track_info_s) : track_info_s :=
  mk_track (ti_signal_id t) (ti_track_type t) (def t) c (index t) (data t) (summary t).
Definition set_data (c : chunk_s) (t : track_info_s) : track_info_s :=
  mk_track (ti_signal_id t) (ti_track_type t) (def t) (head t) (index t) c (summary t).

(** *** The writer's state monad *)

Definition W (A : Type) : Type := M jls_wr_s A.

Local Open Scope c_scope.

Definition lift_raw (f : jls_raw_s -> jls_ec * jls_raw_s) : W jls_ec :=
  fun s => let '(rc, r) := f (raw s) in Some (rc, set_raw r s).
Definition tell : W Z := fun s => Some (jls_raw_chunk_tell (raw s), s).

Definition lift_raw1 {A} (f : jls_raw_s -> A -> jls_ec * jls_raw_s) (a : A) : W jls_ec :=
  lift_raw (fun r => f r a).

(** *** The scratch buffer *)

Definition buf_reset : W unit := modify (set_buf []).

Definition buf_add_zero (count : Z) : W jls_ec :=
  LET s <- get_st ;;
  if BUFFER_SIZE <? zlen (buf s) + count then ret JLS_ERROR_NOT_ENOUGH_MEMORY
  else DO modify (set_buf (buf s ++ repeat 0 (Z.to_nat count))) ;; ret JLS_SUCCESS.

(** The loop of [buf_add_str] on the bytes [cstr] readable at the
    pointer and the bytes [b] already in the buffer.  Each round copies
    [*cstr] and then tests the next byte. *)
Fixpoint buf_add_str_loop (cstr : list Z) (b : list Z) : option (jls_ec * list Z) :=
  if zlen b <? BUFFER_SIZE - 2 then
    match cstr with
    | [] => None
    | c :: cstr' =>
        let b' := b ++ [c] in
        match cstr' with
        | [] => None
        | d :: _ =>
            if d =? 0 then Some (JLS_SUCCESS, b' ++ [0; 0x1f])
            else buf_add_str_loop cstr' b'
        end
    end
  else Some (JLS_ERROR_NOT_ENOUGH_MEMORY, b).

Definition buf_add_str (cstr : option (list Z)) : W jls_ec :=
  fun s => match buf_add_str_loop (default [] cstr) (buf s) with
           | None => None
           | Some (rc, b) => Some (rc, set_buf b s)
           end.

Definition buf_add_bin (data : option (list Z)) (data_size : Z) : W jls_ec :=
  LET s <- get_st ;;
  if BUFFER_SIZE <? zlen (buf s) + data_size then ret JLS_ERROR_NOT_ENOUGH_MEMORY
  else match mem_read data data_size with
       | None => undefined
       | Some bs => DO modify (set_buf (buf s ++ bs)) ;; ret JLS_SUCCESS
       end.

Definition buf_size : W Z := fun s => Some (u32 (zlen (buf s)), s).

Definition buf_wr_u8 (value : Z) : W jls_ec :=
  LET s <- get_st ;;
  if BUFFER_SIZE <=? zlen (buf s) then ret JLS_ERROR_NOT_ENOUGH_MEMORY
  else DO modify (set_buf (buf s ++ [u8 value])) ;; ret JLS_SUCCESS.

Definition buf_wr_u16 (value : Z) : W jls_ec :=
  LET s <- get_st ;;
  if BUFFER_SIZE <=? zlen (buf s) + 1 then ret JLS_ERROR_NOT_ENOUGH_MEMORY
  else DO modify (set_buf (buf s ++
            [Z.land (u16 value) 0xff; Z.land (Z.shiftr (u16 value) 8) 0xff])) ;;
       ret JLS_SUCCESS.

Definition buf_wr_u32 (value : Z) : W jls_ec :=
  LET s <- get_st ;;
  if BUFFER_SIZE <=? zlen (buf s) + 3 then ret JLS_ERROR_NOT_ENOUGH_MEMORY
  else let v := u32 value in
       DO modify (set_buf (buf s ++
            [Z.land v 0xff; Z.land (Z.shiftr v 8) 0xff;
             Z.land (Z.shiftr v 16) 0xff; Z.land (Z.shiftr v 24) 0xff])) ;;
       ret JLS_SUCCESS.

(** nine bytes: the byte of bits 24..31 is written twice *)
Definition buf_wr_u64 (value : Z) : W jls_ec :=
  LET s <- get_st ;;
  if BUFFER_SIZE <=? zlen (buf s) + 3 then ret JLS_ERROR_NOT_ENOUGH_MEMORY
  else if BUFFER_SIZE <? zlen (buf s) + 9 then undefined
  else let v := u64 value in
       DO modify (set_buf (buf s ++
            [Z.land v 0xff; Z.land (Z.shiftr v 8) 0xff;
             Z.land (Z.shiftr v 16) 0xff; Z.land (Z.shiftr v 24) 0xff;
             Z.land (Z.shiftr v 24) 0xff; Z.land (Z.shiftr v 32) 0xff;
             Z.land (Z.shiftr v 40) 0xff; Z.land (Z.shiftr v 48) 0xff;
             Z.land (Z.shiftr v 56) 0xff])) ;;
       ret JLS_SUCCESS.

(** *** Appending to a list of chunks *)

(** [mra] points into the writer: it is given by its getter and setter.
    [update] never aliases [mra], so it is passed by value.  File
    offsets are kept as unbounded integers. *)
Definition update_mra (get_mra : jls_wr_s -> chunk_s)
    (set_mra : chunk_s -> jls_wr_s -> jls_wr_s) (update : chunk_s) : W jls_ec :=
  LET s <- get_st ;;
  let mra := get_mra s in
  if negb (offset mra =? 0) then
    LET current_pos <- tell ;;
    let mra' := mk_chunk (set_item_next (offset update) (hdr mra)) (offset mra) in
    DO modify (set_mra mra') ;;
    ROE lift_raw1 jls_raw_chunk_seek (offset mra') ;;
    ROE lift_raw1 jls_raw_wr_header (hdr mra') ;;
    ROE lift_raw1 jls_raw_chunk_seek current_pos ;;
    DO modify (set_mra update) ;;
    ret JLS_SUCCESS
  else
    DO modify (set_mra update) ;;
    ret JLS_SUCCESS.

Definition raw_wr (h : jls_chunk_header_s) (payload : list Z) : W jls_ec :=
  lift_raw (fun r => jls_raw_wr r h payload).

(** the [self] and the structure arguments of the public functions are
    not null in the model; their first guard is for null pointers *)
Definition jls_wr_source_def (source : jls_source_def_s) : W jls_ec :=
  LET s <- get_st ;;
  let id := src_source_id source in
  if JLS_SOURCE_COUNT <=? id then ret JLS_ERROR_PARAMETER_INVALID
  else if negb (offset (get_source s id) =? 0) then ret JLS_ERROR_ALREADY_EXISTS
  else
    (* construct payload *)
    DO buf_reset ;;
    DO buf_add_zero 64 ;;
    ROE buf_add_str (src_name source) ;;
    ROE buf_add_str (src_vendor source) ;;
    ROE buf_add_str (src_model source) ;;
    ROE buf_add_str (src_version source) ;;
    ROE buf_add_str (src_serial_number source) ;;
    LET payload_length <- buf_size ;;
    (* construct header *)
    LET s1 <- get_st ;;
    LET pos <- tell ;;
    let chunk := mk_chunk (mk_hdr 0 (offset (source_mra s1)) JLS_TAG_SOURCE_DEF 0 id
                             payload_length (wr_payload_prev_length s1)) pos in
    DO modify (fun s => set_source_info (<[id := chunk]> (source_info s)) s) ;;
    (* write *)
    ROE raw_wr (hdr chunk) (buf s1) ;;
    DO modify (set_payload_prev_length payload_length) ;;
    update_mra source_mra set_source_mra chunk.

(** *** Signal definitions *)

Definition upd_info (id : Z) (f : signal_info_s -> signal_info_s) : W unit :=
  modify (fun s => set_info id (f (get_info s id)) s).
Definition upd_track (id ty : Z) (f : track_info_s -> track_info_s) : W unit :=
  upd_info id (fun x => set_track ty (f (get_track x ty)) x).

Definition track_wr_def (id ty : Z) : W jls_ec :=
  LET s <- get_st ;;
  let track_info := get_track (get_info s id) ty in
  if negb (offset (def track_info) =? 0) then ret JLS_SUCCESS  (* no need to update *)
  else
    LET pos <- tell ;;
    let chunk := mk_chunk (mk_hdr 0 (offset (signal_mra s))
                             (track_tag (ti_track_type track_info) JLS_TRACK_CHUNK_DEF)
                             0 (ti_signal_id track_info) 0 (wr_payload_prev_length s)) pos in
    DO upd_track id ty (set_def chunk) ;;
    ROE raw_wr (hdr chunk) [] ;;
    DO modify (set_payload_prev_length 0) ;;
    update_mra signal_mra set_signal_mra chunk.

(** the array [uint64_t offsets[]] as the bytes of a little-endian host *)
Definition offsets_bytes (offsets : list Z) : list Z :=
  flat_map (fun o => le_bytes 8 (u64 o)) offsets.

Definition track_wr_head (id ty : Z) : W jls_ec :=
  LET s <- get_st ;;
  let track_info := get_track (get_info s id) ty in
  let chunk := head track_info in
  let offsets := map offset (firstn 8 (index track_info)) in
  if offset chunk =? 0 then
    LET pos <- tell ;;
    let chunk := mk_chunk (mk_hdr 0 (offset (signal_mra s))
                             (track_tag (ti_track_type track_info) JLS_TRACK_CHUNK_HEAD)
                             0 (ti_signal_id track_info) 64 (wr_payload_prev_length s)) pos in
    DO upd_track id ty (set_head chunk) ;;
    ROE raw_wr (hdr chunk) (offsets_bytes offsets) ;;
    ret JLS_SUCCESS
  else
    LET pos <- tell ;;
    ROE lift_raw1 jls_raw_chunk_seek (offset chunk) ;;
    ROE lift_raw1 jls_raw_wr_payload (offsets_bytes offsets) ;;
    ROE lift_raw1 jls_raw_chunk_seek pos ;;
    DO modify (set_payload_prev_length 64) ;;
    update_mra signal_mra set_signal_mra chunk.

(** the characters of the C string at the start of [m], without its
    terminator; [None] when no terminator can be read *)
Fixpoint c_str (m : list Z) : option (list Z) :=
  match m with
  | [] => None
  | c :: m' => if c =? 0 then Some [] else option_map (cons c) (c_str m')
  end.

(** [malloc] is taken to succeed.  The timestamp of a fresh buffer has no
    defined value; it is written before it is first read. *)
Definition sample_buffer_alloc (datatype length : Z) : jls_ec * option sample_buffer_s :=
  if negb (datatype =? JLS_DATATYPE_F32) then (JLS_ERROR_NOT_SUPPORTED, None)
  else (JLS_SUCCESS, Some (mk_sample_buffer length 0 0 [])).

(** the two clamps of [jls_wr_signal_def] *)
Definition clamp_factors (d : jls_signal_def_s) : jls_signal_def_s :=
  let d1 := if summary_decimate_factor d <? SUMMARY_DECIMATE_FACTOR_MIN
            then sd_set_summary_decimate_factor SUMMARY_DECIMATE_FACTOR_MIN d else d in
  if entries_per_summary d1 <? DECIMATIONS_PER_CHUNK_MIN
  then sd_set_entries_per_summary DECIMATIONS_PER_CHUNK_MIN d1 else d1.

(** the tracks written after the signal definition, in the order of the
    code *)
Definition signal_tracks (signal_type : Z) : list Z :=
  if signal_type =? JLS_SIGNAL_TYPE_FSR
  then [JLS_TRACK_TYPE_FSR; JLS_TRACK_TYPE_ANNOTATION; JLS_TRACK_TYPE_UTC]
  else if signal_type =? JLS_SIGNAL_TYPE_VSR
  then [JLS_TRACK_TYPE_VSR; JLS_TRACK_TYPE_ANNOTATION]
  else [].

Fixpoint wr_tracks (id : Z) (tys : list Z) : W jls_ec :=
  match tys with
  | [] => ret JLS_SUCCESS
  | ty :: tys' =>
      ROE track_wr_def id ty ;;
      ROE track_wr_head id ty ;;
      wr_tracks id tys'
  end.

Definition jls_wr_signal_def (signal : jls_signal_def_s) : W jls_ec :=
  LET s <- get_st ;;
  let id := signal_id signal in
  if JLS_SIGNAL_COUNT <=? id then ret JLS_ERROR_PARAMETER_INVALID
  else if JLS_SOURCE_COUNT <=? source_id signal then ret JLS_ERROR_PARAMETER_INVALID
  else if offset (get_source s (source_id signal)) =? 0 then ret JLS_ERROR_NOT_FOUND
  else if negb (offset (chunk_def (get_info s id)) =? 0) then ret JLS_ERROR_ALREADY_EXISTS
  else if negb (signal_type signal =? JLS_SIGNAL_TYPE_FSR)
          && negb (signal_type signal =? JLS_SIGNAL_TYPE_VSR)
  then ret JLS_ERROR_PARAMETER_INVALID
  else
    (* info->signal_def = *signal; snprintf(info->name, ...) *)
    match c_str (default [] (name signal)) with
    | None => undefined
    | Some chars =>
      let nm := firstn 1023 chars ++ [0] in
      DO upd_info id (fun x => set_signal_def (sd_set_name (Some nm) signal)
                                 (set_info_name nm x)) ;;
      if (signal_type signal =? JLS_SIGNAL_TYPE_FSR) && (sample_rate signal =? 0)
      then ret JLS_ERROR_PARAMETER_INVALID
      else
        DO upd_info id (fun x =>
             if signal_type signal =? JLS_SIGNAL_TYPE_FSR
             then set_tags JLS_TAG_TRACK_FSR_DATA JLS_TAG_TRACK_FSR_SUMMARY
                    JLS_TAG_TRACK_FSR_INDEX JLS_TAG_TRACK_FSR_DATA x
             else set_tags JLS_TAG_TRACK_VSR_DATA JLS_TAG_TRACK_VSR_SUMMARY
                    JLS_TAG_TRACK_VSR_INDEX JLS_TAG_TRACK_VSR_DATA
                    (if negb (sample_rate signal =? 0)
                     then set_signal_def (sd_set_sample_rate 0 (signal_def x)) x
                     else x)) ;;
        if negb (data_type signal =? JLS_DATATYPE_F32) then ret JLS_ERROR_NOT_SUPPORTED
        else
          DO upd_info id (fun x => set_signal_def (clamp_factors (signal_def x)) x) ;;
          LET s1 <- get_st ;;
          let d := signal_def (get_info s1 id) in
          let sample_buffer_length :=
            u32 (summary_decimate_factor d * entries_per_summary d) in
          match sample_buffer_alloc (data_type d) sample_buffer_length with
          | (JLS_SUCCESS, b) =>
            DO upd_info id (set_sample_buffer b) ;;
            (* construct payload *)
            DO buf_reset ;;
            ROE buf_wr_u16 (source_id signal) ;;
            ROE buf_wr_u8 (signal_type signal) ;;
            ROE buf_wr_u8 0 ;;
            ROE buf_wr_u32 (data_type signal) ;;
            ROE buf_wr_u32 (sample_rate d) ;;
            ROE buf_wr_u32 (summary_decimate_factor d) ;;
            ROE buf_wr_u32 (entries_per_summary d) ;;
            ROE buf_wr_u32 (utc_rate_auto signal) ;;
            ROE buf_add_zero (4 + 64) ;;
            ROE buf_add_str (name signal) ;;
            ROE buf_add_str (si_units signal) ;;
            LET payload_length <- buf_size ;;
            (* construct header *)
            LET s2 <- get_st ;;
            LET pos <- tell ;;
            let chunk := mk_chunk (mk_hdr 0 (offset (signal_mra s2)) JLS_TAG_SIGNAL_DEF 0 id
                                     payload_length (wr_payload_prev_length s2)) pos in
            DO upd_info id (set_chunk_def chunk) ;;
            (* write *)
            ROE raw_wr (hdr chunk) (buf s2) ;;
            DO modify (set_payload_prev_length payload_length) ;;
            ROE update_mra signal_mra set_signal_mra chunk ;;
            wr_tracks id (signal_tracks (signal_type signal))
          | (rc, _) => ret rc
          end
    end.

(** *** User data *)

Definition is_null (p : option (list Z)) : bool :=
  match p with None => true | Some _ => false end.

(** the guard [data_size & !data] *)
Definition user_data_guard (data : option (list Z)) (data_size : Z) : bool :=
  negb (Z.land data_size (if is_null data then 1 else 0) =? 0).

Definition jls_wr_user_data (chunk_meta storage_type : Z) (data : option (list Z))
    (data_size : Z) : W jls_ec :=
  if user_data_guard data data_size then ret JLS_ERROR_PARAMETER_INVALID
  else
    let chunk_meta := if negb (Z.land chunk_meta 0xf000 =? 0)
                      then Z.land chunk_meta 0x0fff else chunk_meta in
    let sized : option (option Z) :=
      if storage_type =? JLS_STORAGE_TYPE_INVALID then Some (Some 0)
      else if storage_type =? JLS_STORAGE_TYPE_BINARY then Some (Some data_size)
      else if (storage_type =? JLS_STORAGE_TYPE_STRING) || (storage_type =? JLS_STORAGE_TYPE_JSON)
      then Some (option_map (fun cs => u32 (zlen cs + 1)) (c_str (default [] data)))
      else None in
    match sized with
    | None => ret JLS_ERROR_PARAMETER_INVALID
    | Some None => undefined                      (* strlen has no terminator to find *)
    | Some (Some data_size) =>
      let chunk_meta := u16 (Z.lor chunk_meta (Z.shiftl (u16 storage_type) 12)) in
      LET s <- get_st ;;
      LET pos <- tell ;;
      let chunk := mk_chunk (mk_hdr 0 (offset (user_data_mra s)) JLS_TAG_USER_DATA 0 chunk_meta
                               data_size (wr_payload_prev_length s)) pos in
      match mem_read data data_size with
      | None => undefined
      | Some payload =>
        ROE raw_wr (hdr chunk) payload ;;
        DO modify (set_payload_prev_length data_size) ;;
        update_mra user_data_mra set_user_data_mra chunk
      end
    end.

(** *** Samples, annotations, UTC *)

Definition signal_validate (id : Z) : W jls_ec :=
  LET s <- get_st ;;
  if JLS_SIGNAL_COUNT <=? id then ret JLS_ERROR_PARAMETER_INVALID
  else if offset (chunk_def (get_info s id)) =? 0 then ret JLS_ERROR_NOT_FOUND
  else ret JLS_SUCCESS.

Definition signal_validate_typed (id type : Z) : W jls_ec :=
  ROE signal_validate id ;;
  LET s <- get_st ;;
  if negb (signal_type (signal_def (get_info s id)) =? type) then ret JLS_ERROR_NOT_SUPPORTED
  else ret JLS_SUCCESS.

Definition sb_set_offset (o : Z) (data : list Z) (b : sample_buffer_s) : sample_buffer_s :=
  mk_sample_buffer (sb_length b) o (sb_timestamp b) data.
Definition sb_set_timestamp (t : Z) (b : sample_buffer_s) : sample_buffer_s :=
  mk_sample_buffer (sb_length b) (sb_offset b) t (sb_data b).

(** the most recently added data chunk of a track, [info->tracks[ty].data] *)
Definition data_mra (id ty : Z) (s : jls_wr_s) : chunk_s :=
  data (get_track (get_info s id) ty).
Definition set_data_mra (id ty : Z) (c : chunk_s) (s : jls_wr_s) : jls_wr_s :=
  set_info id (set_track ty (set_data c (get_track (get_info s id) ty)) (get_info s id)) s.

(** [memcpy(dst + off, src, n)] on element lists *)
Definition memcpy_at {A} (dst : list A) (off : Z) (src : list A) (n : Z) : list A :=
  firstn (Z.to_nat off) dst ++ firstn (Z.to_nat n) src
    ++ skipn (Z.to_nat (off + n)) dst.

(** what [jls_raw_wr] reads at [&b->timestamp]: the timestamp, then the
    samples, on a little-endian host *)
Definition sample_buffer_bytes (b : sample_buffer_s) : list Z :=
  le_bytes 8 (sb_timestamp b) ++ flat_map (le_bytes 4) (sb_data b).

(** The [while (data_length)] loop of [jls_wr_fsr_f32].  Neither [data]
    nor [data_length] changes in the loop, and [write_count] only changes
    on the way out.  A round that does not fill the buffer adds at least
    one sample, so [sb_length - sb_offset + 1] rounds are enough.  The
    chunk header takes [item_prev] from [info->tracks[info->track_type]],
    and [update_mra] stores the chunk there: with an index outside
    [tracks[4]] the access is out of bounds and the call has no defined
    result, like a copy past the sample buffer. *)
Fixpoint fsr_f32_loop (fuel : nat) (id sample_id : Z) (data : list Z)
    (data_length write_count : Z) : W jls_ec :=
  if data_length =? 0 then ret JLS_SUCCESS
  else match fuel with
  | O => undefined
  | S fuel' =>
    LET s <- get_st ;;
    let info := get_info s id in
    match sample_buffer info with
    | None => undefined
    | Some b =>
      let block_length := u32 (sb_length b - sb_offset b) in
      let block_length := if data_length <? block_length then data_length else block_length in
      if (zlen data <? block_length) || (sb_length b <? sb_offset b + block_length)
      then undefined
      else
        let b := sb_set_offset (u32 (sb_offset b + block_length))
                   (memcpy_at (sb_data b) (sb_offset b) data block_length) b in
        DO upd_info id (set_sample_buffer (Some b)) ;;
        if sb_length b <=? sb_offset b then
          let write_count := u64 (write_count + block_length) in
          let b := sb_set_timestamp (u64 (sample_id + write_count)) b in
          DO upd_info id (set_sample_buffer (Some b)) ;;
          LET s1 <- get_st ;;
          (* [info->tracks[info->track_type]] *)
          if negb (track_index_ok (track_type info)) then undefined else
          LET pos <- tell ;;
          let chunk := mk_chunk (mk_hdr 0 (offset (data_mra id (track_type info) s1))
                                   (data_tag info) 0 id (u32 (sb_length b + 8))
                                   (wr_payload_prev_length s1)) pos in
          (* write *)
          match mem_read (Some (sample_buffer_bytes b)) (payload_length (hdr chunk)) with
          | None => undefined
          | Some payload =>
            ROE raw_wr (hdr chunk) payload ;;
            DO modify (set_payload_prev_length (payload_length (hdr chunk))) ;;
            update_mra (data_mra id (track_type info)) (set_data_mra id (track_type info)) chunk
          end
        else fsr_f32_loop fuel' id sample_id data data_length write_count
    end
  end.

Definition fsr_fuel (s : jls_wr_s) (id : Z) : nat :=
  match sample_buffer (get_info s id) with
  | None => 1
  | Some b => S (Z.to_nat (sb_length b - sb_offset b))
  end.

Definition jls_wr_fsr_f32 (id sample_id : Z) (data : list Z) (data_length : Z) : W jls_ec :=
  ROE signal_validate id ;;
  LET s <- get_st ;;
  fsr_f32_loop (fsr_fuel s id) id sample_id data data_length 0.

(** the chunk is written from [data], not from the scratch buffer *)
Definition anno_wr (id timestamp annotation_type storage_type : Z)
    (data : option (list Z)) (data_size : Z) : W jls_ec :=
  ROE signal_validate id ;;
  if negb (Z.land annotation_type 0xff =? annotation_type) then ret JLS_ERROR_PARAMETER_INVALID
  else if negb (Z.land storage_type 0xff =? storage_type) then ret JLS_ERROR_PARAMETER_INVALID
  else
    DO buf_reset ;;
    ROE buf_wr_u64 timestamp ;;
    ROE buf_wr_u8 annotation_type ;;
    ROE buf_wr_u8 storage_type ;;
    ROE buf_add_zero 6 ;;
    let body : option (W jls_ec) :=
      if storage_type =? JLS_STORAGE_TYPE_BINARY then Some (buf_add_bin data data_size)
      else if (storage_type =? JLS_STORAGE_TYPE_STRING) || (storage_type =? JLS_STORAGE_TYPE_JSON)
      then Some (buf_add_str data)
      else None in
    match body with
    | None => ret JLS_ERROR_PARAMETER_INVALID
    | Some add =>
      ROE add ;;
      LET payload_length <- buf_size ;;
      LET s <- get_st ;;
      LET pos <- tell ;;
      let chunk := mk_chunk (mk_hdr 0 (offset (data_mra id JLS_TRACK_TYPE_ANNOTATION s))
                               JLS_TAG_TRACK_ANNOTATION_DATA 0 id payload_length
                               (wr_payload_prev_length s)) pos in
      match mem_read data payload_length with
      | None => undefined
      | Some payload =>
        ROE raw_wr (hdr chunk) payload ;;
        DO modify (set_payload_prev_length payload_length) ;;
        update_mra (data_mra id JLS_TRACK_TYPE_ANNOTATION)
                   (set_data_mra id JLS_TRACK_TYPE_ANNOTATION) chunk
      end
    end.

Definition jls_wr_fsr_annotation (id sample_id annotation_type storage_type : Z)
    (data : option (list Z)) (data_size : Z) : W jls_ec :=
  ROE signal_validate_typed id JLS_SIGNAL_TYPE_FSR ;;
  anno_wr id sample_id annotation_type storage_type data data_size.

Definition jls_wr_fsr_utc (id sample_id utc : Z) : W jls_ec :=
  ROE signal_validate_typed id JLS_SIGNAL_TYPE_FSR ;;
  let payload := le_bytes 8 (u64 sample_id) ++ le_bytes 8 (u64 utc) in
  let payload_length := 16 in
  LET s <- get_st ;;
  LET pos <- tell ;;
  let chunk := mk_chunk (mk_hdr 0 (offset (data_mra id JLS_TRACK_TYPE_UTC s))
                           JLS_TAG_TRACK_UTC_DATA 0 id payload_length
                           (wr_payload_prev_length s)) pos in
  ROE raw_wr (hdr chunk) payload ;;
  DO modify (set_payload_prev_length payload_length) ;;
  update_mra (data_mra id JLS_TRACK_TYPE_UTC) (set_data_mra id JLS_TRACK_TYPE_UTC) chunk.

Definition jls_wr_vsr_annotation (id timestamp annotation_type storage_type : Z)
    (data : option (list Z)) (data_size : Z) : W jls_ec :=
  ROE signal_validate_typed id JLS_SIGNAL_TYPE_VSR ;;
  anno_wr id (u64 timestamp) annotation_type storage_type data data_size.

(** *** Open and close *)

Definition SOURCE_0 : jls_source_def_s :=
  mk_source 0 (lit "s"%string) (lit "None"%string) (lit "None"%string)
    (lit "1.0.0"%string) (lit "None"%string).

(** [SIGNAL_0.si_units] is the literal [""]: one terminator, followed in
    the program image by bytes that the source does not fix.  They are
    the argument [after]: [buf_add_str] reads into them. *)
Definition SIGNAL_0 (after : list Z) : jls_signal_def_s :=
  mk_signal 0 0 JLS_SIGNAL_TYPE_VSR JLS_DATATYPE_F32 0
    0 0 10000 100 0 (lit "global_annotation_signal"%string) (Some (0 :: after)).

(** the writer after [calloc] and the loop that numbers the tracks *)
Definition init_tracks (id : Z) : gmap Z track_info_s :=
  list_to_map (map (fun ty => (ty, mk_track id ty chunk0 chunk0 (repeat chunk0 8) chunk0
                                     (repeat chunk0 8))) (seqZ 0 4)).
Definition init_signal_info : gmap Z signal_info_s :=
  list_to_map (map (fun id => (id, set_tracks (init_tracks id) signal_info0))
                   (seqZ 0 JLS_SIGNAL_COUNT)).
Definition wr_init : jls_wr_s :=
  mk_wr jls_raw_open_w [] ∅ chunk0 init_signal_info chunk0 chunk0 0.

Definition jls_wr_open (after : list Z) : option (jls_ec * jls_wr_s) :=
  (ROE jls_wr_user_data 0 JLS_STORAGE_TYPE_INVALID None 0 ;;
   ROE jls_wr_source_def SOURCE_0 ;;
   ROE jls_wr_signal_def (SIGNAL_0 after) ;;
   ret JLS_SUCCESS) wr_init.

(** the sample buffers are freed, not written: the result is the file as
    it stands *)
Definition jls_wr_close (s : jls_wr_s) : jls_ec * gmap Z raw_chunk :=
  (jls_raw_close (raw s), chunks (raw s)).

End Writer.

(** ** The reader, [src/reader.c] *)

Module Reader.
Import Format Raw.
Local Open Scope c_scope.

Definition PAYLOAD_BUFFER_SIZE_DEFAULT : Z := Z.shiftl 1 25.
Definition STRING_BUFFER_SIZE_DEFAULT : Z := Z.shiftl 1 23.
Definition SIGNAL_MASK : Z := 0x0fff.
(** room for characters in one string buffer: the allocation without its
    [struct strings_s] of four pointers *)
Definition STRINGS_CAPACITY : Z := STRING_BUFFER_SIZE_DEFAULT - 32.

Record chunk_s := mk_chunk {
  hdr : jls_chunk_header_s;
  offset : Z
}.

Definition chunk0 : chunk_s := mk_chunk hdr0 0.

(** [p_mem] is the content of the payload allocation from [start] on, as
    far as it has been written: the last payload read, then what is left
    of earlier, longer payloads.  [p_cur] and [p_length] are [cur] and
    [end] as distances from [start]. *)
Record payload_s := mk_payload {
  p_mem : list Z;
  p_cur : Z;
  p_length : Z;
  alloc_size : Z
}.

Record signal_s := mk_signal_s {
  timestamp_start : Z;
  timestamp_end : Z;
  track_defs : gmap Z Z;
  track_head_offsets : gmap Z Z;
  track_head_data : gmap Z (list Z)      (* per track: 8 offsets *)
}.

Definition signal_s0 : signal_s := mk_signal_s 0 0 ∅ ∅ ∅.

(** [strings_cur] is the cursor of the tail string buffer, as a distance
    from its start; a string that has been parsed is kept by value. *)
Record jls_rd_s := mk_rd {
  raw : jls_raw_s;
  source_def : gmap Z jls_source_def_s;
  signal_def : gmap Z jls_signal_def_s;
  signals : gmap Z signal_s;
  chunk_cur : chunk_s;
  payload : payload_s;
  strings_cur : Z;
  source_head : chunk_s;
  signal_head : chunk_s;
  user_data_head : chunk_s;
  user_data_cur : chunk_s
}.

Definition R (A : Type) : Type := M jls_rd_s A.

Definition set_raw (x : jls_raw_s) (s : jls_rd_s) : jls_rd_s :=
  mk_rd x (source_def s) (signal_def s) (signals s) (chunk_cur s) (payload s)
    (strings_cur s) (source_head s) (signal_head s) (user_data_head s) (user_data_cur s).
Definition set_source_def (x : gmap Z jls_source_def_s) (s : jls_rd_s) : jls_rd_s :=
  mk_rd (raw s) x (signal_def s) (signals s) (chunk_cur s) (payload s)
    (strings_cur s) (source_head s) (signal_head s) (user_data_head s) (user_data_cur s).
Definition set_signal_def (x : gmap Z jls_signal_def_s) (s : jls_rd_s) : jls_rd_s :=
  mk_rd (raw s) (source_def s) x (signals s) (chunk_cur s) (payload s)
    (strings_cur s) (source_head s) (signal_head s) (user_data_head s) (user_data_cur s).
Definition set_signals (x : gmap Z signal_s) (s : jls_rd_s) : jls_rd_s :=
  mk_rd (raw s) (source_def s) (signal_def s) x (chunk_cur s) (payload s)
    (strings_cur s) (source_head s) (signal_head s) (user_data_head s) (user_data_cur s).
Definition set_chunk_cur (x : chunk_s) (s : jls_rd_s) : jls_rd_s :=
  mk_rd (raw s) (source_def s) (signal_def s) (signals s) x (payload s)
    (strings_cur s) (source_head s) (signal_head s) (user_data_head s) (user_data_cur s).
Definition set_payload (x : payload_s) (s : jls_rd_s) : jls_rd_s :=
  mk_rd (raw s) (source_def s) (signal_def s) (signals s) (chunk_cur s) x
    (strings_cur s) (source_head s) (signal_head s) (user_data_head s) (user_data_cur s).
Definition set_strings_cur (x : Z) (s : jls_rd_s) : jls_rd_s :=
  mk_rd (raw s) (source_def s) (signal_def s) (signals s) (chunk_cur s) (payload s)
    x (source_head s) (signal_head s) (user_data_head s) (user_data_cur s).
Definition set_source_head (x : chunk_s) (s : jls_rd_s) : jls_rd_s :=
  mk_rd (raw s) (source_def s) (signal_def s) (signals s) (chunk_cur s) (payload s)
    (strings_cur s) x (signal_head s) (user_data_head s) (user_data_cur s).
Definition set_signal_head (x : chunk_s) (s : jls_rd_s) : jls_rd_s :=
  mk_rd (raw s) (source_def s) (signal_def s) (signals s) (chunk_cur s) (payload s)
    (strings_cur s) (source_head s) x (user_data_head s) (user_data_cur s).
Definition set_user_data_head (x : chunk_s) (s : jls_rd_s) : jls_rd_s :=
  mk_rd (raw s) (source_def s) (signal_def s) (signals s) (chunk_cur s) (payload s)
    (strings_cur s) (source_head s) (signal_head s) x (user_data_cur s).
Definition set_user_data_cur (x : chunk_s) (s : jls_rd_s) : jls_rd_s :=
  mk_rd (raw s) (source_def s) (signal_def s) (signals s) (chunk_cur s) (payload s)
    (strings_cur s) (source_head s) (signal_head s) (user_data_head s) x.

Definition set_p_cur (c : Z) (p : payload_s) : payload_s :=
  mk_payload (p_mem p) c (p_length p) (alloc_size p).

Definition get_source_def (s : jls_rd_s) (i : Z) : jls_source_def_s :=
  arr_get source0 (source_def s) i.
Definition get_signal_def (s : jls_rd_s) (i : Z) : jls_signal_def_s :=
  arr_get signal0 (signal_def s) i.
Definition get_signal (s : jls_rd_s) (i : Z) : signal_s := arr_get signal_s0 (signals s) i.
Definition upd_source_def (i : Z) (f : jls_source_def_s -> jls_source_def_s)
  : jls_rd_s -> jls_rd_s :=
  fun s => set_source_def (<[i := f (get_source_def s i)]> (source_def s)) s.
Definition upd_signal_def (i : Z) (f : jls_signal_def_s -> jls_signal_def_s)
  : jls_rd_s -> jls_rd_s :=
  fun s => set_signal_def (<[i := f (get_signal_def s i)]> (signal_def s)) s.
Definition upd_signal (i : Z) (f : signal_s -> signal_s) : jls_rd_s -> jls_rd_s :=
  fun s => set_signals (<[i := f (get_signal s i)]> (signals s)) s.

Definition lift_raw (f : jls_raw_s -> jls_ec * jls_raw_s) : R jls_ec :=
  fun s => let '(rc, r) := f (raw s) in Some (rc, set_raw r s).
Definition raw_seek (off : Z) : R jls_ec := lift_raw (fun r => jls_raw_chunk_seek r off).
Definition tell : R Z := fun s => Some (jls_raw_chunk_tell (raw s), s).

(** *** Parsing a payload *)

(** the byte at distance [i] from [payload.start] *)
Definition mem_at (p : payload_s) (i : Z) : option Z :=
  if (i <? 0) || (alloc_size p <=? i) then None else p_mem p !! Z.to_nat i.

(** [n] bytes from distance [i] on *)
Fixpoint mem_bytes (p : payload_s) (i : Z) (n : nat) : option (list Z) :=
  match n with
  | O => Some []
  | S n' => match mem_at p i, mem_bytes p (i + 1) n' with
            | Some b, Some bs => Some (b :: bs)
            | _, _ => None
            end
  end.

Definition payload_skip (count : Z) : R jls_ec :=
  LET s <- get_st ;;
  let p := payload s in
  if p_length p <? p_cur p + count then ret JLS_ERROR_EMPTY
  else DO modify (set_payload (set_p_cur (p_cur p + count) p)) ;; ret JLS_SUCCESS.

(** the three integer parsers: [w] bytes, little-endian, stored through
    [store] on success *)
Definition payload_parse_uint (w : nat) (store : Z -> jls_rd_s -> jls_rd_s) : R jls_ec :=
  LET s <- get_st ;;
  let p := payload s in
  if p_length p <? p_cur p + Z.of_nat w then ret JLS_ERROR_EMPTY
  else match mem_bytes p (p_cur p) w with
       | None => undefined
       | Some bs =>
           DO modify (store (le_value bs)) ;;
           DO modify (fun s => set_payload (set_p_cur (p_cur p + Z.of_nat w) (payload s)) s) ;;
           ret JLS_SUCCESS
       end.
Definition payload_parse_u8 := payload_parse_uint 1.
Definition payload_parse_u16 := payload_parse_uint 2.
Definition payload_parse_u32 := payload_parse_uint 4.

(** The loop of [payload_parse_str]; [str] is what has been copied to
    the string buffer so far.  When the string buffer is full the code
    chains a new one without moving [strings_tail] and copies the partial
    string past the end of the old one: no defined result. *)
Fixpoint payload_parse_str_loop (fuel : nat) (str : list Z)
    (store : option (list Z) -> jls_rd_s -> jls_rd_s) : R jls_ec :=
  LET s <- get_st ;;
  let p := payload s in
  if p_cur p =? p_length p then
    DO modify (store None) ;; ret JLS_ERROR_EMPTY
  else match fuel with
  | O => undefined
  | S fuel' =>
    if STRINGS_CAPACITY <=? strings_cur s then undefined
    else match mem_at p (p_cur p) with
    | None => undefined
    | Some ch =>
      DO modify (fun s => set_strings_cur (strings_cur s + 1)
                            (set_payload (set_p_cur (p_cur p + 1) p) s)) ;;
      if ch =? 0 then
        match mem_at p (p_cur p + 1) with
        | None => undefined
        | Some nx =>
          DO (if nx =? 0x1f
              then modify (set_payload (set_p_cur (p_cur p + 2) p))
              else ret tt) ;;
          DO modify (store (Some (str ++ [0]))) ;;
          ret JLS_SUCCESS
        end
      else payload_parse_str_loop fuel' (str ++ [ch]) store
    end
  end.

Definition payload_parse_str (store : option (list Z) -> jls_rd_s -> jls_rd_s) : R jls_ec :=
  LET s <- get_st ;;
  payload_parse_str_loop (S (length (p_mem (payload s)))) [] store.

(** the doubling of the payload allocation in [rd] *)
Fixpoint grow (fuel : nat) (sz_new payload_len : Z) : Z :=
  match fuel with
  | O => sz_new
  | S fuel' => if sz_new <? payload_len then grow fuel' (sz_new * 2) payload_len else sz_new
  end.

(** [rd]: [realloc] is taken to succeed.  A payload of at most 2^32 bytes
    is reached from a positive size by 64 doublings, and the read after
    the reallocation fits: two rounds are enough. *)
Fixpoint rd_loop (fuel : nat) : R jls_ec :=
  match fuel with
  | O => undefined
  | S fuel' =>
    LET s <- get_st ;;
    let off := jls_raw_chunk_tell (raw s) in
    let '(rc, h, bytes, r) := jls_raw_rd (raw s) (alloc_size (payload s)) in
    match rc with
    | JLS_ERROR_TOO_BIG =>
        let sz_new := grow 64 (alloc_size (payload s)) (payload_length h) in
        DO modify (fun s => set_raw r (set_chunk_cur (mk_chunk h off)
                     (set_payload (mk_payload (p_mem (payload s)) 0 0 sz_new) s))) ;;
        rd_loop fuel'
    | JLS_SUCCESS =>
        DO modify (fun s => set_raw r (set_chunk_cur (mk_chunk h off)
                     (set_payload (mk_payload
                         (bytes ++ skipn (length bytes) (p_mem (payload s)))
                         0 (payload_length h) (alloc_size (payload s))) s))) ;;
        ret JLS_SUCCESS
    | _ =>
        DO modify (fun s => set_chunk_cur (mk_chunk (hdr (chunk_cur s)) off) s) ;;
        ret rc
    end
  end.

Definition rd : R jls_ec := rd_loop 2.

(** *** The scan at open *)

(** the walk of the source list; it ends at a chunk whose [item_next] is
    zero, and has no defined result within [fuel] chunks on a list that
    does not end *)
Fixpoint scan_sources_loop (fuel : nat) : R jls_ec :=
  match fuel with
  | O => undefined
  | S fuel' =>
    ROE rd ;;
    LET s <- get_st ;;
    let id := chunk_meta (hdr (chunk_cur s)) in
    ROE (if JLS_SOURCE_COUNT <=? id then ret JLS_SUCCESS
         else
           ROE payload_skip 64 ;;
           ROE payload_parse_str (fun v => upd_source_def id (src_set_name v)) ;;
           ROE payload_parse_str (fun v => upd_source_def id (src_set_vendor v)) ;;
           ROE payload_parse_str (fun v => upd_source_def id (src_set_model v)) ;;
           ROE payload_parse_str (fun v => upd_source_def id (src_set_version v)) ;;
           ROE payload_parse_str (fun v => upd_source_def id (src_set_serial_number v)) ;;
           DO modify (upd_source_def id (src_set_id id)) ;;
           ret JLS_SUCCESS) ;;
    if item_next (hdr (chunk_cur s)) =? 0 then ret JLS_SUCCESS
    else
      ROE raw_seek (item_next (hdr (chunk_cur s))) ;;
      scan_sources_loop fuel'
  end.

Definition scan_sources (fuel : nat) : R jls_ec :=
  LET s <- get_st ;;
  ROE raw_seek (offset (source_head s)) ;;
  scan_sources_loop fuel.

(** [self->source_def] has [JLS_SOURCE_COUNT] entries and the parsed
    [source_id] is not checked against it *)
Definition signal_validate (id : Z) (d : jls_signal_def_s) : R jls_ec :=
  LET s <- get_st ;;
  if JLS_SIGNAL_COUNT <=? id then ret JLS_ERROR_PARAMETER_INVALID
  else if JLS_SOURCE_COUNT <=? source_id d then undefined
  else if negb (src_source_id (get_source_def s (source_id d)) =? source_id d)
  then ret JLS_ERROR_PARAMETER_INVALID
  else if (signal_type d =? JLS_SIGNAL_TYPE_FSR) || (signal_type d =? JLS_SIGNAL_TYPE_VSR)
  then ret JLS_SUCCESS
  else ret JLS_ERROR_PARAMETER_INVALID.

Definition handle_signal_def : R jls_ec :=
  LET s <- get_st ;;
  let id := chunk_meta (hdr (chunk_cur s)) in
  if JLS_SIGNAL_COUNT <=? id then ret JLS_ERROR_PARAMETER_INVALID
  else
    let field (set : Z -> jls_signal_def_s -> jls_signal_def_s) :=
      fun v => upd_signal_def id (set v) in
    DO modify (upd_signal_def id (sd_set_signal_id id)) ;;
    ROE payload_parse_u16 (field sd_set_source_id) ;;
    ROE payload_parse_u8 (field sd_set_signal_type) ;;
    ROE payload_skip 1 ;;
    ROE payload_parse_u32 (field sd_set_data_type) ;;
    ROE payload_parse_u32 (field sd_set_sample_rate) ;;
    ROE payload_parse_u32 (field sd_set_samples_per_data) ;;
    ROE payload_parse_u32 (field sd_set_sample_decimate_factor) ;;
    ROE payload_parse_u32 (field sd_set_entries_per_summary) ;;
    ROE payload_parse_u32 (field sd_set_summary_decimate_factor) ;;
    ROE payload_parse_u32 (field sd_set_utc_rate_auto) ;;
    ROE payload_skip 64 ;;
    ROE payload_parse_str (fun v => upd_signal_def id (sd_set_name v)) ;;
    ROE payload_parse_str (fun v => upd_signal_def id (sd_set_si_units v)) ;;
    LET s1 <- get_st ;;
    LET rc <- signal_validate id (get_signal_def s1 id) ;;
    DO (if is_ok rc then modify (upd_signal_def id (sd_set_signal_id id)) else ret tt) ;;
    ret JLS_SUCCESS.

Definition is_signal_defined (id : Z) (s : jls_rd_s) : bool :=
  let id := Z.land id SIGNAL_MASK in
  if JLS_SIGNAL_COUNT <=? id then false
  else if negb (signal_id (get_signal_def s id) =? id) then false
  else true.

Definition tag_parse_track_type (tag : Z) : Z := Z.land (Z.shiftr tag 3) 3.

Definition validate_track_tag (id tag : Z) : R jls_ec :=
  LET s <- get_st ;;
  if negb (is_signal_defined id s) then ret JLS_ERROR_PARAMETER_INVALID
  else
    let d := get_signal_def s id in
    let ty := tag_parse_track_type tag in
    if signal_type d =? JLS_SIGNAL_TYPE_FSR then
      if (ty =? JLS_TRACK_TYPE_FSR) || (ty =? JLS_TRACK_TYPE_ANNOTATION)
         || (ty =? JLS_TRACK_TYPE_UTC)
      then ret JLS_SUCCESS else ret JLS_ERROR_PARAMETER_INVALID
    else if signal_type d =? JLS_SIGNAL_TYPE_VSR then
      if (ty =? JLS_TRACK_TYPE_VSR) || (ty =? JLS_TRACK_TYPE_ANNOTATION)
      then ret JLS_SUCCESS else ret JLS_ERROR_PARAMETER_INVALID
    else ret JLS_ERROR_PARAMETER_INVALID.

Definition set_track_defs (m : gmap Z Z) (x : signal_s) : signal_s :=
  mk_signal_s (timestamp_start x) (timestamp_end x) m (track_head_offsets x)
    (track_head_data x).
Definition set_track_head_offsets (m : gmap Z Z) (x : signal_s) : signal_s :=
  mk_signal_s (timestamp_start x) (timestamp_end x) (track_defs x) m (track_head_data x).
Definition set_track_head_data (m : gmap Z (list Z)) (x : signal_s) : signal_s :=
  mk_signal_s (timestamp_start x) (timestamp_end x) (track_defs x) (track_head_offsets x) m.

Definition handle_track_def (pos : Z) : R jls_ec :=
  LET s <- get_st ;;
  let id := Z.land (chunk_meta (hdr (chunk_cur s))) SIGNAL_MASK in
  ROE validate_track_tag id (tag (hdr (chunk_cur s))) ;;
  let ty := tag_parse_track_type (tag (hdr (chunk_cur s))) in
  DO modify (upd_signal id (fun x => set_track_defs (<[ty := pos]> (track_defs x)) x)) ;;
  ret JLS_SUCCESS.

(** [count] values of 8 bytes at [payload.start + 8 * i], as [int64_t] *)
Definition mem_i64 (p : payload_s) (i : Z) : option Z :=
  option_map (fun bs => i64 (le_value bs)) (mem_bytes p (8 * i) 8).
Fixpoint mem_i64s (p : payload_s) (i : Z) (count : nat) : option (list Z) :=
  match count with
  | O => Some []
  | S n => match mem_i64 p i, mem_i64s p (i + 1) n with
           | Some v, Some vs => Some (v :: vs)
           | _, _ => None
           end
  end.

Definition handle_track_head (pos : Z) : R jls_ec :=
  LET s <- get_st ;;
  let id := Z.land (chunk_meta (hdr (chunk_cur s))) SIGNAL_MASK in
  ROE validate_track_tag id (tag (hdr (chunk_cur s))) ;;
  let ty := tag_parse_track_type (tag (hdr (chunk_cur s))) in
  DO modify (upd_signal id (fun x =>
       set_track_head_offsets (<[ty := pos]> (track_head_offsets x)) x)) ;;
  let expect_sz := JLS_SUMMARY_LEVEL_COUNT * 8 in
  if negb (p_length (payload s) =? expect_sz) then ret JLS_ERROR_PARAMETER_INVALID
  else match mem_i64s (payload s) 0 8 with
       | None => undefined
       | Some offsets =>
           DO modify (upd_signal id (fun x =>
                set_track_head_data (<[ty := offsets]> (track_head_data x)) x)) ;;
           ret JLS_SUCCESS
       end.

(** the walk of the signal list; the results of the three handlers are
    dropped *)
Fixpoint scan_signals_loop (fuel : nat) : R jls_ec :=
  match fuel with
  | O => undefined
  | S fuel' =>
    ROE rd ;;
    LET s <- get_st ;;
    let h := hdr (chunk_cur s) in
    DO (if tag h =? JLS_TAG_SIGNAL_DEF then handle_signal_def
        else if Z.land (tag h) 7 =? JLS_TRACK_CHUNK_DEF then handle_track_def (offset (chunk_cur s))
        else if Z.land (tag h) 7 =? JLS_TRACK_CHUNK_HEAD
        then handle_track_head (offset (chunk_cur s))
        else ret JLS_SUCCESS) ;;
    if item_next h =? 0 then ret JLS_SUCCESS
    else
      ROE raw_seek (item_next h) ;;
      scan_signals_loop fuel'
  end.

Definition scan_signals (fuel : nat) : R jls_ec :=
  LET s <- get_st ;;
  ROE raw_seek (offset (signal_head s)) ;;
  scan_signals_loop fuel.

(** the first loop of [scan]: read chunks in file order until a chunk
    of each of the three kinds has been seen; [Some rc] stops [scan] with
    [rc], [None] goes on to the two list walks *)
Fixpoint scan_loop (fuel : nat) (found : Z) : R (option jls_ec) :=
  if found =? 7 then ret None
  else match fuel with
  | O => undefined
  | S fuel' =>
    LET pos <- tell ;;
    LET rc <- rd ;;
    if decide (rc = JLS_ERROR_EMPTY) then ret (Some JLS_SUCCESS)
    else if negb (is_ok rc) then ret (Some rc)
    else
      LET s <- get_st ;;
      let h := hdr (chunk_cur s) in
      if tag h =? JLS_TAG_USER_DATA then
        DO (if offset (user_data_head s) =? 0
            then modify (fun s => set_user_data_cur (mk_chunk h pos)
                                    (set_user_data_head (mk_chunk h pos) s))
            else ret tt) ;;
        scan_loop fuel' (Z.lor found 1)
      else if tag h =? JLS_TAG_SOURCE_DEF then
        DO (if offset (source_head s) =? 0
            then modify (set_source_head (mk_chunk h pos)) else ret tt) ;;
        scan_loop fuel' (Z.lor found 2)
      else if tag h =? JLS_TAG_SIGNAL_DEF then
        DO (if offset (signal_head s) =? 0
            then modify (set_signal_head (mk_chunk h pos)) else ret tt) ;;
        scan_loop fuel' (Z.lor found 4)
      else scan_loop fuel' found
  end.

Definition scan (fuel : nat) : R jls_ec :=
  LET stop <- scan_loop fuel 0 ;;
  match stop with
  | Some rc => ret rc
  | None =>
      ROE scan_sources fuel ;;
      ROE scan_signals fuel ;;
      ret JLS_SUCCESS
  end.

(** the reader after [calloc] and the two allocations, which are taken to
    succeed; the payload allocation has no defined content yet *)
Definition rd_init (f : gmap Z raw_chunk) : jls_rd_s :=
  mk_rd (jls_raw_open_r f) ∅ ∅ ∅ chunk0
        (mk_payload [] 0 0 PAYLOAD_BUFFER_SIZE_DEFAULT) 0
        chunk0 chunk0 chunk0 chunk0.

(** [fuel] bounds the number of chunks each of the three loops of [scan]
    may visit *)
Definition jls_rd_open (fuel : nat) (f : gmap Z raw_chunk) : option (jls_ec * jls_rd_s) :=
  (ROE scan fuel ;; ret JLS_SUCCESS) (rd_init f).

Definition jls_rd_sources (s : jls_rd_s) : jls_ec * list jls_source_def_s :=
  (JLS_SUCCESS,
   map (get_source_def s)
       (filter (fun i => src_source_id (get_source_def s i) = i) (seqZ 0 JLS_SOURCE_COUNT))).

Definition jls_rd_signals (s : jls_rd_s) : jls_ec * list jls_signal_def_s :=
  (JLS_SUCCESS,
   map (get_signal_def s)
       (filter (fun i => signal_id (get_signal_def s i) = i) (seqZ 0 JLS_SIGNAL_COUNT))).

(** *** Seeking and reading samples *)

(** the offsets of the FSR track head, and the highest level that has
    one: [(level, offset)], or [(-1, 0)] when all are zero *)
Definition fsr_offsets (s : jls_rd_s) (id : Z) : list Z :=
  default (repeat 0 8) (track_head_data (get_signal s id) !! JLS_TRACK_TYPE_FSR).

Fixpoint top_level (offsets : list Z) (n : nat) : Z * Z :=
  match n with
  | O => (-1, 0)
  | S n' => let o := nth n' offsets 0 in
            if negb (o =? 0) then (Z.of_nat n', o) else top_level offsets n'
  end.

(** [step_size] of [seek] at level [lvl]: [samples_per_data] times
    [entries_per_summary], [lvl - 1] times, in [int64_t] *)
Fixpoint step_mul (k : nat) (step entries : Z) : Z :=
  match k with
  | O => step
  | S k' => step_mul k' (i64 (step * entries)) entries
  end.
Definition step_size (d : jls_signal_def_s) (lvl : Z) : Z :=
  step_mul (Z.to_nat (lvl - 1)) (samples_per_data d) (entries_per_summary d).

(** the index [seek] computes in an index chunk; C division truncates *)
Definition seek_idx (sample_id chunk_timestamp step : Z) : Z :=
  Z.quot (i64 (sample_id - chunk_timestamp)) step.

(** one round of the descent of [seek], at level [lvl] and chunk
    [offset]: the next offset *)
Definition seek_round (d : jls_signal_def_s) (lvl offset sample_id : Z) : R (jls_ec * Z) :=
  let step := step_size d lvl in
  LET rc <- raw_seek offset ;;
  if negb (is_ok rc) then ret (rc, offset) else
  LET rc <- rd ;;
  if negb (is_ok rc) then ret (rc, offset) else
  LET s <- get_st ;;
  let p := payload s in
  match mem_i64 p 0, mem_i64 p 1 with
  | Some chunk_timestamp, Some chunk_entries =>
      if p_length p <? u64 ((2 + chunk_entries) * 8)
      then ret (JLS_ERROR_PARAMETER_INVALID, offset)
      else if step =? 0 then undefined
      else
        let idx := seek_idx sample_id chunk_timestamp step in
        match mem_i64 p (2 + idx) with
        | None => undefined
        | Some next => ret (JLS_SUCCESS, next)
        end
  | _, _ => undefined
  end.

(** the descent: at most 7 rounds, from a level below 8 down to a level
    that is not negative *)
Fixpoint seek_descend (n : nat) (d : jls_signal_def_s) (lvl level offset sample_id : Z)
  : R (jls_ec * Z) :=
  if lvl <=? level then ret (JLS_SUCCESS, offset)
  else match n with
  | O => undefined
  | S n' =>
      LET r <- seek_round d lvl offset sample_id ;;
      if is_ok (fst r) then seek_descend n' d (lvl - 1) level (snd r) sample_id
      else ret r
  end.

(** [signal_def[signal_id]] is indexed with the unmasked id *)
Definition seek (id level sample_id : Z) : R jls_ec :=
  LET s <- get_st ;;
  if negb (is_signal_defined id s) then ret JLS_ERROR_NOT_FOUND
  else if JLS_SIGNAL_COUNT <=? id then undefined
  else
    let d := get_signal_def s id in
    if negb (signal_type d =? JLS_SIGNAL_TYPE_FSR) then ret JLS_ERROR_NOT_SUPPORTED
    else
      let '(initial_level, offset) := top_level (fsr_offsets s id) 8 in
      if offset =? 0 then ret JLS_ERROR_NOT_FOUND
      else
        LET r <- seek_descend 8 d initial_level level offset sample_id ;;
        if is_ok (fst r) then raw_seek (snd r) else ret (fst r).

(** one round of the descent of [jls_rd_fsr_length]: the last entry *)
Definition length_round (offset : Z) : R (jls_ec * Z) :=
  LET rc <- raw_seek offset ;;
  if negb (is_ok rc) then ret (rc, offset) else
  LET rc <- rd ;;
  if negb (is_ok rc) then ret (rc, offset) else
  LET s <- get_st ;;
  let p := payload s in
  match mem_i64 p 1 with
  | None => undefined
  | Some entries =>
      if p_length p <? u64 ((2 + entries) * 8)
      then ret (JLS_ERROR_PARAMETER_INVALID, offset)
      else match mem_i64 p (2 + entries - 1) with
           | None => undefined
           | Some next => ret (JLS_SUCCESS, next)
           end
  end.

Fixpoint length_descend (n : nat) (lvl offset : Z) : R (jls_ec * Z) :=
  if lvl <=? 0 then ret (JLS_SUCCESS, offset)
  else match n with
  | O => undefined
  | S n' =>
      LET r <- length_round offset ;;
      if is_ok (fst r) then length_descend n' (lvl - 1) (snd r) else ret r
  end.

(** [samples] is the value at the out-parameter before the call; the
    result carries its value after the call *)
Definition jls_rd_fsr_length (id samples : Z) : R (jls_ec * Z) :=
  LET s <- get_st ;;
  if negb (is_signal_defined id s) then ret (JLS_ERROR_NOT_FOUND, samples)
  else if JLS_SIGNAL_COUNT <=? id then undefined
  else
    let d := get_signal_def s id in
    if negb (signal_type d =? JLS_SIGNAL_TYPE_FSR) then ret (JLS_ERROR_NOT_SUPPORTED, samples)
    else
      let '(level, offset) := top_level (fsr_offsets s id) 8 in
      if offset =? 0 then ret (JLS_SUCCESS, 0)
      else
        LET r <- length_descend 8 level offset ;;
        if negb (is_ok (fst r)) then ret (fst r, samples) else
        LET rc <- raw_seek (snd r) ;;
        if negb (is_ok rc) then ret (rc, samples) else
        LET rc <- rd ;;
        if negb (is_ok rc) then ret (rc, samples) else
        LET s1 <- get_st ;;
        match mem_i64 (payload s1) 0, mem_i64 (payload s1) 1 with
        | Some a, Some b => ret (JLS_SUCCESS, i64 (a + b))
        | _, _ => undefined
        end.

(** [count] samples of 4 bytes from the byte at distance [i] on *)
Fixpoint mem_f32s (p : payload_s) (i : Z) (count : nat) : option (list Z) :=
  match count with
  | O => Some []
  | S n => match mem_bytes p i 4, mem_f32s p (i + 4) n with
           | Some bs, Some vs => Some (le_value bs :: vs)
           | _, _ => None
           end
  end.

(** The loop of [jls_rd_fsr_f32]; [out] is what has been copied to
    [data] so far.  A chunk that gives no sample leaves [data_length] as
    it is: [fuel] bounds the number of chunks read. *)
Fixpoint rd_fsr_f32_loop (fuel : nat) (start_sample_id : Z) (out : list Z) (data_length : Z)
  : R (jls_ec * list Z) :=
  if data_length <=? 0 then ret (JLS_SUCCESS, out)
  else match fuel with
  | O => undefined
  | S fuel' =>
    LET rc <- rd ;;
    if negb (is_ok rc) then ret (rc, out) else
    LET s <- get_st ;;
    let p := payload s in
    match mem_i64 p 0, mem_i64 p 1 with
    | Some chunk_sample_id, Some chunk_sample_count =>
        let idx_start := if chunk_sample_id <? start_sample_id
                         then i64 (start_sample_id - chunk_sample_id) else 0 in
        let count := i64 (chunk_sample_count - idx_start) in
        let count := if data_length <? count then data_length else count in
        if count <? 0 then undefined
        else match mem_f32s p (16 + 4 * idx_start) (Z.to_nat count) with
             | None => undefined
             | Some fs => rd_fsr_f32_loop fuel' start_sample_id (out ++ fs) (data_length - count)
             end
    | _, _ => undefined
    end
  end.

Definition jls_rd_fsr_f32 (fuel : nat) (id start_sample_id data_length : Z)
  : R (jls_ec * list Z) :=
  LET rc <- seek id 0 start_sample_id ;;
  if negb (is_ok rc) then ret (rc, [])
  else rd_fsr_f32_loop fuel start_sample_id [] data_length.

End Reader.

(** ** Calls, reachable writers, logical lists *)

Module Trace.
Import Format Raw Writer.
Local Open Scope c_scope.

(** a call of the writer's interface after [jls_wr_open] *)
Inductive wr_call :=
  | CallSourceDef (source : jls_source_def_s)
  | CallSignalDef (signal : jls_signal_def_s)
  | CallUserData (chunk_meta storage_type : Z) (data : option (list Z)) (data_size : Z)
  | CallFsrF32 (id sample_id : Z) (data : list Z) (data_length : Z)
  | CallFsrAnnotation (id sample_id annotation_type storage_type : Z)
      (data : option (list Z)) (data_size : Z)
  | CallFsrUtc (id sample_id utc : Z)
  | CallVsrAnnotation (id timestamp annotation_type storage_type : Z)
      (data : option (list Z)) (data_size : Z).

Definition wr_exec (c : wr_call) : W jls_ec :=
  match c with
  | CallSourceDef source => jls_wr_source_def source
  | CallSignalDef signal => jls_wr_signal_def signal
  | CallUserData m st d n => jls_wr_user_data m st d n
  | CallFsrF32 id sample_id d n => jls_wr_fsr_f32 id sample_id d n
  | CallFsrAnnotation id t a st d n => jls_wr_fsr_annotation id t a st d n
  | CallFsrUtc id t utc => jls_wr_fsr_utc id t utc
  | CallVsrAnnotation id t a st d n => jls_wr_vsr_annotation id t a st d n
  end.

(** the arguments are values of their C types; a signal id is a
    [uint16_t], a size or a length a [uint32_t] *)
Definition wr_call_wf (c : wr_call) : Prop :=
  match c with
  | CallSourceDef source => 0 <= src_source_id source < 2^16
  | CallSignalDef signal =>
      0 <= signal_id signal < 2^16 /\ 0 <= source_id signal < 2^16
      /\ 0 <= summary_decimate_factor signal < 2^32
      /\ 0 <= entries_per_summary signal < 2^32
  | CallUserData m st d n => 0 <= n < 2^32
  | CallFsrF32 id sample_id d n => 0 <= id < 2^16 /\ 0 <= n < 2^32
  | CallFsrAnnotation id t a st d n => 0 <= id < 2^16 /\ 0 <= n < 2^32
  | CallFsrUtc id t utc => 0 <= id < 2^16
  | CallVsrAnnotation id t a st d n => 0 <= id < 2^16 /\ 0 <= n < 2^32
  end.

(** the writers a program can hold: opened with success, then any calls,
    whatever they return.  [defs] lists the source ids of the source
    definitions that returned success, with the id 0 of [jls_wr_open].
    A call without a defined result leaves no writer behind: a call of
    [jls_wr_fsr_f32] that carries samples is one. *)
Inductive reachable : list Z -> jls_wr_s -> Prop :=
  | reach_open after s :
      jls_wr_open after = Some (JLS_SUCCESS, s) -> reachable [0] s
  | reach_call defs s c rc s' :
      reachable defs s -> wr_call_wf c -> wr_exec c s = Some (rc, s') ->
      reachable (match c, rc with
                 | CallSourceDef source, JLS_SUCCESS => src_source_id source :: defs
                 | _, _ => defs
                 end) s'.

(** the logical list a chunk belongs to, by its tag: section 3 of the
    spec *)
Inductive chunk_list :=
  | SourceList
  | SignalList
  | UserDataList
  | TrackList (signal : Z) (tag : Z).

#[global] Instance chunk_list_eq_dec : EqDecision chunk_list.
Proof. solve_decision. Defined.

Definition list_of (h : jls_chunk_header_s) : chunk_list :=
  if tag h =? JLS_TAG_SOURCE_DEF then SourceList
  else if tag h =? JLS_TAG_USER_DATA then UserDataList
  else if (tag h =? JLS_TAG_SIGNAL_DEF)
          || (Z.land (tag h) 7 =? JLS_TRACK_CHUNK_DEF)
          || (Z.land (tag h) 7 =? JLS_TRACK_CHUNK_HEAD) then SignalList
  else TrackList (Z.land (chunk_meta h) 0x0fff) (tag h).

(** the places where the writer keeps a most recently added chunk *)
Inductive mra_loc :=
  | MraSource
  | MraSignal
  | MraUserData
  | MraData (id ty : Z).

#[global] Instance mra_loc_eq_dec : EqDecision mra_loc.
Proof. solve_decision. Defined.

Definition mra_get (l : mra_loc) (s : jls_wr_s) : chunk_s :=
  match l with
  | MraSource => source_mra s
  | MraSignal => signal_mra s
  | MraUserData => user_data_mra s
  | MraData id ty => data_mra id ty s
  end.

Definition mra_set (l : mra_loc) (c : chunk_s) (s : jls_wr_s) : jls_wr_s :=
  match l with
  | MraSource => set_source_mra c s
  | MraSignal => set_signal_mra c s
  | MraUserData => set_user_data_mra c s
  | MraData id ty => set_data_mra id ty c s
  end.

(** the list a place is for: the data chunks of track [ty] of a signal
    carry the data tag of that track *)
Definition mra_list (l : mra_loc) : chunk_list :=
  match l with
  | MraSource => SourceList
  | MraSignal => SignalList
  | MraUserData => UserDataList
  | MraData id ty => TrackList id (track_tag ty JLS_TRACK_CHUNK_DATA)
  end.

(** the places the writer appends to: of [tracks], the slots 2 and 3,
    which take the annotation and the UTC chunks.  [jls_wr_fsr_f32]
    appends through [tracks[info->track_type]], which is no slot of
    [tracks]. *)
Definition mra_used (l : mra_loc) : Prop :=
  match l with
  | MraData id ty =>
      0 <= id < JLS_SIGNAL_COUNT
      /\ (ty = JLS_TRACK_TYPE_ANNOTATION \/ ty = JLS_TRACK_TYPE_UTC)
  | _ => True
  end.

(** the doubly-linked-list property of a file: a forward link leads to a
    chunk of the same list whose backward link comes back *)
Definition links_ok (f : gmap Z raw_chunk) : Prop :=
  forall o c, f !! o = Some c -> item_next (rc_hdr c) <> 0 ->
    exists c', f !! item_next (rc_hdr c) = Some c'
               /\ item_prev (rc_hdr c') = o
               /\ list_of (rc_hdr c') = list_of (rc_hdr c).

(** what the writer keeps true between calls *)
Record wr_inv (s : jls_wr_s) : Prop := mk_wr_inv {
  inv_pos : 0 < fpos (raw s);
  inv_below : forall o c, chunks (raw s) !! o = Some c -> 0 < o < fpos (raw s);
  inv_links : links_ok (chunks (raw s));
  inv_mra : forall l, mra_used l -> offset (mra_get l s) <> 0 ->
      exists c, chunks (raw s) !! offset (mra_get l s) = Some c
                /\ rc_hdr c = hdr (mra_get l s)
                /\ item_next (rc_hdr c) = 0
                /\ list_of (rc_hdr c) = mra_list l;
  inv_tracks : forall id ty, offset (chunk_def (get_info s id)) = 0 ->
      offset (def (get_track (get_info s id) ty)) = 0
      /\ offset (head (get_track (get_info s id) ty)) = 0;
  inv_tags : forall id, offset (chunk_def (get_info s id)) <> 0 ->
      data_tag (get_info s id) = track_type (get_info s id)
      /\ (signal_type (signal_def (get_info s id)) = JLS_SIGNAL_TYPE_FSR
          /\ track_type (get_info s id) = JLS_TAG_TRACK_FSR_DATA
          \/ signal_type (signal_def (get_info s id)) = JLS_SIGNAL_TYPE_VSR
             /\ track_type (get_info s id) = JLS_TAG_TRACK_VSR_DATA);
  inv_buffer : forall id, offset (chunk_def (get_info s id)) <> 0 ->
      exists b, sample_buffer (get_info s id) = Some b
                /\ 0 <= sb_offset b <= sb_length b /\ sb_length b < 2^32
                /\ zlen (sb_data b) = sb_offset b
}.


(** *** Properties of computations *)

(** a computation that leaves [P] as it was *)
Definition preserves {X A} (P : jls_wr_s -> X) (m : W A) : Prop :=
  forall s a s', m s = Some (a, s') -> P s' = P s.

(** the stored definition of a signal *)
Definition stored_def (id : Z) (s : jls_wr_s) : jls_signal_def_s := signal_def (get_info s id).

(** the definition chunk and the stored definition of a signal *)
Definition sig_slot (id : Z) (s : jls_wr_s) : chunk_s * jls_signal_def_s :=
  (chunk_def (get_info s id), signal_def (get_info s id)).

(** the parts of the signal table other than the most recently added
    data chunks *)
Record same_info (s s' : jls_wr_s) : Prop := mk_same_info {
  si_chunk_def : forall i, chunk_def (get_info s' i) = chunk_def (get_info s i);
  si_signal_def : forall i, signal_def (get_info s' i) = signal_def (get_info s i);
  si_buffer : forall i, sample_buffer (get_info s' i) = sample_buffer (get_info s i);
  si_data_tag : forall i, data_tag (get_info s' i) = data_tag (get_info s i);
  si_track_type : forall i, track_type (get_info s' i) = track_type (get_info s i);
  si_def : forall i ty, def (get_track (get_info s' i) ty) = def (get_track (get_info s i) ty);
  si_head : forall i ty,
      head (get_track (get_info s' i) ty) = head (get_track (get_info s i) ty)
}.

(** a computation that changes the scratch buffer only *)
Definition buf_only {A} (m : W A) : Prop :=
  forall s a s', m s = Some (a, s') -> exists b, s' = set_buf b s.

(** a call that keeps the invariant and never moves the end of the file
    back *)
Definition keeps_inv (m : W jls_ec) : Prop :=
  forall s rc s', wr_inv s -> m s = Some (rc, s') ->
    wr_inv s' /\ fpos (raw s) <= fpos (raw s').

End Trace.

(** ** A small session *)

Module Session.
Import Format Raw.
Local Open Scope c_scope.

(** a source and an FSR signal as a caller defines them; the strings are
    not empty and the factors are the least the writer accepts, so the
    sample buffer takes 10 * 1000 samples *)
Definition source_1 : jls_source_def_s :=
  mk_source 1 (lit "performance"%string) (lit "jls"%string) (lit "m"%string)
    (lit "v"%string) (lit "n"%string).

Definition signal_1 : jls_signal_def_s :=
  mk_signal 1 1 JLS_SIGNAL_TYPE_FSR JLS_DATATYPE_F32 1000000
    1000 10 1000 10 0 (lit "performance_1"%string) (lit "A"%string).

(** a VSR signal on the same source *)
Definition signal_2 : jls_signal_def_s :=
  mk_signal 2 1 JLS_SIGNAL_TYPE_VSR JLS_DATATYPE_F32 0
    1000 10 1000 10 0 (lit "events"%string) (lit "V"%string).

(** [n] samples: the bit patterns 0, 1, 2, ... *)
Fixpoint ramp_from (x : Z) (n : nat) : list Z :=
  match n with
  | O => []
  | S n' => x :: ramp_from (x + 1) n'
  end.
Definition ramp (n : Z) : list Z := ramp_from 0 (Z.to_nat n).

(** open, with one more terminator after the empty [si_units] literal of
    signal 0, then the two definitions *)
Definition wr_defined : option (jls_ec * Writer.jls_wr_s) :=
  match Writer.jls_wr_open [0] with
  | Some (JLS_SUCCESS, s) =>
      (ROE Writer.jls_wr_source_def source_1 ;;
       ROE Writer.jls_wr_signal_def signal_1 ;;
       ROE Writer.jls_wr_signal_def signal_2 ;;
       ret JLS_SUCCESS) s
  | r => r
  end.

(** ... then [n] samples in one call, then close: the file *)
Definition wr_file (n : Z) : option (gmap Z raw_chunk) :=
  match wr_defined with
  | Some (JLS_SUCCESS, s) =>
      match Writer.jls_wr_fsr_f32 1 0 (ramp n) n s with
      | Some (JLS_SUCCESS, s') => Some (snd (Writer.jls_wr_close s'))
      | _ => None
      end
  | _ => None
  end.

(** the reader opened on that file *)
Definition rd_file (n : Z) : option (jls_ec * Reader.jls_rd_s) :=
  match wr_file n with
  | Some f => Reader.jls_rd_open 64 f
  | None => None
  end.

(** A file with one FSR signal, id 1, whose FSR track has a level-1
    index chunk of one entry over one data chunk of 10 samples; the
    signal definition is laid out as reader.c parses it.  Offsets:
    user data 32, source 68, signal 183, track head 323, index 423,
    data 483. *)
Definition str_bytes (s : String.string) : list Z := bytes_of_string s ++ [0; 0x1f].

Definition index_file : gmap Z raw_chunk :=
  let source_payload :=
    repeat 0 64 ++ str_bytes "s" ++ str_bytes "s" ++ str_bytes "s" ++ str_bytes "s"
      ++ str_bytes "s" in
  let signal_payload :=
    le_bytes 2 0 ++ [JLS_SIGNAL_TYPE_FSR; 0] ++ le_bytes 4 JLS_DATATYPE_F32
      ++ le_bytes 4 1000 (* sample_rate *) ++ le_bytes 4 10 (* samples_per_data *)
      ++ le_bytes 4 10 ++ le_bytes 4 1000 (* entries_per_summary *)
      ++ le_bytes 4 10 ++ le_bytes 4 0 ++ repeat 0 64
      ++ str_bytes "sig" ++ str_bytes "A" in
  let head_payload := flat_map (le_bytes 8) [0; 423; 0; 0; 0; 0; 0; 0] in
  let index_payload := flat_map (le_bytes 8) [0 (* timestamp *); 1 (* entries *); 483] in
  let data_payload := flat_map (le_bytes 8) [0; 10] ++ flat_map (le_bytes 4) (ramp 10) in
  list_to_map
    [(32, mk_raw_chunk (mk_hdr 0 0 JLS_TAG_USER_DATA 0 0 0 0) []);
     (68, mk_raw_chunk (mk_hdr 0 0 JLS_TAG_SOURCE_DEF 0 0 79 0) source_payload);
     (183, mk_raw_chunk (mk_hdr 323 0 JLS_TAG_SIGNAL_DEF 0 1 104 79) signal_payload);
     (323, mk_raw_chunk (mk_hdr 0 183 (track_tag JLS_TRACK_TYPE_FSR JLS_TRACK_CHUNK_HEAD)
                           0 1 64 104) head_payload);
     (423, mk_raw_chunk (mk_hdr 0 0 JLS_TAG_TRACK_FSR_INDEX 0 (Z.lor 1 (Z.shiftl 1 12))
                           24 64) index_payload);
     (483, mk_raw_chunk (mk_hdr 0 0 JLS_TAG_TRACK_FSR_DATA 0 1 56 24) data_payload)].

(** the result of a call on the reader with the position it leaves the
    raw layer at *)
Definition rc_pos (r : option (jls_ec * Reader.jls_rd_s)) : option (jls_ec * Z) :=
  option_map (fun x => (fst x, fpos (Reader.raw (snd x)))) r.

(** the writer right after open *)
Definition wr_opened : Writer.jls_wr_s :=
  match Writer.jls_wr_open [0] with
  | Some (_, s) => s
  | None => Writer.wr_init
  end.

(** a signal with factors below the minima *)
Definition signal_low : jls_signal_def_s :=
  mk_signal 3 0 JLS_SIGNAL_TYPE_FSR JLS_DATATYPE_F32 1000
    0 0 5 3 0 (lit "low"%string) (lit "V"%string).

Definition wr_low : Writer.jls_wr_s :=
  match Writer.jls_wr_signal_def signal_low wr_opened with
  | Some (_, s) => s
  | None => wr_opened
  end.

End Session.

(** ** Reading back what the writer's buffer functions wrote *)

Module Codec.
Import Format Raw.

(** the bytes [bs] are the next bytes of the reader's payload *)
Definition at_cursor (r : Reader.jls_rd_s) (bs : list Z) : Prop :=
  exists pre post,
    Reader.p_mem (Reader.payload r) = pre ++ bs ++ post
    /\ Reader.p_cur (Reader.payload r) = zlen pre
    /\ zlen pre + zlen bs <= Reader.p_length (Reader.payload r)
    /\ Reader.p_length (Reader.payload r) <= Reader.alloc_size (Reader.payload r).

(** [r'] with the cursor [n] bytes past the cursor of [r] *)
Definition cursor_past (n : Z) (r r' : Reader.jls_rd_s) : Reader.jls_rd_s :=
  Reader.set_payload
    (Reader.set_p_cur (Reader.p_cur (Reader.payload r) + n) (Reader.payload r')) r'.

(** [r] after a string of [n] characters has gone from the payload to
    the string buffer: the terminator is copied too, and the 0x1F after
    it is skipped *)
Definition str_parsed (n : Z) (r : Reader.jls_rd_s) : Reader.jls_rd_s :=
  Reader.set_strings_cur (Reader.strings_cur r + n + 1)
    (Reader.set_payload
       (Reader.set_p_cur (Reader.p_cur (Reader.payload r) + n + 2) (Reader.payload r)) r).

(** the three integer writers of writer.c and the parsers of reader.c
    that go with them *)
Inductive uint_kind := U8 | U16 | U32.

Definition uint_width (k : uint_kind) : nat :=
  match k with U8 => 1 | U16 => 2 | U32 => 4 end%nat.

Definition buf_wr_uint (k : uint_kind) : Z -> Writer.W jls_ec :=
  match k with
  | U8 => Writer.buf_wr_u8
  | U16 => Writer.buf_wr_u16
  | U32 => Writer.buf_wr_u32
  end.

Definition payload_parse_uint_of (k : uint_kind)
  : (Z -> Reader.jls_rd_s -> Reader.jls_rd_s) -> Reader.R jls_ec :=
  match k with
  | U8 => Reader.payload_parse_u8
  | U16 => Reader.payload_parse_u16
  | U32 => Reader.payload_parse_u32
  end.

(** a writer with nothing in it, for the functions that only touch the
    scratch buffer *)
Definition wr_blank : Writer.jls_wr_s :=
  Writer.mk_wr jls_raw_open_w [] ∅ Writer.chunk0 ∅ Writer.chunk0 Writer.chunk0 0.

(** a reader whose payload holds [bytes], with the cursor at the start *)
Definition rd_with (bytes : list Z) : Reader.jls_rd_s :=
  Reader.mk_rd (jls_raw_open_r ∅) ∅ ∅ ∅ Reader.chunk0
    (Reader.mk_payload bytes 0 (zlen bytes) (zlen bytes)) 0
    Reader.chunk0 Reader.chunk0 Reader.chunk0 Reader.chunk0.

(** a file of one user-data chunk of three bytes, and a reader at it
    whose payload allocation has room for two *)
Definition chunk_abc : raw_chunk :=
  mk_raw_chunk (mk_hdr 0 0 JLS_TAG_USER_DATA 0 (Z.lor 5 (Z.shiftl JLS_STORAGE_TYPE_BINARY 12)) 3 0)
    [97; 98; 99].
Definition rd_small : Reader.jls_rd_s :=
  Reader.mk_rd (jls_raw_open_r (<[FILE_HEADER_SIZE := chunk_abc]> ∅)) ∅ ∅ ∅ Reader.chunk0
    (Reader.mk_payload [] 0 0 2) 0
    Reader.chunk0 Reader.chunk0 Reader.chunk0 Reader.chunk0.

(** the reader [r] after [rd] has read the chunk [c] at its position
    into a payload allocation of [alloc] bytes *)
Definition rd_done (c : raw_chunk) (alloc : Z) (r : Reader.jls_rd_s) : Reader.jls_rd_s :=
  Reader.set_raw
    (mk_raw (chunks (Reader.raw r))
       (fpos (Reader.raw r) + chunk_size (payload_length (rc_hdr c))))
    (Reader.set_chunk_cur (Reader.mk_chunk (rc_hdr c) (fpos (Reader.raw r)))
       (Reader.set_payload
          (Reader.mk_payload
             (rc_payload c ++ skipn (length (rc_payload c)) (Reader.p_mem (Reader.payload r)))
             0 (payload_length (rc_hdr c)) alloc) r)).

End Codec.

(** ** The reader's user data, [src/reader.c] *)

Module UserData.
Import Format Raw Reader.
Local Open Scope c_scope.

(** [struct jls_rd_user_data_s]: [data] points to [payload.start], so it
    is what the payload allocation holds; the first [data_size] bytes of it
    are the user data *)
Record jls_rd_user_data_s := mk_user_data {
  ud_chunk_meta : Z;
  ud_storage_type : Z;
  ud_data : list Z;
  ud_data_size : Z
}.

(** [user_data] is the caller's structure: it comes back as it was
    unless the function gets to fill it *)
Definition rd_user_data (user_data : jls_rd_user_data_s) : R (jls_ec * jls_rd_user_data_s) :=
  LET rc <- rd ;;
  if negb (is_ok rc) then ret (rc, user_data)
  else
    LET s <- get_st ;;
    let h := hdr (chunk_cur s) in
    if negb (tag h =? JLS_TAG_USER_DATA) then ret (JLS_ERROR_NOT_FOUND, user_data)
    else
      let storage_type := u8 (Z.land (Z.shiftr (chunk_meta h) 12) 0x0f) in
      if (storage_type =? JLS_STORAGE_TYPE_BINARY)
         || (storage_type =? JLS_STORAGE_TYPE_STRING)
         || (storage_type =? JLS_STORAGE_TYPE_JSON)
      then
        let user_data := mk_user_data (Z.land (chunk_meta h) 0x0fff) storage_type
                           (p_mem (payload s)) (payload_length h) in
        DO modify (set_user_data_cur (chunk_cur s)) ;;
        ret (JLS_SUCCESS, user_data)
      else ret (JLS_ERROR_PARAMETER_INVALID, user_data).

Definition jls_rd_user_data_reset : R jls_ec :=
  DO modify (fun s => set_user_data_cur (user_data_head s) s) ;;
  ret JLS_SUCCESS.

Definition jls_rd_user_data_next (user_data : jls_rd_user_data_s)
  : R (jls_ec * jls_rd_user_data_s) :=
  LET s <- get_st ;;
  if (offset (user_data_cur s) =? 0) || (item_next (hdr (user_data_cur s)) =? 0)
  then ret (JLS_ERROR_EMPTY, user_data)
  else
    LET rc <- raw_seek (item_next (hdr (user_data_cur s))) ;;
    if negb (is_ok rc) then ret (rc, user_data)
    else rd_user_data user_data.

Definition jls_rd_user_data_prev (user_data : jls_rd_user_data_s)
  : R (jls_ec * jls_rd_user_data_s) :=
  LET s <- get_st ;;
  if (offset (user_data_cur s) <=? 0) || (item_prev (hdr (user_data_cur s)) =? 0)
  then ret (JLS_ERROR_EMPTY, user_data)
  else if item_prev (hdr (user_data_cur s)) =? u64 (offset (user_data_head s)) then
    DO jls_rd_user_data_reset ;;
    ret (JLS_ERROR_EMPTY, user_data)
  else
    LET rc <- raw_seek (item_prev (hdr (user_data_cur s))) ;;
    if negb (is_ok rc) then ret (rc, user_data)
    else rd_user_data user_data.

End UserData.

(** ** More sessions *)

Module Session2.
Import Format Raw.

(** the writer after open and the definition of source 1 *)
Definition wr_src1 : Writer.jls_wr_s :=
  match Writer.jls_wr_source_def Session.source_1 Session.wr_opened with
  | Some (_, s) => s
  | None => Writer.wr_init
  end.

(** ... and after the definitions of the FSR signal 1 and the VSR
    signal 2 *)
Definition wr_sig1 : Writer.jls_wr_s :=
  match Writer.jls_wr_signal_def Session.signal_1 wr_src1 with
  | Some (_, s) => s
  | None => Writer.wr_init
  end.

Definition wr_sig2 : Writer.jls_wr_s :=
  match Writer.jls_wr_signal_def Session.signal_2 wr_sig1 with
  | Some (_, s) => s
  | None => Writer.wr_init
  end.

(** a definition with a data type the writer does not support *)
Definition signal_u8 : jls_signal_def_s :=
  mk_signal 3 1 JLS_SIGNAL_TYPE_FSR (JLS_DATATYPE_F32 + 1) 1000
    1000 10 1000 10 0 (lit "bytes"%string) (lit "B"%string).

Definition wr_refused : Writer.jls_wr_s :=
  match Writer.jls_wr_signal_def signal_u8 wr_src1 with
  | Some (_, s) => s
  | None => Writer.wr_init
  end.

(** the writer of the session with [track_type] of signal 1 set to the
    index of its FSR track, [JLS_TRACK_TYPE_FSR], where
    [jls_wr_signal_def] has left the data tag; the three tags as they
    are *)
Definition wr_indexed : Writer.jls_wr_s :=
  Writer.set_info 1
    (Writer.set_tags JLS_TAG_TRACK_FSR_DATA JLS_TAG_TRACK_FSR_SUMMARY
       JLS_TAG_TRACK_FSR_INDEX JLS_TRACK_TYPE_FSR (Writer.get_info wr_sig2 1))
    wr_sig2.

(** ... [n] samples written to it in one call, the file closed, and the
    reader opened on the file *)
Definition rd_indexed (n : Z) : option (jls_ec * Reader.jls_rd_s) :=
  match Writer.jls_wr_fsr_f32 1 0 (Session.ramp n) n wr_indexed with
  | Some (JLS_SUCCESS, s') => Reader.jls_rd_open 64 (snd (Writer.jls_wr_close s'))
  | _ => None
  end.

(** a signal with a name of 57 characters, and the writer after its
    definition and that of the VSR signal 2 *)
Definition signal_10 : jls_signal_def_s :=
  mk_signal 10 1 JLS_SIGNAL_TYPE_FSR JLS_DATATYPE_F32 1000
    1000 10 1000 10 0
    (lit "aaaaaaaaaaaaaaaaaaaaaaaaaaaaaaaaaaaaaaaaaaaaaaaaaaaaaaaaa"%string)
    (lit "A"%string).

Definition wr_sig10 : Writer.jls_wr_s :=
  match Writer.jls_wr_signal_def signal_10 wr_src1 with
  | Some (_, s) => s
  | None => Writer.wr_init
  end.

Definition wr_sig10_2 : Writer.jls_wr_s :=
  match Writer.jls_wr_signal_def Session.signal_2 wr_sig10 with
  | Some (_, s) => s
  | None => Writer.wr_init
  end.

(** the VSR signal with the last id, and the writer after its definition *)
Definition signal_255 : jls_signal_def_s :=
  mk_signal 255 1 JLS_SIGNAL_TYPE_VSR JLS_DATATYPE_F32 0
    1000 10 1000 10 0 (lit "last"%string) (lit "V"%string).

Definition wr_sig255 : Writer.jls_wr_s :=
  match Writer.jls_wr_signal_def signal_255 wr_src1 with
  | Some (_, s) => s
  | None => Writer.wr_init
  end.

(** a file of one index chunk with two entries, and a reader of it *)
Definition chunk_index : raw_chunk :=
  mk_raw_chunk (mk_hdr 0 0 JLS_TAG_TRACK_FSR_INDEX 0 (Z.lor 1 (Z.shiftl 1 12)) 32 0)
    (flat_map (le_bytes 8) [0; 2; 100; 200]).

Definition rd_index : Reader.jls_rd_s :=
  Reader.rd_init (<[FILE_HEADER_SIZE := chunk_index]> ∅).

End Session2.

(** ** Walking the user data *)

Module UserWalk.
Import Format Raw.

(** a chunk whose storage type [rd_user_data] accepts *)
Definition ud_storage_ok (c : raw_chunk) : Prop :=
  let st := u8 (Z.land (Z.shiftr (chunk_meta (rc_hdr c)) 12) 0x0f) in
  payload_length (rc_hdr c) < 2 ^ 64
  /\ (st = JLS_STORAGE_TYPE_BINARY \/ st = JLS_STORAGE_TYPE_STRING
      \/ st = JLS_STORAGE_TYPE_JSON).

(** the writer after open and two user-data chunks *)
Definition wr_ud1 : Writer.jls_wr_s :=
  match Writer.jls_wr_user_data 5 JLS_STORAGE_TYPE_BINARY (Some [97; 98; 99]) 3
          Session.wr_opened with
  | Some (_, s) => s
  | None => Writer.wr_init
  end.

Definition wr_ud2 : Writer.jls_wr_s :=
  match Writer.jls_wr_user_data 6 JLS_STORAGE_TYPE_STRING (Some [100; 101; 0]) 0 wr_ud1 with
  | Some (_, s) => s
  | None => Writer.wr_init
  end.

Definition chunk_at (s : Writer.jls_wr_s) (o : Z) : raw_chunk :=
  default (mk_raw_chunk hdr0 []) (chunks (Writer.raw s) !! o).

(** a reader of that file whose current user-data chunk is the first of
    the two; the head of the list is the chunk written at open *)
Definition rd_at_ud1 : Reader.jls_rd_s :=
  let o := fpos (Writer.raw Session.wr_opened) in
  Reader.mk_rd (mk_raw (chunks (Writer.raw wr_ud2)) 0) ∅ ∅ ∅ Reader.chunk0
    (Reader.mk_payload [] 0 0 1) 0
    Reader.chunk0 Reader.chunk0
    (Reader.mk_chunk (rc_hdr (chunk_at wr_ud2 FILE_HEADER_SIZE)) FILE_HEADER_SIZE)
    (Reader.mk_chunk (rc_hdr (chunk_at wr_ud2 o)) o).

End UserWalk.

(** ** Calls that fail *)

Module Outcome.
Import Format Raw Writer.

(** a computation that can only return success *)
Definition succeeds (m : W jls_ec) : Prop :=
  forall s rc s', m s = Some (rc, s') -> rc = JLS_SUCCESS.

(** a computation that has left [P] as it was when it returns an error *)
Definition fails_keeps {X} (P : jls_wr_s -> X) (m : W jls_ec) : Prop :=
  forall s rc s', m s = Some (rc, s') -> rc = JLS_SUCCESS \/ P s' = P s.

(** the offset of the definition chunk of a signal: zero until the
    signal is defined *)
Definition def_offset (id : Z) (s : jls_wr_s) : Z := offset (chunk_def (get_info s id)).

End Outcome.

(** ** The example program, [example/performance.c] *)

Module Performance.
Import Format.

(** [_isspace]: the callers pass [(uint8_t) *src], which comes back as
    the same [char] *)
Definition _isspace (c : Z) : bool := (c =? 32) || ((9 <=? c) && (c <=? 13)).

(** The three loops of [cstr_to_i64] on the bytes readable at [src];
    [None] when a loop reads past them.  The first skips the leading
    spaces. *)
Fixpoint skip_spaces (src : list Z) : option (list Z) :=
  match src with
  | [] => None
  | c :: src' => if negb (c =? 0) && _isspace c then skip_spaces src' else Some src
  end.

(** the digits: [v] is a [uint32_t] *)
Fixpoint digits (src : list Z) (v : Z) : option (list Z * Z) :=
  match src with
  | [] => None
  | c :: src' =>
      if (48 <=? c) && (c <=? 57) then digits src' (u32 (v * 10 + (c - 48)))
      else Some (src, v)
  end.

(** the rest of the string: [true] when it is all spaces *)
Fixpoint trailing (src : list Z) : option bool :=
  match src with
  | [] => None
  | c :: src' =>
      if c =? 0 then Some true
      else if negb (_isspace c) then Some false
      else trailing src'
  end.

(** [cstr_to_i64]: the return value and [*value]; [value] is the old
    content of [*value], [None] for a null pointer *)
Definition cstr_to_i64 (src : option (list Z)) (value : option Z) : option (Z * option Z) :=
  match src, value with
  | Some m, Some _ =>
      match skip_spaces m with
      | None => None
      | Some [] => None
      | Some ((c :: _) as m1) =>
          if c =? 0 then Some (1, value)                  (* empty string *)
          else match digits m1 0 with
               | None => None
               | Some (m2, v) =>
                   match trailing m2 with
                   | None => None
                   | Some false => Some (1, value)        (* did not parse full string *)
                   | Some true => Some (0, Some v)
                   end
               end
      end
  | _, _ => Some (1, value)
  end.

(** [cstr_to_u32]: [*value] is written before [rv] is looked at *)
Definition cstr_to_u32 (src : option (list Z)) (value : option Z) : option (Z * option Z) :=
  match cstr_to_i64 src (Some 0) with
  | None => None
  | Some (rv, v) =>
      let v := default 0 v in
      if (v <? 0) || (Z.shiftl 1 32 <? v) then Some (1, value)
      else match value with
           | None => None
           | Some _ => Some (rv, Some (u32 v))
           end
  end.

(** the number a string of decimal digits stands for *)
Definition decimal (ds : list Z) : Z := fold_left (fun v c => v * 10 + (c - 48)) ds 0.

Definition is_digit (c : Z) : Prop := 48 <= c <= 57.

End Performance.
(** * Properties *)

Import Format Raw Writer Trace.
Local Open Scope c_scope.

(** ** The monad *)

Lemma bind_Some {S A B} (m : M S A) (k : A -> M S B) s r :
  bind m k s = Some r -> exists a s1, m s = Some (a, s1) /\ k a s1 = Some r.
Proof.
  unfold bind. destruct (m s) as [[a s1]|]; [|discriminate].
  intros H. exists a, s1. split; [reflexivity|exact H].
Qed.

Lemma bind_eq {S A B} (m : M S A) (k : A -> M S B) s a s1 :
  m s = Some (a, s1) -> bind m k s = k a s1.
Proof. intros H. unfold bind. rewrite H. reflexivity. Qed.

Lemma zlen_app {A} (l1 l2 : list A) : zlen (l1 ++ l2) = zlen l1 + zlen l2.
Proof. unfold zlen. rewrite length_app. lia. Qed.

Lemma zlen_nonneg {A} (l : list A) : 0 <= zlen l.
Proof. unfold zlen. lia. Qed.

(** ** Strings in the scratch buffer *)

Lemma BUFFER_SIZE_eq : BUFFER_SIZE = 1048576.
Proof. reflexivity. Qed.

Lemma buf_add_str_loop_cons c m b :
  buf_add_str_loop (c :: m) b =
    if zlen b <? BUFFER_SIZE - 2 then
      match m with
      | [] => None
      | d :: _ => if d =? 0 then Some (JLS_SUCCESS, (b ++ [c]) ++ [0; 0x1f])
                  else buf_add_str_loop m (b ++ [c])
      end
    else Some (JLS_ERROR_NOT_ENOUGH_MEMORY, b).
Proof. reflexivity. Qed.

(** a string that is not empty goes out as its characters and the two
    terminator bytes *)
Lemma buf_add_str_loop_chars (cs rest b : list Z) :
  cs <> [] -> Forall (fun c => c <> 0) cs ->
  zlen b + zlen cs + 2 <= BUFFER_SIZE ->
  buf_add_str_loop (cs ++ 0 :: rest) b = Some (JLS_SUCCESS, b ++ cs ++ [0; 0x1f]).
Proof.
  revert b. induction cs as [|c cs IH]; intros b Hne Hnz Hsz; [congruence|].
  rewrite <- app_comm_cons, buf_add_str_loop_cons.
  assert (Hlen : zlen (c :: cs) = 1 + zlen cs) by (unfold zlen; simpl length; lia).
  pose proof (zlen_nonneg cs) as Hcs.
  destruct (Z.ltb_spec (zlen b) (BUFFER_SIZE - 2)) as [_|Hge]; [|lia].
  inversion Hnz as [|? ? Hc Hcs']; subst.
  destruct cs as [|d cs'].
  - simpl. rewrite <- app_assoc. reflexivity.
  - simpl app at 1. inversion Hcs' as [|? ? Hd _]; subst.
    destruct (Z.eqb_spec d 0) as [->|_]; [congruence|].
    change (d :: cs' ++ 0 :: rest) with ((d :: cs') ++ 0 :: rest).
    rewrite IH; [|congruence|assumption|rewrite zlen_app; unfold zlen in *; simpl length in *; lia].
    rewrite <- app_assoc. reflexivity.
Qed.

(** every successful [buf_add_str] adds at least three bytes: one copied
    byte before the two terminator bytes *)
Lemma buf_add_str_loop_grows (m b b' : list Z) :
  buf_add_str_loop m b = Some (JLS_SUCCESS, b') -> zlen b + 3 <= zlen b'.
Proof.
  revert b. induction m as [|c m IH]; intros b H.
  - simpl in H. destruct (zlen b <? BUFFER_SIZE - 2); discriminate.
  - rewrite buf_add_str_loop_cons in H.
    destruct (zlen b <? BUFFER_SIZE - 2); [|discriminate].
    destruct m as [|d m']; [discriminate|].
    destruct (d =? 0).
    + injection H as <-. rewrite !zlen_app. unfold zlen. simpl. lia.
    + apply IH in H. rewrite zlen_app in H. unfold zlen in *. simpl in *. lia.
Qed.

(** C5, for the empty string: whatever follows the terminator of the
    empty string in memory, [buf_add_str] does not leave the scratch
    buffer extended by exactly 0x00 0x1F, the bytes the claim gives. *)
Theorem buf_add_str_empty_string (after : list Z) (s : jls_wr_s) :
  buf_add_str (Some (0 :: after)) s
    <> Some (JLS_SUCCESS, set_buf (buf s ++ [0; 0x1f]) s).
Proof.
  unfold buf_add_str. simpl default.
  destruct (buf_add_str_loop (0 :: after) (buf s)) as [[rc b']|] eqn:E; [|discriminate].
  intros H.
  assert (Hrc : rc = JLS_SUCCESS) by congruence. subst rc.
  assert (Hb : b' = buf s ++ [0; 0x1f]).
  { apply (f_equal (fun r => match r with Some (_, x) => buf x | None => [] end)) in H.
    exact H. }
  apply buf_add_str_loop_grows in E. subst b'.
  rewrite zlen_app in E. unfold zlen in E. simpl in E. lia.
Qed.

(** the empty string literal on its own: the byte after its terminator is
    read; followed by another terminator: three bytes go out *)
Example buf_add_str_empty_literal :
  buf_add_str (lit ""%string) wr_init = None
  /\ option_map (fun r => buf (snd r)) (buf_add_str (Some [0; 0]) wr_init)
     = Some [0; 0; 0x1f].
Proof. split; reflexivity. Qed.

(** ** User data *)

Lemma land_1 x : Z.land x 1 = x mod 2.
Proof. change 1 with (Z.ones 1). rewrite Z.land_ones by lia. reflexivity. Qed.

Lemma land_even_1 k : Z.land (2 * k) 1 = 0.
Proof. rewrite land_1, Z.mul_comm. apply Z.mod_mul. lia. Qed.

(** C8: with a null [data] and an even [data_size], 2 for one, the guard
    [data_size & !data] is not taken and the call does not come back with
    ParameterInvalid and the writer as it was: it goes on to write the
    chunk from the null pointer. *)
Theorem jls_wr_user_data_null_even (k chunk_meta : Z) (s : jls_wr_s) :
  user_data_guard None (2 * k) = false
  /\ jls_wr_user_data chunk_meta JLS_STORAGE_TYPE_BINARY None (2 * k) s
       <> Some (JLS_ERROR_PARAMETER_INVALID, s).
Proof.
  assert (G : user_data_guard None (2 * k) = false).
  { unfold user_data_guard. simpl is_null. rewrite land_even_1. reflexivity. }
  split; [exact G|].
  unfold jls_wr_user_data. rewrite G.
  change (JLS_STORAGE_TYPE_BINARY =? JLS_STORAGE_TYPE_INVALID) with false.
  change (JLS_STORAGE_TYPE_BINARY =? JLS_STORAGE_TYPE_BINARY) with true.
  cbv iota.
  unfold mem_read.
  destruct (2 * k =? 0).
  2:{ unfold bind, get_st, tell. simpl. discriminate. }
  unfold bind, get_st, tell, raw_wr, lift_raw, update_mra, modify, ret, bind, get_st. simpl.
  destruct (offset (user_data_mra s) =? 0); simpl; discriminate.
Qed.

(** the guard is taken for the odd sizes *)
Lemma user_data_guard_null_odd (k : Z) : user_data_guard None (2 * k + 1) = true.
Proof.
  unfold user_data_guard. simpl is_null. rewrite land_1.
  replace ((2 * k + 1) mod 2) with 1; [reflexivity|].
  rewrite Z.add_comm, Z.mul_comm, Z.mod_add by lia. reflexivity.
Qed.

Example jls_wr_user_data_null_2 :
  jls_wr_user_data 0 JLS_STORAGE_TYPE_BINARY None 2 wr_init = None.
Proof. reflexivity. Qed.

(** ** Properties kept by a computation *)


Section Preserves.
Context {X : Type} (P : jls_wr_s -> X).

Lemma preserves_ret {A} (a : A) : preserves P (ret a).
Proof. intros s a' s' H. injection H as _ <-. reflexivity. Qed.

Lemma preserves_undefined {A} : preserves P (@undefined jls_wr_s A).
Proof. intros s a s' H. discriminate. Qed.

Lemma preserves_get_st : preserves P get_st.
Proof. intros s a s' H. injection H as _ <-. reflexivity. Qed.

Lemma preserves_tell : preserves P tell.
Proof. intros s a s' H. injection H as _ <-. reflexivity. Qed.

Lemma preserves_buf_size : preserves P buf_size.
Proof. intros s a s' H. injection H as _ <-. reflexivity. Qed.

Lemma preserves_modify f : (forall s, P (f s) = P s) -> preserves P (modify f).
Proof. intros Hf s a s' H. injection H as _ <-. apply Hf. Qed.

Lemma preserves_bind {A B} (m : W A) (k : A -> W B) :
  preserves P m -> (forall a, preserves P (k a)) -> preserves P (bind m k).
Proof.
  intros Hm Hk s b s' H. apply bind_Some in H as (a & s1 & H1 & H2).
  rewrite (Hk _ _ _ _ H2). eapply Hm, H1.
Qed.

Lemma preserves_lift_raw f :
  (forall r s, P (set_raw r s) = P s) -> preserves P (lift_raw f).
Proof.
  intros Hr s a s' H. unfold lift_raw in H. destruct (f (raw s)) as [rc r].
  injection H as _ <-. apply Hr.
Qed.

Lemma preserves_if {A} (c : bool) (m1 m2 : W A) :
  preserves P m1 -> preserves P m2 -> preserves P (if c then m1 else m2).
Proof. destruct c; auto. Qed.

End Preserves.

(** a step-by-step proof that a computation keeps a property: the side
    goals are the facts about the setters *)
Ltac pres_step :=
  match goal with
  | |- preserves _ (bind _ _) => apply preserves_bind; [|intros ?]
  | |- preserves _ (ret _) => apply preserves_ret
  | |- preserves _ undefined => apply preserves_undefined
  | |- preserves _ get_st => apply preserves_get_st
  | |- preserves _ tell => apply preserves_tell
  | |- preserves _ buf_size => apply preserves_buf_size
  | |- preserves _ (modify _) => apply preserves_modify; intros ?
  | |- preserves _ (lift_raw _) => apply preserves_lift_raw; intros ? ?
  | |- preserves _ (lift_raw1 _ _) => apply preserves_lift_raw; intros ? ?
  | |- preserves _ (raw_wr _ _) => apply preserves_lift_raw; intros ? ?
  | |- preserves _ (if ?c then _ else _) => destruct c
  | |- preserves _ (match ?x with _ => _ end) => destruct x
  end.
Ltac pres := repeat pres_step.


Lemma get_info_set_info i j x s :
  get_info (set_info i x s) j = if decide (i = j) then x else get_info s j.
Proof.
  unfold get_info, set_info, arr_get. simpl.
  rewrite lookup_insert. destruct (decide (i = j)); reflexivity.
Qed.

Lemma stored_def_set_info id i x s :
  signal_def x = signal_def (get_info s i) ->
  stored_def id (set_info i x s) = stored_def id s.
Proof.
  intros H. unfold stored_def. rewrite get_info_set_info.
  destruct (decide (i = id)) as [->|]; [exact H|reflexivity].
Qed.

Lemma stored_def_buf_reset id : preserves (stored_def id) buf_reset.
Proof. unfold buf_reset. pres. reflexivity. Qed.
Lemma stored_def_buf_add_zero id n : preserves (stored_def id) (buf_add_zero n).
Proof. unfold buf_add_zero. pres. reflexivity. Qed.
Lemma stored_def_buf_wr_u8 id n : preserves (stored_def id) (buf_wr_u8 n).
Proof. unfold buf_wr_u8. pres. reflexivity. Qed.
Lemma stored_def_buf_wr_u16 id n : preserves (stored_def id) (buf_wr_u16 n).
Proof. unfold buf_wr_u16. pres. reflexivity. Qed.
Lemma stored_def_buf_wr_u32 id n : preserves (stored_def id) (buf_wr_u32 n).
Proof. unfold buf_wr_u32. pres. reflexivity. Qed.
Lemma stored_def_buf_add_str id p : preserves (stored_def id) (buf_add_str p).
Proof.
  intros s a s' H. unfold buf_add_str in H.
  destruct (buf_add_str_loop _ _) as [[rc b]|]; [|discriminate].
  injection H as _ <-. reflexivity.
Qed.
Lemma stored_def_update_mra_signal id c :
  preserves (stored_def id) (update_mra signal_mra set_signal_mra c).
Proof. unfold update_mra. pres; reflexivity. Qed.

Lemma stored_def_upd_track id i ty f : preserves (stored_def id) (upd_track i ty f).
Proof.
  unfold upd_track, upd_info. pres. apply stored_def_set_info. reflexivity.
Qed.

Lemma stored_def_track_wr_def id i ty : preserves (stored_def id) (track_wr_def i ty).
Proof.
  unfold track_wr_def. pres; try reflexivity.
  - apply stored_def_upd_track.
  - apply stored_def_update_mra_signal.
Qed.

Lemma stored_def_track_wr_head id i ty : preserves (stored_def id) (track_wr_head i ty).
Proof.
  unfold track_wr_head. pres; try reflexivity.
  - apply stored_def_upd_track.
  - apply stored_def_update_mra_signal.
Qed.

Lemma stored_def_wr_tracks id i tys : preserves (stored_def id) (wr_tracks i tys).
Proof.
  induction tys as [|ty tys IH]; simpl; pres; auto using stored_def_track_wr_def, stored_def_track_wr_head.
Qed.

(** ** Signal definitions *)

Lemma bind_get_st {A} (k : jls_wr_s -> W A) s : bind get_st k s = k s s.
Proof. reflexivity. Qed.
Lemma bind_modify {A} f (k : unit -> W A) s : bind (modify f) k s = k tt (f s).
Proof. reflexivity. Qed.
Lemma bind_tell {A} (k : Z -> W A) s : bind tell k s = k (fpos (raw s)) s.
Proof. reflexivity. Qed.
Lemma bind_buf_size {A} (k : Z -> W A) s : bind buf_size k s = k (u32 (zlen (buf s))) s.
Proof. reflexivity. Qed.
Lemma bind_ret {S A B} (a : A) (k : A -> M S B) s : bind (ret a) k s = k a s.
Proof. reflexivity. Qed.

(** a computation run through ROE: either it failed and that is the
    result, or it succeeded and the rest runs *)
Lemma roe_Some (m k : W jls_ec) s r :
  bind m (fun rc => if is_ok rc then k else ret rc) s = Some r ->
  (exists s1, m s = Some (JLS_SUCCESS, s1) /\ k s1 = Some r)
  \/ (exists rc, rc <> JLS_SUCCESS /\ m s = Some (rc, snd r) /\ fst r = rc).
Proof.
  intros H. apply bind_Some in H as (rc & s1 & Hm & Hk).
  destruct rc; simpl in Hk;
    try (right; injection Hk as <-; eexists; split; [|split; [exact Hm|reflexivity]]; discriminate).
  left. eauto.
Qed.

Lemma roe_success (m k : W jls_ec) s s' :
  bind m (fun rc => if is_ok rc then k else ret rc) s = Some (JLS_SUCCESS, s') ->
  exists s1, m s = Some (JLS_SUCCESS, s1) /\ k s1 = Some (JLS_SUCCESS, s').
Proof.
  intros H. apply roe_Some in H as [H|(rc & Hne & _ & Hrc)]; [exact H|].
  simpl in Hrc. congruence.
Qed.

Lemma clamp_factors_spec d :
  summary_decimate_factor (clamp_factors d) = Z.max (summary_decimate_factor d) 10
  /\ entries_per_summary (clamp_factors d) = Z.max (entries_per_summary d) 1000.
Proof.
  unfold clamp_factors, SUMMARY_DECIMATE_FACTOR_MIN, DECIMATIONS_PER_CHUNK_MIN.
  destruct (Z.ltb_spec (summary_decimate_factor d) 10);
    destruct d; simpl in *;
    match goal with |- context [?a <? 1000] => destruct (Z.ltb_spec a 1000) end;
    simpl; lia.
Qed.

(** C6: after a successful [jls_wr_signal_def] the stored definition has
    [summary_decimate_factor] and [entries_per_summary] (the
    [decimations_per_chunk] of writer.c) raised to 10 and to 1000 when
    they were below, and unchanged otherwise. *)
Theorem signal_def_clamps (signal : jls_signal_def_s) (s s' : jls_wr_s) :
  jls_wr_signal_def signal s = Some (JLS_SUCCESS, s') ->
  let d := signal_def (get_info s' (signal_id signal)) in
  summary_decimate_factor d = Z.max (summary_decimate_factor signal) 10
  /\ entries_per_summary d = Z.max (entries_per_summary signal) 1000.
Proof.
  intros H. unfold jls_wr_signal_def in H. rewrite bind_get_st in H.
  set (id := signal_id signal) in *.
  repeat match type of H with
         | (if ?c then ret _ else _) _ = _ => destruct c; [discriminate|]
         end.
  destruct (c_str _) as [chars|]; [|discriminate].
  unfold upd_info in H.
  rewrite bind_modify in H.
  match type of H with
  | (if ?c then ret _ else _) _ = _ => destruct c; [discriminate|]
  end.
  rewrite bind_modify in H.
  match type of H with
  | (if ?c then ret _ else _) _ = _ => destruct c; [discriminate|]
  end.
  rewrite bind_modify, bind_get_st in H.
  match type of H with
  | context [sample_buffer_alloc ?a ?b] => destruct (sample_buffer_alloc a b) as [rc b0]
  end.
  destruct rc; try discriminate.
  match type of H with
  | ?m ?s2 = _ =>
      assert (Hp : preserves (stored_def id) m);
        [|pose proof (Hp _ _ _ H) as Hd; clear Hp H]
  end.
  { unfold upd_info. pres; try reflexivity;
      auto using stored_def_buf_reset, stored_def_buf_add_zero, stored_def_buf_wr_u8,
        stored_def_buf_wr_u16, stored_def_buf_wr_u32, stored_def_buf_add_str,
        stored_def_update_mra_signal, stored_def_wr_tracks.
    all: try (apply stored_def_set_info; reflexivity). }
  unfold stored_def in Hd. cbv zeta. fold id. rewrite Hd. clear Hd.
  rewrite !get_info_set_info.
  destruct (decide (id = id)) as [_|]; [|congruence].
  cbn [signal_def set_signal_def].
  match goal with |- context [clamp_factors ?d] =>
    destruct (clamp_factors_spec d) as [E1 E2]; rewrite E1, E2; clear E1 E2 end.
  destruct (signal_type signal =? JLS_SIGNAL_TYPE_FSR);
    [|destruct (negb (sample_rate signal =? 0))];
    cbn; split; reflexivity.
Qed.

Lemma signal_def_clamps_witness :
  jls_wr_signal_def Session.signal_low Session.wr_opened
    = Some (JLS_SUCCESS, Session.wr_low)
  /\ summary_decimate_factor (signal_def (get_info Session.wr_low 3)) = Z.max 3 10
  /\ entries_per_summary (signal_def (get_info Session.wr_low 3)) = Z.max 5 1000.
Proof.
  assert (H : jls_wr_signal_def Session.signal_low Session.wr_opened
              = Some (JLS_SUCCESS, Session.wr_low)) by (vm_compute; reflexivity).
  split; [exact H|].
  exact (signal_def_clamps Session.signal_low Session.wr_opened Session.wr_low H).
Defined.

(** * The writer's invariant *)

(** ** The writer's tables *)

Lemma get_track_set_track ty ty' t x :
  get_track (set_track ty t x) ty' = if decide (ty = ty') then t else get_track x ty'.
Proof.
  unfold get_track, set_track, arr_get. simpl.
  rewrite lookup_insert. destruct (decide (ty = ty')); reflexivity.
Qed.

Lemma mra_get_set_same l c s : mra_get l (mra_set l c s) = c.
Proof.
  destruct l as [| | |id ty]; try reflexivity.
  unfold mra_get, mra_set, data_mra, set_data_mra.
  rewrite get_info_set_info. destruct (decide (id = id)); [|congruence].
  rewrite get_track_set_track. destruct (decide (ty = ty)); [|congruence].
  reflexivity.
Qed.

Lemma mra_get_set_other l l' c s : l <> l' -> mra_get l' (mra_set l c s) = mra_get l' s.
Proof.
  intros Hne. destruct l as [| | |id ty], l' as [| | |id' ty']; try reflexivity; try congruence.
  unfold mra_get, mra_set, data_mra, set_data_mra.
  rewrite get_info_set_info. destruct (decide (id = id')) as [<-|]; [|reflexivity].
  rewrite get_track_set_track. destruct (decide (ty = ty')) as [<-|]; [congruence|].
  reflexivity.
Qed.

Lemma mra_get_set_raw l r s : mra_get l (set_raw r s) = mra_get l s.
Proof. destruct l; reflexivity. Qed.

Lemma raw_mra_set l c s : raw (mra_set l c s) = raw s.
Proof. destruct l; reflexivity. Qed.

(** ** What a step leaves alone *)


Lemma same_info_refl s : same_info s s.
Proof. split; reflexivity. Qed.

Lemma same_info_trans s1 s2 s3 : same_info s1 s2 -> same_info s2 s3 -> same_info s1 s3.
Proof.
  intros [] []. split; intros; etransitivity; eauto.
Qed.

Lemma same_info_eq s s' : signal_info s' = signal_info s -> same_info s s'.
Proof. intros H. split; intros; unfold get_info; rewrite H; reflexivity. Qed.

Lemma same_info_mra_set l c s : same_info s (mra_set l c s).
Proof.
  destruct l as [| | |id ty]; try (apply same_info_eq; reflexivity).
  unfold mra_set, set_data_mra.
  split; intros i; intros; rewrite get_info_set_info;
    destruct (decide (id = i)) as [<-|]; try reflexivity;
    simpl; rewrite get_track_set_track; destruct (decide (ty = ty0)) as [<-|]; reflexivity.
Qed.

(** a step that leaves the file, the most recently added chunks and the
    signal table alone keeps the invariant *)
Lemma wr_inv_ext s s' :
  raw s' = raw s -> (forall l, mra_get l s' = mra_get l s) -> same_info s s' ->
  wr_inv s -> wr_inv s'.
Proof.
  intros Hr Hm [] []. split; rewrite ?Hr; try assumption.
  - intros l Hu. rewrite Hm. auto.
  - intros id ty. rewrite si_chunk_def0, si_def0, si_head0. auto.
  - intros id. rewrite si_chunk_def0, si_data_tag0, si_track_type0, si_signal_def0. auto.
  - intros id. rewrite si_chunk_def0, si_buffer0. auto.
Qed.

Lemma wr_inv_set_buf b s : wr_inv s -> wr_inv (set_buf b s).
Proof.
  apply wr_inv_ext; [reflexivity| |apply same_info_eq; reflexivity].
  intros []; reflexivity.
Qed.

Lemma wr_inv_set_payload_prev_length n s : wr_inv s -> wr_inv (set_payload_prev_length n s).
Proof.
  apply wr_inv_ext; [reflexivity| |apply same_info_eq; reflexivity].
  intros []; reflexivity.
Qed.

Lemma wr_inv_set_source_info m s : wr_inv s -> wr_inv (set_source_info m s).
Proof.
  apply wr_inv_ext; [reflexivity| |apply same_info_eq; reflexivity].
  intros []; reflexivity.
Qed.

(** ** Writing an unlinked chunk *)

Lemma chunk_size_pos n : 0 <= n -> 0 < chunk_size n.
Proof. unfold chunk_size, CHUNK_HEADER_SIZE. lia. Qed.

Lemma wr_inv_raw_wr h payload s :
  wr_inv s -> item_next h = 0 -> 0 <= payload_length h ->
  wr_inv (set_raw (snd (jls_raw_wr (raw s) h payload)) s).
Proof.
  intros [Hpos Hbelow Hlinks Hmra Htr Htg Hbuf] Hn Hlen.
  pose proof (chunk_size_pos _ Hlen) as Hsz.
  assert (Hfresh : chunks (raw s) !! fpos (raw s) = None).
  { destruct (chunks (raw s) !! fpos (raw s)) eqn:E; [|reflexivity].
    apply Hbelow in E. lia. }
  split; simpl.
  - lia.
  - intros o c. rewrite lookup_insert. destruct (decide (fpos (raw s) = o)) as [<-|].
    + intros _. lia.
    + intros H. apply Hbelow in H. lia.
  - intros o c. rewrite lookup_insert. destruct (decide (fpos (raw s) = o)) as [<-|Hne].
    + intros H. injection H as <-. simpl. congruence.
    + intros H Hnx. destruct (Hlinks o c H Hnx) as (c' & Hc' & Hprev & Hlist).
      exists c'. split; [|auto].
      rewrite lookup_insert_ne; [exact Hc'|].
      intros Heq. rewrite <- Heq in Hc'. congruence.
  - intros l Hu Hoff.
    rewrite mra_get_set_raw in Hoff |- *. destruct (Hmra l Hu Hoff) as (c & Hc & Hrest).
    exists c. split; [|exact Hrest].
    rewrite lookup_insert_ne; [exact Hc|]. intros Heq. rewrite <- Heq in Hc. congruence.
  - exact Htr.
  - exact Htg.
  - exact Hbuf.
Qed.

(** ** Linking the appended chunk *)

Lemma update_mra_result l upd s :
  update_mra (mra_get l) (mra_set l) upd s =
  Some (JLS_SUCCESS,
        if offset (mra_get l s) =? 0 then mra_set l upd s
        else
          let mra := mra_get l s in
          let mra' := mk_chunk (set_item_next (offset upd) (hdr mra)) (offset mra) in
          let old := default [] (rc_payload <$> chunks (raw s) !! offset mra) in
          mra_set l upd
            (set_raw (mk_raw (<[offset mra := mk_raw_chunk (hdr mra') old]> (chunks (raw s)))
                             (fpos (raw s)))
               (mra_set l mra' s))).
Proof.
  unfold update_mra. rewrite bind_get_st.
  destruct (offset (mra_get l s) =? 0) eqn:E; simpl negb; cbv iota.
  - reflexivity.
  - destruct l; reflexivity.
Qed.

Lemma list_of_set_item_next n h : list_of (set_item_next n h) = list_of h.
Proof. reflexivity. Qed.

Lemma mra_list_inj l l' :
  mra_used l -> mra_used l' -> mra_list l = mra_list l' -> l = l'.
Proof.
  destruct l as [| | |id ty], l' as [| | |id' ty']; simpl; try congruence; try discriminate.
  intros [_ Hty] [_ Hty'] H.
  destruct Hty as [-> | ->], Hty' as [-> | ->]; vm_compute in H; congruence.
Qed.

Lemma wr_inv_update_mra l upd cu s rc s' :
  wr_inv s -> mra_used l ->
  chunks (raw s) !! offset upd = Some cu -> rc_hdr cu = hdr upd ->
  item_next (hdr upd) = 0 -> item_prev (hdr upd) = offset (mra_get l s) ->
  list_of (hdr upd) = mra_list l -> offset (mra_get l s) < offset upd ->
  update_mra (mra_get l) (mra_set l) upd s = Some (rc, s') ->
  wr_inv s' /\ rc = JLS_SUCCESS /\ fpos (raw s') = fpos (raw s)
  /\ same_info s s' /\ source_info s' = source_info s.
Proof.
  intros Hinv Hu Hcu Hhdr Hnx Hpv Hlist Hlt H.
  rewrite update_mra_result in H. injection H as <- <-.
  pose proof Hinv as [Hpos Hbelow Hlinks Hmra Htr Htg Hbuf].
  assert (Hupos : 0 < offset upd) by (apply Hbelow in Hcu; lia).
  destruct (Z.eqb_spec (offset (mra_get l s)) 0) as [Hz|Hnz].
  - (* nothing to patch *)
    split; [|split; [reflexivity|split; [rewrite raw_mra_set; reflexivity|
             split; [apply same_info_mra_set|destruct l; reflexivity]]]].
    pose proof (same_info_mra_set l upd s) as [].
    split; rewrite ?raw_mra_set; try assumption.
    + intros l' Hu' Hoff. destruct (decide (l = l')) as [<-|Hne].
      * rewrite mra_get_set_same in Hoff |- *. exists cu. rewrite Hhdr. auto.
      * rewrite mra_get_set_other in Hoff |- * by assumption. auto.
    + intros id ty. rewrite si_chunk_def0, si_def0, si_head0. auto.
    + intros id. rewrite si_chunk_def0, si_data_tag0, si_track_type0, si_signal_def0. auto.
    + intros id. rewrite si_chunk_def0, si_buffer0. auto.
  - (* the header of the last chunk of the list is rewritten *)
    cbv zeta.
    set (a := offset (mra_get l s)) in *. set (hm := hdr (mra_get l s)) in *.
    destruct (Hmra l Hu Hnz) as (cm & Hcm & Hhm & Hnm & Hlm). fold a in Hcm. fold hm in Hhm.
    rewrite Hcm. simpl default.
    set (f' := <[a := mk_raw_chunk (set_item_next (offset upd) hm) (rc_payload cm)]>
                 (chunks (raw s))).
    set (s1 := set_raw (mk_raw f' (fpos (raw s)))
                 (mra_set l (mk_chunk (set_item_next (offset upd) hm) a) s)).
    assert (Hs1 : same_info s s1).
    { eapply same_info_trans; [apply (same_info_mra_set l)|].
      apply same_info_eq. reflexivity. }
    assert (Hsi : same_info s (mra_set l upd s1)).
    { eapply same_info_trans; [exact Hs1|apply same_info_mra_set]. }
    split; [|split; [reflexivity|split; [rewrite raw_mra_set; reflexivity|
             split; [exact Hsi|destruct l; reflexivity]]]].
    destruct Hsi.
    assert (Hua : offset upd <> a) by lia.
    split; rewrite ?raw_mra_set; simpl raw; simpl chunks; simpl fpos.
    + exact Hpos.
    + intros o c. unfold f'. rewrite lookup_insert.
      destruct (decide (a = o)) as [<-|]; [intros _; eapply Hbelow, Hcm|apply Hbelow].
    + intros o c. unfold f'. rewrite lookup_insert.
      destruct (decide (a = o)) as [<-|Hne].
      * intros Hc _. injection Hc as <-. simpl.
        exists cu. rewrite lookup_insert_ne by congruence.
        split; [exact Hcu|]. rewrite Hhdr. split; [exact Hpv|].
        rewrite Hlist, <- Hlm, Hhm. reflexivity.
      * intros Hc Hn. destruct (Hlinks o c Hc Hn) as (c' & Hc' & Hprev & Hl).
        rewrite lookup_insert. destruct (decide (a = item_next (rc_hdr c))) as [Ha|].
        -- rewrite <- Ha in Hc'. rewrite Hcm in Hc'. injection Hc' as <-.
           eexists. split; [reflexivity|]. simpl. rewrite <- Hhm. auto.
        -- eauto.
    + intros l' Hu' Hoff. destruct (decide (l = l')) as [<-|Hne].
      * rewrite mra_get_set_same in Hoff |- *. exists cu.
        unfold f'. rewrite lookup_insert_ne by congruence. rewrite Hhdr. auto.
      * rewrite mra_get_set_other in Hoff |- * by assumption.
        unfold s1 in Hoff |- *.
        rewrite mra_get_set_raw, mra_get_set_other in Hoff |- * by assumption.
        destruct (Hmra l' Hu' Hoff) as (c' & Hc' & Hrest). exists c'.
        split; [|exact Hrest]. unfold f'. rewrite lookup_insert_ne; [exact Hc'|].
        intros Heq. rewrite <- Heq in Hc'. rewrite Hcm in Hc'. injection Hc' as <-.
        destruct Hrest as (_ & _ & Hl'). apply Hne, mra_list_inj; congruence.
    + intros id ty. rewrite si_chunk_def0, si_def0, si_head0. auto.
    + intros id. rewrite si_chunk_def0, si_data_tag0, si_track_type0, si_signal_def0. auto.
    + intros id. rewrite si_chunk_def0, si_buffer0. auto.
Qed.

Lemma mra_get_set_payload_prev_length l n s :
  mra_get l (set_payload_prev_length n s) = mra_get l s.
Proof. destruct l; reflexivity. Qed.

Lemma mra_offset_below l s :
  wr_inv s -> mra_used l -> offset (mra_get l s) < fpos (raw s).
Proof.
  intros Hinv Hu. destruct (Z.eq_dec (offset (mra_get l s)) 0) as [->|Hnz].
  - apply Hinv.
  - destruct (inv_mra s Hinv l Hu Hnz) as (c & Hc & _).
    apply (inv_below s Hinv) in Hc. lia.
Qed.

(** the three steps that end every writing function: write the chunk at
    the end of the file, note its payload length, link it to its list *)
Lemma wr_inv_append l h payload n s rc s' :
  wr_inv s -> mra_used l ->
  item_next h = 0 -> item_prev h = offset (mra_get l s) -> list_of h = mra_list l ->
  0 <= payload_length h ->
  (ROE raw_wr h payload ;;
   DO modify (set_payload_prev_length n) ;;
   update_mra (mra_get l) (mra_set l) (mk_chunk h (fpos (raw s)))) s = Some (rc, s') ->
  wr_inv s' /\ rc = JLS_SUCCESS /\ fpos (raw s) < fpos (raw s')
  /\ same_info s s' /\ source_info s' = source_info s.
Proof.
  intros Hinv Hu Hnx Hpv Hlist Hlen H.
  set (s1 := set_raw (snd (jls_raw_wr (raw s) h payload)) s).
  set (s2 := set_payload_prev_length n s1).
  assert (H1 : wr_inv s2) by (apply wr_inv_set_payload_prev_length, wr_inv_raw_wr; assumption).
  assert (Hrun : update_mra (mra_get l) (mra_set l) (mk_chunk h (fpos (raw s))) s2
                 = Some (rc, s')) by exact H.
  clear H.
  assert (Hg : mra_get l s2 = mra_get l s).
  { unfold s2, s1. rewrite mra_get_set_payload_prev_length, mra_get_set_raw. reflexivity. }
  assert (Hcu : chunks (raw s2) !! offset (mk_chunk h (fpos (raw s)))
                = Some (mk_raw_chunk h payload)) by apply lookup_insert_eq.
  assert (Hpv' : item_prev (hdr (mk_chunk h (fpos (raw s)))) = offset (mra_get l s2))
    by (rewrite Hg; exact Hpv).
  assert (Hlt : offset (mra_get l s2) < offset (mk_chunk h (fpos (raw s))))
    by (rewrite Hg; apply mra_offset_below; assumption).
  destruct (wr_inv_update_mra l _ _ s2 rc s' H1 Hu Hcu eq_refl Hnx Hpv' Hlist Hlt Hrun)
    as (Hi & Hrc & Hp & Hsi & Hso).
  split; [exact Hi|]. split; [exact Hrc|]. split.
  - rewrite Hp. simpl. pose proof (chunk_size_pos _ Hlen). lia.
  - split; [|exact Hso].
    eapply same_info_trans; [|exact Hsi]. apply same_info_eq. reflexivity.
Qed.

(** ** The scratch buffer is the only thing its functions change *)


Lemma set_buf_set_buf b b' s : set_buf b (set_buf b' s) = set_buf b s.
Proof. reflexivity. Qed.

Lemma set_buf_id s : s = set_buf (buf s) s.
Proof. destruct s; reflexivity. Qed.

Lemma buf_only_ret {A} (a : A) : buf_only (ret a).
Proof. intros s a' s' H. injection H as _ <-. exists (buf s). apply set_buf_id. Qed.

Lemma buf_only_get_st : buf_only get_st.
Proof. intros s a' s' H. injection H as _ <-. exists (buf s). apply set_buf_id. Qed.

Lemma buf_only_undefined {A} : buf_only (@undefined jls_wr_s A).
Proof. intros s a s' H. discriminate. Qed.

Lemma buf_only_modify b : buf_only (modify (set_buf b)).
Proof. intros s a s' H. injection H as _ <-. eauto. Qed.

Lemma buf_only_bind {A B} (m : W A) (k : A -> W B) :
  buf_only m -> (forall a, buf_only (k a)) -> buf_only (bind m k).
Proof.
  intros Hm Hk s b s' H. apply bind_Some in H as (a & s1 & H1 & H2).
  apply Hm in H1 as (b1 & ->). apply Hk in H2 as (b2 & ->). eauto.
Qed.

Ltac buf_only_step :=
  match goal with
  | |- buf_only (bind _ _) => apply buf_only_bind; [|intros ?]
  | |- buf_only (ret _) => apply buf_only_ret
  | |- buf_only undefined => apply buf_only_undefined
  | |- buf_only get_st => apply buf_only_get_st
  | |- buf_only (modify (set_buf _)) => apply buf_only_modify
  | |- buf_only (if ?c then _ else _) => destruct c
  | |- buf_only (match ?x with _ => _ end) => destruct x
  end.

Lemma buf_only_buf_reset : buf_only buf_reset.
Proof. unfold buf_reset. repeat buf_only_step. Qed.
Lemma buf_only_buf_add_zero n : buf_only (buf_add_zero n).
Proof. unfold buf_add_zero. repeat buf_only_step. Qed.
Lemma buf_only_buf_add_bin d n : buf_only (buf_add_bin d n).
Proof. unfold buf_add_bin. repeat buf_only_step. Qed.
Lemma buf_only_buf_wr_u8 n : buf_only (buf_wr_u8 n).
Proof. unfold buf_wr_u8. repeat buf_only_step. Qed.
Lemma buf_only_buf_wr_u16 n : buf_only (buf_wr_u16 n).
Proof. unfold buf_wr_u16. repeat buf_only_step. Qed.
Lemma buf_only_buf_wr_u32 n : buf_only (buf_wr_u32 n).
Proof. unfold buf_wr_u32. repeat buf_only_step. Qed.
Lemma buf_only_buf_wr_u64 n : buf_only (buf_wr_u64 n).
Proof. unfold buf_wr_u64. repeat buf_only_step. Qed.
Lemma buf_only_buf_size : buf_only buf_size.
Proof. intros s a s' H. injection H as _ <-. exists (buf s). apply set_buf_id. Qed.
Lemma buf_only_buf_add_str p : buf_only (buf_add_str p).
Proof.
  intros s a s' H. unfold buf_add_str in H.
  destruct (buf_add_str_loop _ _) as [[rc b]|]; [|discriminate].
  injection H as _ <-. eauto.
Qed.

Create HintDb buf_only.

#[local] Hint Resolve buf_only_buf_reset buf_only_buf_add_zero buf_only_buf_add_bin
  buf_only_buf_wr_u8 buf_only_buf_wr_u16 buf_only_buf_wr_u32 buf_only_buf_wr_u64
  buf_only_buf_size buf_only_buf_add_str : buf_only.

Ltac buf_only_tac := repeat first [buf_only_step | solve [auto with buf_only]].

(** ** Every call keeps the invariant *)


Lemma u32_nonneg x : 0 <= u32 x.
Proof. unfold u32. apply Z.mod_pos_bound. reflexivity. Qed.

(** the conclusion of [wr_inv_append] for the run [H], as [Ha], with its
    conditions still to give *)
Ltac use_append L H Hinv Ha :=
  match type of H with
  | bind (raw_wr ?h ?p) _ ?s = Some (?rc, ?s') =>
      pose proof (fun Hu Hnx Hpv Hl Hlen =>
                    wr_inv_append L h p _ s rc s' Hinv Hu Hnx Hpv Hl Hlen H) as Ha
  end.

Lemma keeps_inv_ret rc : keeps_inv (ret rc).
Proof.
  intros s rc' s' Hinv H. injection H as _ <-.
  split; [exact Hinv|lia].
Qed.

Lemma keeps_inv_undefined : keeps_inv undefined.
Proof. intros s rc s' _ H. discriminate. Qed.

Lemma keeps_inv_user_data_tail chunk_meta data n :
  0 <= n ->
  keeps_inv
    (LET s <- get_st ;;
     LET pos <- tell ;;
     let chunk := mk_chunk (mk_hdr 0 (offset (user_data_mra s)) JLS_TAG_USER_DATA 0 chunk_meta
                              n (wr_payload_prev_length s)) pos in
     match mem_read data n with
     | None => undefined
     | Some payload =>
       ROE raw_wr (hdr chunk) payload ;;
       DO modify (set_payload_prev_length n) ;;
       update_mra user_data_mra set_user_data_mra chunk
     end).
Proof.
  intros Hn s rc s' Hinv H.
  rewrite bind_get_st, bind_tell in H. cbv zeta in H.
  destruct (mem_read data n) as [payload|]; [|discriminate].
  use_append MraUserData H Hinv Ha.
  destruct (Ha I eq_refl eq_refl eq_refl Hn) as (Hi & _ & Hp & _).
  split; [exact Hi|lia].
Qed.

Lemma keeps_inv_user_data chunk_meta storage_type data data_size :
  0 <= data_size -> keeps_inv (jls_wr_user_data chunk_meta storage_type data data_size).
Proof.
  intros Hsz. unfold jls_wr_user_data.
  destruct (user_data_guard data data_size); [apply keeps_inv_ret|].
  destruct (storage_type =? JLS_STORAGE_TYPE_INVALID);
    [apply keeps_inv_user_data_tail; lia|].
  destruct (storage_type =? JLS_STORAGE_TYPE_BINARY);
    [apply keeps_inv_user_data_tail; lia|].
  destruct (_ || _); [|apply keeps_inv_ret].
  destruct (c_str _); simpl option_map; cbv iota;
    [apply keeps_inv_user_data_tail, u32_nonneg|apply keeps_inv_undefined].
Qed.

(** peeling the scratch-buffer steps off a run *)
Lemma do_buf_only {A} (m : W A) (k : W jls_ec) s r :
  buf_only m -> (DO m ;; k) s = Some r -> exists b, k (set_buf b s) = Some r.
Proof.
  intros Hm H. apply bind_Some in H as (a & s1 & H1 & H2).
  apply Hm in H1 as (b & ->). eauto.
Qed.

Lemma roe_buf_only (m k : W jls_ec) s r :
  buf_only m -> (ROE m ;; k) s = Some r ->
  (exists b, k (set_buf b s) = Some r)
  \/ (exists b rc, is_ok rc = false /\ r = (rc, set_buf b s)).
Proof.
  intros Hm H. apply bind_Some in H as (rc & s1 & H1 & H2).
  apply Hm in H1 as (b & ->). destruct (is_ok rc) eqn:E.
  - left. eauto.
  - right. injection H2 as <-. eauto.
Qed.

(** [H] is a run that starts with a scratch-buffer step: go past it; a
    run that stops there has kept the invariant *)
Ltac stop_buf :=
  split; [repeat apply wr_inv_set_buf; assumption|simpl; lia].

Ltac peel_do H :=
  let b := fresh "b" in
  apply do_buf_only in H;
  [destruct H as (b & H); rewrite ?set_buf_set_buf in H
  |solve [auto with buf_only]].

Ltac peel_roe H :=
  let b := fresh "b" in
  let rc := fresh "rc" in
  apply roe_buf_only in H;
  [destruct H as [(b & H)|(b & rc & _ & H)];
   [rewrite ?set_buf_set_buf in H|injection H as -> ->; stop_buf]
  |solve [auto with buf_only]].

Ltac peel_buf H := first [peel_do H | peel_roe H].

Lemma keeps_inv_source_def source : keeps_inv (jls_wr_source_def source).
Proof.
  intros s rc s' Hinv H. unfold jls_wr_source_def in H. rewrite bind_get_st in H.
  destruct (JLS_SOURCE_COUNT <=? _); [exact (keeps_inv_ret _ _ _ _ Hinv H)|].
  destruct (negb _); [exact (keeps_inv_ret _ _ _ _ Hinv H)|].
  do 7 peel_buf H.
  rewrite bind_buf_size, bind_get_st, bind_tell in H. cbv zeta in H.
  rewrite bind_modify in H.
  match type of H with
  | _ ?s1 = _ => assert (Hinv1 : wr_inv s1)
                   by (apply wr_inv_set_source_info, wr_inv_set_buf, Hinv)
  end.
  use_append MraSource H Hinv1 Ha.
  destruct (Ha I eq_refl eq_refl eq_refl (u32_nonneg _)) as (Hi & _ & Hp & _).
  split; [exact Hi|simpl in Hp; lia].
Qed.

(** *** Track chunks *)

Lemma land3_bound x : 0 <= Z.land x 3 < 4.
Proof.
  change 3 with (Z.ones 2). rewrite Z.land_ones by lia.
  apply Z.mod_pos_bound. reflexivity.
Qed.

Lemma list_of_track_def ty a b c d e f :
  list_of (mk_hdr a b (track_tag ty JLS_TRACK_CHUNK_DEF) c d e f) = SignalList.
Proof.
  unfold track_tag. pose proof (land3_bound ty) as Hb.
  assert (Hc : Z.land ty 3 = 0 \/ Z.land ty 3 = 1 \/ Z.land ty 3 = 2 \/ Z.land ty 3 = 3) by lia.
  destruct Hc as [-> | [-> | [-> | ->]]]; reflexivity.
Qed.

(** a change to the slots of a defined signal that leaves the most
    recently added data chunk alone *)
Lemma wr_inv_upd_track id ty f s :
  wr_inv s -> offset (chunk_def (get_info s id)) <> 0 ->
  (forall t, data (f t) = data t) ->
  wr_inv (set_info id (set_track ty (f (get_track (get_info s id) ty)) (get_info s id)) s).
Proof.
  intros [Hpos Hbelow Hlinks Hmra Htr Htg Hbuf] Hdef Hf.
  set (s' := set_info id _ s).
  assert (Hg : forall i, chunk_def (get_info s' i) = chunk_def (get_info s i)
                         /\ signal_def (get_info s' i) = signal_def (get_info s i)
                         /\ sample_buffer (get_info s' i) = sample_buffer (get_info s i)
                         /\ data_tag (get_info s' i) = data_tag (get_info s i)
                         /\ track_type (get_info s' i) = track_type (get_info s i)).
  { intros i. unfold s'. rewrite get_info_set_info.
    destruct (decide (id = i)) as [<-|]; repeat split; reflexivity. }
  split; try assumption.
  - intros l Hu. assert (Hl : mra_get l s' = mra_get l s).
    { destruct l as [| | |i t]; try reflexivity.
      unfold mra_get, data_mra, s'. rewrite get_info_set_info.
      destruct (decide (id = i)) as [<-|]; [|reflexivity].
      rewrite get_track_set_track. destruct (decide (ty = t)) as [<-|]; [apply Hf|reflexivity]. }
    rewrite Hl. apply Hmra, Hu.
  - intros i t Hz. destruct (Hg i) as (Hc & _). rewrite Hc in Hz.
    unfold s'. rewrite get_info_set_info.
    destruct (decide (id = i)) as [<-|]; [congruence|auto].
  - intros i. destruct (Hg i) as (-> & -> & _ & -> & ->). apply Htg.
  - intros i. destruct (Hg i) as (-> & _ & -> & _). apply Hbuf.
Qed.

(** the first chunk of a track of a signal just defined *)
Lemma track_wr_def_inv id ty s rc s' :
  wr_inv s -> offset (chunk_def (get_info s id)) <> 0 ->
  offset (def (get_track (get_info s id) ty)) = 0 ->
  track_wr_def id ty s = Some (rc, s') ->
  wr_inv s' /\ fpos (raw s) <= fpos (raw s')
  /\ source_info s' = source_info s
  /\ (forall i, chunk_def (get_info s' i) = chunk_def (get_info s i))
  /\ (forall i, signal_def (get_info s' i) = signal_def (get_info s i))
  /\ (forall t, t <> ty ->
        def (get_track (get_info s' id) t) = def (get_track (get_info s id) t))
  /\ (forall t, head (get_track (get_info s' id) t) = head (get_track (get_info s id) t)).
Proof.
  intros Hinv Hdef Hz H. unfold track_wr_def in H.
  rewrite bind_get_st in H. cbv zeta in H. rewrite Hz in H.
  change (negb (0 =? 0)) with false in H. cbv iota in H.
  rewrite bind_tell in H.
  unfold upd_track, upd_info in H. rewrite bind_modify in H.
  match type of H with
  | _ ?s1 = _ => set (s1' := s1) in *;
      assert (Hinv1 : wr_inv s1') by (apply wr_inv_upd_track; [assumption..|reflexivity])
  end.
  assert (Hp1 : fpos (raw s1') = fpos (raw s)) by reflexivity.
  use_append MraSignal H Hinv1 Ha.
  destruct (Ha I eq_refl eq_refl (list_of_track_def _ _ _ _ _ _ _) (Z.le_refl 0))
    as (Hi & _ & Hp & [] & Hso).
  split; [exact Hi|]. split; [lia|]. split; [exact Hso|].
  repeat split.
  - intros i. rewrite si_chunk_def0. unfold s1'. rewrite get_info_set_info.
    destruct (decide (id = i)) as [<-|]; reflexivity.
  - intros i. rewrite si_signal_def0. unfold s1'. rewrite get_info_set_info.
    destruct (decide (id = i)) as [<-|]; reflexivity.
  - intros t Ht. rewrite si_def0. unfold s1'. rewrite get_info_set_info.
    destruct (decide (id = id)); [|congruence].
    rewrite get_track_set_track. destruct (decide (ty = t)); [congruence|reflexivity].
  - intros t. rewrite si_head0. unfold s1'. rewrite get_info_set_info.
    destruct (decide (id = id)); [|congruence].
    rewrite get_track_set_track. destruct (decide (ty = t)) as [<-|]; reflexivity.
Qed.

Lemma raw_wr_result h payload s :
  raw_wr h payload s = Some (JLS_SUCCESS, set_raw (snd (jls_raw_wr (raw s) h payload)) s).
Proof. reflexivity. Qed.

Lemma wr_inv_orphan h payload s rc s' :
  wr_inv s -> item_next h = 0 -> 0 <= payload_length h ->
  (ROE raw_wr h payload ;; ret JLS_SUCCESS) s = Some (rc, s') ->
  wr_inv s' /\ fpos (raw s) <= fpos (raw s')
  /\ s' = set_raw (snd (jls_raw_wr (raw s) h payload)) s.
Proof.
  intros Hinv Hn Hl H.
  assert (E : (ROE raw_wr h payload ;; ret JLS_SUCCESS) s
              = Some (JLS_SUCCESS, set_raw (snd (jls_raw_wr (raw s) h payload)) s))
    by reflexivity.
  assert (Hs : s' = set_raw (snd (jls_raw_wr (raw s) h payload)) s) by congruence.
  subst s'. split; [apply wr_inv_raw_wr; assumption|]. split; [|reflexivity].
  simpl. pose proof (chunk_size_pos _ Hl). lia.
Qed.

Lemma track_wr_head_inv id ty s rc s' :
  wr_inv s -> offset (chunk_def (get_info s id)) <> 0 ->
  offset (head (get_track (get_info s id) ty)) = 0 ->
  track_wr_head id ty s = Some (rc, s') ->
  wr_inv s' /\ fpos (raw s) <= fpos (raw s')
  /\ source_info s' = source_info s
  /\ (forall i, chunk_def (get_info s' i) = chunk_def (get_info s i))
  /\ (forall i, signal_def (get_info s' i) = signal_def (get_info s i))
  /\ (forall t, def (get_track (get_info s' id) t) = def (get_track (get_info s id) t))
  /\ (forall t, t <> ty ->
        head (get_track (get_info s' id) t) = head (get_track (get_info s id) t)).
Proof.
  intros Hinv Hdef Hz H. unfold track_wr_head in H.
  rewrite bind_get_st in H. cbv zeta in H. rewrite Hz in H.
  change (0 =? 0) with true in H. cbv iota in H.
  rewrite bind_tell in H.
  unfold upd_track, upd_info in H. rewrite bind_modify in H.
  match type of H with
  | _ ?s1 = _ => set (s1' := s1) in *;
      assert (Hinv1 : wr_inv s1') by (apply wr_inv_upd_track; [assumption..|reflexivity])
  end.
  apply wr_inv_orphan in H; [|exact Hinv1|reflexivity|simpl; lia].
  destruct H as (Hi & Hp & ->).
  split; [exact Hi|]. split; [exact Hp|]. split; [reflexivity|].
  repeat split.
  - intros i. change (get_info (set_raw _ s1') i) with (get_info s1' i).
    unfold s1'. rewrite get_info_set_info.
    destruct (decide (id = i)) as [<-|]; reflexivity.
  - intros i. change (get_info (set_raw _ s1') i) with (get_info s1' i).
    unfold s1'. rewrite get_info_set_info.
    destruct (decide (id = i)) as [<-|]; reflexivity.
  - intros t. change (get_info (set_raw _ s1') id) with (get_info s1' id).
    unfold s1'. rewrite get_info_set_info.
    destruct (decide (id = id)); [|congruence].
    rewrite get_track_set_track. destruct (decide (ty = t)) as [<-|]; reflexivity.
  - intros t Ht. change (get_info (set_raw _ s1') id) with (get_info s1' id).
    unfold s1'. rewrite get_info_set_info.
    destruct (decide (id = id)); [|congruence].
    rewrite get_track_set_track. destruct (decide (ty = t)); [congruence|reflexivity].
Qed.

(** the track chunks of a signal just defined: the tracks are distinct
    and none has a chunk yet *)
Lemma wr_tracks_inv id tys : NoDup tys -> forall s rc s',
  wr_inv s -> offset (chunk_def (get_info s id)) <> 0 ->
  (forall t, In t tys -> offset (def (get_track (get_info s id) t)) = 0
                         /\ offset (head (get_track (get_info s id) t)) = 0) ->
  wr_tracks id tys s = Some (rc, s') ->
  wr_inv s' /\ fpos (raw s) <= fpos (raw s')
  /\ source_info s' = source_info s
  /\ (forall i, chunk_def (get_info s' i) = chunk_def (get_info s i))
  /\ (forall i, signal_def (get_info s' i) = signal_def (get_info s i)).
Proof.
  induction 1 as [|ty tys Hnotin Hnd IH]; intros s rc s' Hinv Hdef Hz H.
  - injection H as _ <-.
    split; [exact Hinv|]. split; [lia|]. split; [reflexivity|]. split; reflexivity.
  - simpl in H.
    assert (Hdz := proj1 (Hz ty (or_introl eq_refl))).
    apply roe_Some in H as [(s1 & H1 & H)|(rc1 & _ & H1 & _)].
    2:{ simpl in H1.
        destruct (track_wr_def_inv _ _ _ _ _ Hinv Hdef Hdz H1)
          as (? & ? & ? & ? & ? & _). auto. }
    destruct (track_wr_def_inv _ _ _ _ _ Hinv Hdef Hdz H1)
      as (Hi1 & Hp1 & Hso1 & Hc1 & Hd1 & Hdef1 & Hhead1).
    assert (Hdefined1 : offset (chunk_def (get_info s1 id)) <> 0) by (rewrite Hc1; exact Hdef).
    assert (Hh1 : offset (head (get_track (get_info s1 id) ty)) = 0)
      by (rewrite Hhead1; apply Hz; left; reflexivity).
    apply roe_Some in H as [(s2 & H2 & H)|(rc2 & _ & H2 & _)].
    2:{ simpl in H2.
        destruct (track_wr_head_inv _ _ _ _ _ Hi1 Hdefined1 Hh1 H2)
          as (Hi2 & Hp2 & Hso2 & Hc2 & Hd2 & _).
        split; [exact Hi2|]. split; [lia|]. split; [congruence|].
        split; intros i; [rewrite Hc2; apply Hc1|rewrite Hd2; apply Hd1]. }
    destruct (track_wr_head_inv _ _ _ _ _ Hi1 Hdefined1 Hh1 H2)
      as (Hi2 & Hp2 & Hso2 & Hc2 & Hd2 & Hdef2 & Hhead2).
    assert (Hdefined2 : offset (chunk_def (get_info s2 id)) <> 0) by (rewrite Hc2; exact Hdefined1).
    assert (Hz2 : forall t, In t tys ->
               offset (def (get_track (get_info s2 id) t)) = 0
               /\ offset (head (get_track (get_info s2 id) t)) = 0).
    { intros t Ht. assert (t <> ty) by (intros ->; apply Hnotin, list_elem_of_In, Ht).
      rewrite Hdef2, Hdef1, Hhead2, Hhead1 by assumption. apply Hz. right. exact Ht. }
    destruct (IH _ _ _ Hi2 Hdefined2 Hz2 H) as (Hi3 & Hp3 & Hso3 & Hc3 & Hd3).
    split; [exact Hi3|]. split; [lia|]. split; [congruence|].
    split; intros i; [rewrite Hc3, Hc2; apply Hc1|rewrite Hd3, Hd2; apply Hd1].
Qed.

(** *** Signal definitions *)

(** a change to the entry of a signal that is not defined yet, leaving
    its definition chunk and its slots alone *)
Lemma wr_inv_upd_info_pending id g s :
  wr_inv s -> offset (chunk_def (get_info s id)) = 0 ->
  chunk_def (g (get_info s id)) = chunk_def (get_info s id) ->
  tracks (g (get_info s id)) = tracks (get_info s id) ->
  wr_inv (set_info id (g (get_info s id)) s).
Proof.
  intros [Hpos Hbelow Hlinks Hmra Htr Htg Hbuf] Hz Hc Ht.
  set (s' := set_info id _ s).
  assert (Hg : forall i, i <> id -> get_info s' i = get_info s i).
  { intros i Hi. unfold s'. rewrite get_info_set_info.
    destruct (decide (id = i)); [congruence|reflexivity]. }
  assert (Hid : get_info s' id = g (get_info s id)).
  { unfold s'. rewrite get_info_set_info. destruct (decide (id = id)); congruence. }
  split; try assumption.
  - intros l Hu. assert (Hl : mra_get l s' = mra_get l s).
    { destruct l as [| | |i t]; try reflexivity.
      unfold mra_get, data_mra. destruct (Z.eq_dec i id) as [->|Hi].
      - rewrite Hid. unfold get_track. rewrite Ht. reflexivity.
      - rewrite Hg by assumption. reflexivity. }
    rewrite Hl. apply Hmra, Hu.
  - intros i t. destruct (Z.eq_dec i id) as [->|Hi].
    + rewrite Hid. unfold get_track. rewrite Ht. intros _. apply Htr, Hz.
    + rewrite Hg by assumption. apply Htr.
  - intros i. destruct (Z.eq_dec i id) as [->|Hi].
    + rewrite Hid, Hc. congruence.
    + rewrite Hg by assumption. apply Htg.
  - intros i. destruct (Z.eq_dec i id) as [->|Hi].
    + rewrite Hid, Hc. congruence.
    + rewrite Hg by assumption. apply Hbuf.
Qed.

(** the moment a signal becomes defined: its tags and its sample buffer
    are in place *)
Lemma wr_inv_set_chunk_def id c s :
  wr_inv s -> offset (chunk_def (get_info s id)) = 0 ->
  (data_tag (get_info s id) = track_type (get_info s id)
   /\ (signal_type (signal_def (get_info s id)) = JLS_SIGNAL_TYPE_FSR
       /\ track_type (get_info s id) = JLS_TAG_TRACK_FSR_DATA
       \/ signal_type (signal_def (get_info s id)) = JLS_SIGNAL_TYPE_VSR
          /\ track_type (get_info s id) = JLS_TAG_TRACK_VSR_DATA)) ->
  (exists b, sample_buffer (get_info s id) = Some b
             /\ 0 <= sb_offset b <= sb_length b /\ sb_length b < 2^32
             /\ zlen (sb_data b) = sb_offset b) ->
  wr_inv (set_info id (set_chunk_def c (get_info s id)) s).
Proof.
  intros [Hpos Hbelow Hlinks Hmra Htr Htg Hbuf] Hz Htags Hb.
  set (s' := set_info id _ s).
  assert (Hg : forall i, i <> id -> get_info s' i = get_info s i).
  { intros i Hi. unfold s'. rewrite get_info_set_info.
    destruct (decide (id = i)); [congruence|reflexivity]. }
  assert (Hid : get_info s' id = set_chunk_def c (get_info s id)).
  { unfold s'. rewrite get_info_set_info. destruct (decide (id = id)); congruence. }
  split; try assumption.
  - intros l Hu. assert (Hl : mra_get l s' = mra_get l s).
    { destruct l as [| | |i t]; try reflexivity.
      unfold mra_get, data_mra. destruct (Z.eq_dec i id) as [->|Hi].
      - rewrite Hid. reflexivity.
      - rewrite Hg by assumption. reflexivity. }
    rewrite Hl. apply Hmra, Hu.
  - intros i t. destruct (Z.eq_dec i id) as [->|Hi].
    + rewrite Hid. simpl. intros _. apply Htr, Hz.
    + rewrite Hg by assumption. apply Htr.
  - intros i. destruct (Z.eq_dec i id) as [->|Hi].
    + rewrite Hid. intros _. exact Htags.
    + rewrite Hg by assumption. apply Htg.
  - intros i. destruct (Z.eq_dec i id) as [->|Hi].
    + rewrite Hid. intros _. exact Hb.
    + rewrite Hg by assumption. apply Hbuf.
Qed.

(** the end of a writing function followed by more work *)
Lemma append_then (k : W jls_ec) h payload f c
    (g : jls_wr_s -> chunk_s) (st : chunk_s -> jls_wr_s -> jls_wr_s) s r :
  (ROE raw_wr h payload ;; DO modify f ;; ROE update_mra g st c ;; k) s = Some r ->
  exists rc1 s1,
    (ROE raw_wr h payload ;; DO modify f ;; update_mra g st c) s = Some (rc1, s1)
    /\ (if is_ok rc1 then k s1 = Some r else r = (rc1, s1)).
Proof.
  intros H. apply bind_Some in H as (rc0 & s0 & H0 & H).
  rewrite raw_wr_result in H0.
  assert (Hrc0 : rc0 = JLS_SUCCESS) by congruence.
  assert (Hs0 : s0 = set_raw (snd (jls_raw_wr (raw s) h payload)) s) by congruence.
  subst rc0 s0. cbv beta in H. change (is_ok JLS_SUCCESS) with true in H. cbv iota in H.
  rewrite bind_modify in H. apply bind_Some in H as (rc1 & s1 & Hu & H).
  exists rc1, s1. split.
  - erewrite bind_eq by apply raw_wr_result. cbv beta.
    change (is_ok JLS_SUCCESS) with true. cbv iota.
    rewrite bind_modify. exact Hu.
  - destruct (is_ok rc1); [exact H|]. injection H as <-. reflexivity.
Qed.

Lemma NoDup_signal_tracks ty : NoDup (signal_tracks ty).
Proof.
  unfold signal_tracks.
  destruct (ty =? JLS_SIGNAL_TYPE_FSR); [|destruct (ty =? JLS_SIGNAL_TYPE_VSR)];
    repeat constructor; rewrite ?list_elem_of_In; simpl; intuition discriminate.
Qed.

Lemma signal_type_clamp d : signal_type (clamp_factors d) = signal_type d.
Proof.
  unfold clamp_factors.
  destruct (summary_decimate_factor d <? _); simpl;
    match goal with |- context [if ?c then _ else _] => destruct c end; reflexivity.
Qed.

Lemma keeps_inv_signal_def signal : keeps_inv (jls_wr_signal_def signal).
Proof.
  intros s rc s' Hinv H. unfold jls_wr_signal_def in H. rewrite bind_get_st in H.
  cbv zeta in H. set (id := signal_id signal) in *.
  destruct (JLS_SIGNAL_COUNT <=? id); [exact (keeps_inv_ret _ _ _ _ Hinv H)|].
  destruct (JLS_SOURCE_COUNT <=? _); [exact (keeps_inv_ret _ _ _ _ Hinv H)|].
  destruct (offset (get_source s _) =? 0); [exact (keeps_inv_ret _ _ _ _ Hinv H)|].
  destruct (Z.eqb_spec (offset (chunk_def (get_info s id))) 0) as [Hz|];
    [|exact (keeps_inv_ret _ _ _ _ Hinv H)].
  cbn [negb] in H.
  destruct (negb (signal_type signal =? JLS_SIGNAL_TYPE_FSR)
            && negb (signal_type signal =? JLS_SIGNAL_TYPE_VSR)) eqn:Hty;
    [exact (keeps_inv_ret _ _ _ _ Hinv H)|].
  assert (Hty' : signal_type signal = JLS_SIGNAL_TYPE_FSR
                 \/ signal_type signal <> JLS_SIGNAL_TYPE_FSR
                    /\ signal_type signal = JLS_SIGNAL_TYPE_VSR).
  { destruct (Z.eqb_spec (signal_type signal) JLS_SIGNAL_TYPE_FSR); [auto|].
    destruct (Z.eqb_spec (signal_type signal) JLS_SIGNAL_TYPE_VSR); [auto|discriminate]. }
  clear Hty.
  destruct (c_str _) as [chars|]; [|discriminate].
  unfold upd_info in H; rewrite bind_modify in H. cbv beta in H.
  pose proof (wr_inv_upd_info_pending id
                (fun x => set_signal_def (sd_set_name (Some (firstn 1023 chars ++ [0])) signal)
                            (set_info_name (firstn 1023 chars ++ [0]) x))
                s Hinv Hz eq_refl eq_refl) as Hinv1.
  cbv beta in Hinv1.
  match type of Hinv1 with wr_inv ?x => set (s1 := x) in * end.
  assert (Hz1 : offset (chunk_def (get_info s1 id)) = 0)
         by (unfold s1; rewrite get_info_set_info;
             destruct (decide (id = id)); [exact Hz|congruence]).
  match type of H with
       | (if ?c then ret _ else _) _ = _ => destruct c;
           [exact (keeps_inv_ret _ _ _ _ Hinv1 H)|]
       end.
  rewrite bind_modify in H. cbv beta in H.
  match type of H with
       | (if _ then _ else _) (set_info id ?x s1) = _ => 
           assert (Hinv2 : wr_inv (set_info id x s1));
           [ apply (wr_inv_upd_info_pending id (fun _ => x) s1 Hinv1 Hz1);
             repeat match goal with |- context [if ?c then _ else _] => destruct c end;
             reflexivity
           | set (x2 := x) in *; set (s2 := set_info id x2 s1) in * ]
       end.
  assert (Hx2 : get_info s2 id = x2)
         by (unfold s2; rewrite get_info_set_info; destruct (decide (id = id)); congruence).
  assert (Hz2 : offset (chunk_def (get_info s2 id)) = 0)
         by (rewrite Hx2; unfold x2;
             repeat match goal with |- context [if ?c then _ else _] => destruct c end;
             exact Hz1).
  assert (Hz2' : offset (chunk_def x2) = 0) by (rewrite <- Hx2; exact Hz2).
  assert (Htags2 : data_tag x2 = track_type x2
            /\ (signal_type (signal_def x2) = JLS_SIGNAL_TYPE_FSR
                /\ track_type x2 = JLS_TAG_TRACK_FSR_DATA
                \/ signal_type (signal_def x2) = JLS_SIGNAL_TYPE_VSR
                   /\ track_type x2 = JLS_TAG_TRACK_VSR_DATA)).
  { unfold x2, s1. rewrite get_info_set_info.
    destruct (decide (id = id)); [|congruence].
    destruct Hty' as [Hfsr|[Hnfsr Hvsr]].
    - rewrite Hfsr. simpl. auto.
    - destruct (Z.eqb_spec (signal_type signal) JLS_SIGNAL_TYPE_FSR); [congruence|].
      destruct (negb (sample_rate signal =? 0)); simpl; auto. }
  match type of H with
       | (if ?c then ret _ else _) _ = _ => destruct c;
           [exact (keeps_inv_ret _ _ _ _ Hinv2 H)|]
       end.
  rewrite bind_modify in H. cbv beta in H.
  pose proof (wr_inv_upd_info_pending id
                (fun x => set_signal_def (clamp_factors (signal_def x)) x)
                s2 Hinv2 Hz2 eq_refl eq_refl) as Hinv3.
  cbv beta in Hinv3.
  match type of Hinv3 with wr_inv ?x => set (s3 := x) in * end.
  assert (Hx3 : get_info s3 id = set_signal_def (clamp_factors (signal_def x2)) x2)
         by (unfold s3; rewrite get_info_set_info, Hx2; destruct (decide (id = id)); congruence).
  rewrite bind_get_st in H; cbv zeta in H.
  unfold sample_buffer_alloc in H.
  match type of H with
       | context [if ?c then (JLS_ERROR_NOT_SUPPORTED, None) else _] => destruct c;
           [exact (keeps_inv_ret _ _ _ _ Hinv3 H)|]
       end.
  rewrite bind_modify in H. cbv beta in H.
  match type of H with
       | _ (set_info id (set_sample_buffer ?b (get_info s3 id)) s3) = _ => 
           pose proof (wr_inv_upd_info_pending id (set_sample_buffer b) s3 Hinv3
                         ltac:(rewrite Hx3; exact Hz2') eq_refl eq_refl) as Hinv4;
           set (b4 := b) in *
       end.
  match type of Hinv4 with wr_inv ?x => set (s4 := x) in * end.
  assert (Hx4 : get_info s4 id
                     = set_sample_buffer b4 (set_signal_def (clamp_factors (signal_def x2)) x2))
         by (unfold s4; rewrite get_info_set_info, Hx3; destruct (decide (id = id)); congruence).
  assert (Hp4 : fpos (raw s4) = fpos (raw s)) by reflexivity.
  do 12 peel_buf H.
  rewrite bind_buf_size, bind_get_st, bind_tell, bind_modify in H.
  match type of H with
       | _ (set_info id (set_chunk_def ?c (get_info ?s5 id)) ?s5) = _ =>
           assert (Hinv5 : wr_inv s5) by (apply wr_inv_set_buf, Hinv4);
           assert (Hx5 : get_info s5 id = get_info s4 id) by reflexivity;
           assert (Hinv6 : wr_inv (set_info id (set_chunk_def c (get_info s5 id)) s5));
           [ apply wr_inv_set_chunk_def;
             [ exact Hinv5
             | rewrite Hx5, Hx4; exact Hz2'
             | rewrite Hx5, Hx4; simpl; rewrite signal_type_clamp; exact Htags2
             | rewrite Hx5, Hx4; unfold b4; eexists; split; [reflexivity|];
               simpl; pose proof (u32_nonneg
                 (summary_decimate_factor (signal_def (get_info s3 id))
                  * entries_per_summary (signal_def (get_info s3 id))));
               unfold u32 in *; unfold zlen; simpl;
               pose proof (Z.mod_pos_bound
                 (summary_decimate_factor (signal_def (get_info s3 id))
                  * entries_per_summary (signal_def (get_info s3 id))) (2^32) eq_refl); lia ]
           | set (s6 := set_info id (set_chunk_def c (get_info s5 id)) s5) in * ]
       end.
  apply append_then in H; destruct H as (rc1 & s7 & Happ & H).
  use_append MraSignal Happ Hinv6 Ha.
  destruct (Ha I eq_refl eq_refl eq_refl (u32_nonneg _)) as (Hinv7 & -> & Hp7 & Hsi7 & _).
  simpl is_ok in H; cbv iota in H.
  assert (Hp6 : fpos (raw s6) = fpos (raw s)) by reflexivity.
  assert (Hdef7 : offset (chunk_def (get_info s7 id)) <> 0)
         by (rewrite (si_chunk_def _ _ Hsi7); unfold s6; rewrite get_info_set_info;
             destruct (decide (id = id)); [|congruence];
             simpl; pose proof (inv_pos _ Hinv); lia).
  assert (Hz7 : forall t, In t (signal_tracks (signal_type signal)) ->
            offset (def (get_track (get_info s7 id) t)) = 0
            /\ offset (head (get_track (get_info s7 id) t)) = 0)
         by (intros t _; rewrite (si_def _ _ Hsi7), (si_head _ _ Hsi7);
             unfold s6; rewrite get_info_set_info;
             destruct (decide (id = id)); [|congruence];
             change (get_track (set_chunk_def ?c ?x) t) with (get_track x t);
             apply (inv_tracks _ Hinv4); rewrite Hx4; exact Hz2').
  destruct (wr_tracks_inv id _ (NoDup_signal_tracks _) _ _ _ Hinv7 Hdef7 Hz7 H)
         as (Hi8 & Hp8 & _).
  split; [exact Hi8|lia].
Qed.

(** *** Samples *)

Lemma signal_validate_result id s :
  signal_validate id s
  = Some (if JLS_SIGNAL_COUNT <=? id then JLS_ERROR_PARAMETER_INVALID
          else if offset (chunk_def (get_info s id)) =? 0 then JLS_ERROR_NOT_FOUND
          else JLS_SUCCESS, s).
Proof.
  unfold signal_validate. rewrite bind_get_st.
  destruct (JLS_SIGNAL_COUNT <=? id); [reflexivity|].
  destruct (offset _ =? 0); reflexivity.
Qed.

(** a run that starts with [signal_validate]: it stops with the writer as
    it was, or it goes on for a signal that is in range and defined *)
Lemma roe_signal_validate id (k : W jls_ec) s r :
  (ROE signal_validate id ;; k) s = Some r ->
  (exists rc, r = (rc, s))
  \/ (id < JLS_SIGNAL_COUNT /\ offset (chunk_def (get_info s id)) <> 0 /\ k s = Some r).
Proof.
  intros H. erewrite bind_eq in H by apply signal_validate_result.
  destruct (Z.leb_spec JLS_SIGNAL_COUNT id); [left; injection H as <-; eauto|].
  destruct (Z.eqb_spec (offset (chunk_def (get_info s id))) 0);
    [left; injection H as <-; eauto|].
  right. auto.
Qed.

Lemma land_0xfff id : 0 <= id < JLS_SIGNAL_COUNT -> Z.land id 0x0fff = id.
Proof.
  intros H. change 0x0fff with (Z.ones 12). rewrite Z.land_ones by lia.
  apply Z.mod_small. unfold JLS_SIGNAL_COUNT in H. lia.
Qed.

Lemma list_of_data id tg a b c d e :
  0 <= id < JLS_SIGNAL_COUNT ->
  tg = JLS_TAG_TRACK_FSR_DATA \/ tg = JLS_TAG_TRACK_VSR_DATA
  \/ tg = JLS_TAG_TRACK_ANNOTATION_DATA \/ tg = JLS_TAG_TRACK_UTC_DATA ->
  list_of (mk_hdr a b tg c id d e) = TrackList id tg.
Proof.
  intros Hid Htg. unfold list_of. simpl tag. simpl chunk_meta.
  rewrite land_0xfff by assumption.
  destruct Htg as [-> | [-> | [-> | ->]]]; reflexivity.
Qed.

Lemma u32_small x : 0 <= x < 2^32 -> u32 x = x.
Proof. intros H. unfold u32. apply Z.mod_small. exact H. Qed.

Lemma zlen_firstn {A} n (l : list A) : 0 <= n <= zlen l -> zlen (firstn (Z.to_nat n) l) = n.
Proof. unfold zlen. intros H. rewrite length_firstn. lia. Qed.

(** one round of the loop, with fuel *)
Lemma fsr_f32_loop_eq fuel id sample_id data data_length write_count :
  fsr_f32_loop fuel id sample_id data data_length write_count =
  if data_length =? 0 then ret JLS_SUCCESS
  else match fuel with
  | O => undefined
  | S fuel' =>
    LET s <- get_st ;;
    let info := get_info s id in
    match sample_buffer info with
    | None => undefined
    | Some b =>
      let block_length := u32 (sb_length b - sb_offset b) in
      let block_length := if data_length <? block_length then data_length else block_length in
      if (zlen data <? block_length) || (sb_length b <? sb_offset b + block_length)
      then undefined
      else
        let b := sb_set_offset (u32 (sb_offset b + block_length))
                   (memcpy_at (sb_data b) (sb_offset b) data block_length) b in
        DO upd_info id (set_sample_buffer (Some b)) ;;
        if sb_length b <=? sb_offset b then
          let write_count := u64 (write_count + block_length) in
          let b := sb_set_timestamp (u64 (sample_id + write_count)) b in
          DO upd_info id (set_sample_buffer (Some b)) ;;
          LET s1 <- get_st ;;
          if negb (track_index_ok (track_type info)) then undefined else
          LET pos <- tell ;;
          let chunk := mk_chunk (mk_hdr 0 (offset (data_mra id (track_type info) s1))
                                   (data_tag info) 0 id (u32 (sb_length b + 8))
                                   (wr_payload_prev_length s1)) pos in
          match mem_read (Some (sample_buffer_bytes b)) (payload_length (hdr chunk)) with
          | None => undefined
          | Some payload =>
            ROE raw_wr (hdr chunk) payload ;;
            DO modify (set_payload_prev_length (payload_length (hdr chunk))) ;;
            update_mra (data_mra id (track_type info)) (set_data_mra id (track_type info)) chunk
          end
        else fsr_f32_loop fuel' id sample_id data data_length write_count
    end
  end.
Proof. destruct fuel; reflexivity. Qed.

Lemma get_info_upd_same id x s : get_info (set_info id x s) id = x.
Proof. rewrite get_info_set_info. destruct (decide (id = id)); congruence. Qed.

(** [jls_wr_signal_def] leaves a tag value in [track_type]: it is not
    an index of [tracks] *)
Lemma defined_track_type s id :
  wr_inv s -> offset (chunk_def (get_info s id)) <> 0 ->
  track_index_ok (track_type (get_info s id)) = false.
Proof.
  intros Hinv Hdef.
  destruct (inv_tags s Hinv id Hdef) as [_ [[_ ->]|[_ ->]]]; reflexivity.
Qed.

(** with samples to write the loop ends at [info->tracks[info->track_type]],
    whatever the fuel: a round only changes the sample buffer, and the
    loop is left when the buffer is full *)
Lemma fsr_f32_loop_out_of_bounds id sample_id data n wc fuel :
  n <> 0 -> forall s, track_index_ok (track_type (get_info s id)) = false ->
  fsr_f32_loop fuel id sample_id data n wc s = None.
Proof.
  intros Hn. apply Z.eqb_neq in Hn.
  induction fuel as [|fuel IH]; intros s Hty; rewrite fsr_f32_loop_eq, Hn; [reflexivity|].
  rewrite bind_get_st. cbv zeta.
  destruct (sample_buffer (get_info s id)) as [b|]; [|reflexivity].
  match goal with
  | |- (if ?g then _ else _) _ = _ => destruct g; [reflexivity|]
  end.
  unfold upd_info at 1. rewrite bind_modify.
  match goal with
  | |- (if ?g then _ else _) _ = _ => destruct g
  end.
  - unfold upd_info. rewrite bind_modify, bind_get_st, Hty. reflexivity.
  - apply IH. rewrite get_info_upd_same. exact Hty.
Qed.

Lemma fsr_f32_out_of_bounds id sample_id data n s :
  id < JLS_SIGNAL_COUNT -> offset (chunk_def (get_info s id)) <> 0 ->
  track_index_ok (track_type (get_info s id)) = false -> n <> 0 ->
  jls_wr_fsr_f32 id sample_id data n s = None.
Proof.
  intros Hid Hdef Hty Hn. unfold jls_wr_fsr_f32.
  erewrite bind_eq by apply signal_validate_result.
  apply Z.leb_gt in Hid. apply Z.eqb_neq in Hdef. rewrite Hid, Hdef.
  change (is_ok JLS_SUCCESS) with true. cbv iota. rewrite bind_get_st.
  apply fsr_f32_loop_out_of_bounds; assumption.
Qed.

(** a call that returns has written nothing: it was stopped by
    [signal_validate], or it had no sample to write *)
Lemma keeps_inv_fsr_f32 id sample_id data n : keeps_inv (jls_wr_fsr_f32 id sample_id data n).
Proof.
  intros s rc s' Hinv H. unfold jls_wr_fsr_f32 in H.
  apply roe_signal_validate in H as [[rc' H] | (Hlt & Hdef & H)].
  - injection H as _ <-. split; [exact Hinv|lia].
  - rewrite bind_get_st in H. destruct (Z.eq_dec n 0) as [->|Hn].
    + rewrite fsr_f32_loop_eq in H. exact (keeps_inv_ret _ _ _ _ Hinv H).
    + rewrite fsr_f32_loop_out_of_bounds in H;
        [discriminate|exact Hn|exact (defined_track_type s id Hinv Hdef)].
Qed.

(** *** Annotations and UTC entries *)

Lemma signal_validate_typed_result id ty s :
  signal_validate_typed id ty s
  = Some (if JLS_SIGNAL_COUNT <=? id then JLS_ERROR_PARAMETER_INVALID
          else if offset (chunk_def (get_info s id)) =? 0 then JLS_ERROR_NOT_FOUND
          else if negb (signal_type (signal_def (get_info s id)) =? ty)
               then JLS_ERROR_NOT_SUPPORTED
               else JLS_SUCCESS, s).
Proof.
  unfold signal_validate_typed. erewrite bind_eq by apply signal_validate_result.
  destruct (JLS_SIGNAL_COUNT <=? id); [reflexivity|].
  destruct (offset _ =? 0); [reflexivity|].
  change (is_ok JLS_SUCCESS) with true. cbv iota. rewrite bind_get_st.
  destruct (negb _); reflexivity.
Qed.

Lemma roe_signal_validate_typed id ty (k : W jls_ec) s r :
  (ROE signal_validate_typed id ty ;; k) s = Some r ->
  (exists rc, r = (rc, s))
  \/ (id < JLS_SIGNAL_COUNT /\ offset (chunk_def (get_info s id)) <> 0
      /\ signal_type (signal_def (get_info s id)) = ty /\ k s = Some r).
Proof.
  intros H. erewrite bind_eq in H by apply signal_validate_typed_result.
  destruct (Z.leb_spec JLS_SIGNAL_COUNT id); [left; injection H as <-; eauto|].
  destruct (Z.eqb_spec (offset (chunk_def (get_info s id))) 0);
    [left; injection H as <-; eauto|].
  destruct (Z.eqb_spec (signal_type (signal_def (get_info s id))) ty);
    simpl negb in H; cbv iota in H; [|left; injection H as <-; eauto].
  right. auto.
Qed.

Lemma keeps_inv_roe_typed id ty (k : W jls_ec) :
  keeps_inv k -> keeps_inv (ROE signal_validate_typed id ty ;; k).
Proof.
  intros Hk s rc s' Hinv H.
  apply roe_signal_validate_typed in H as [[rc' H] | (_ & _ & _ & H)].
  - injection H as _ <-. split; [exact Hinv|lia].
  - exact (Hk s rc s' Hinv H).
Qed.

Ltac inv_here H Hinv Hname :=
  match type of H with
  | _ ?s0 = Some _ => assert (Hname : wr_inv s0) by (repeat apply wr_inv_set_buf; exact Hinv)
  end.

Lemma keeps_inv_anno_wr id timestamp annotation_type storage_type data data_size :
  0 <= id -> keeps_inv (anno_wr id timestamp annotation_type storage_type data data_size).
Proof.
  intros Hid s rc s' Hinv H. unfold anno_wr in H.
  apply roe_signal_validate in H as [[rc' H] | (Hlt & Hdef & H)].
  { injection H as _ <-. split; [exact Hinv|lia]. }
  destruct (negb _); [exact (keeps_inv_ret _ _ _ _ Hinv H)|].
  destruct (negb _); [exact (keeps_inv_ret _ _ _ _ Hinv H)|].
  do 5 peel_buf H. cbv zeta in H.
  assert (Htail : forall bb add, buf_only add ->
    (ROE add ;;
     LET payload_length <- buf_size ;;
     LET s <- get_st ;;
     LET pos <- tell ;;
     let chunk := mk_chunk (mk_hdr 0 (offset (data_mra id JLS_TRACK_TYPE_ANNOTATION s))
                              JLS_TAG_TRACK_ANNOTATION_DATA 0 id payload_length
                              (wr_payload_prev_length s)) pos in
     match mem_read data payload_length with
     | None => undefined
     | Some payload =>
       ROE raw_wr (hdr chunk) payload ;;
       DO modify (set_payload_prev_length payload_length) ;;
       update_mra (data_mra id JLS_TRACK_TYPE_ANNOTATION)
                  (set_data_mra id JLS_TRACK_TYPE_ANNOTATION) chunk
     end) (set_buf bb s) = Some (rc, s') ->
    wr_inv s' /\ fpos (raw s) <= fpos (raw s')).
  { intros bb add Hadd Hrun. clear H.
    apply roe_buf_only in Hrun; [|exact Hadd].
    destruct Hrun as [(bb0 & Hrun)|(bb0 & rc0 & _ & Hrun)];
      [|injection Hrun as -> ->; stop_buf].
    rewrite ?set_buf_set_buf in Hrun.
    rewrite bind_buf_size, bind_get_st, bind_tell in Hrun. cbv zeta in Hrun.
    destruct (mem_read _ _) as [payload|]; [|discriminate].
    inv_here Hrun Hinv Hinv1.
    use_append (MraData id JLS_TRACK_TYPE_ANNOTATION) Hrun Hinv1 Ha.
    destruct Ha as (Hi & _ & Hp & _).
    - split; [split; assumption|auto].
    - reflexivity.
    - reflexivity.
    - apply list_of_data; [split; assumption|tauto].
    - apply u32_nonneg.
    - split; [exact Hi|]. simpl in Hp. lia. }
  destruct (storage_type =? JLS_STORAGE_TYPE_BINARY).
  { apply (Htail _ _ (buf_only_buf_add_bin _ _) H). }
  destruct (_ || _).
  { apply (Htail _ _ (buf_only_buf_add_str _) H). }
  inv_here H Hinv Hinv1.
  destruct (keeps_inv_ret _ _ _ _ Hinv1 H) as [Hi Hp]. split; [exact Hi|exact Hp].
Qed.

Lemma keeps_inv_fsr_annotation id sample_id annotation_type storage_type data data_size :
  0 <= id ->
  keeps_inv (jls_wr_fsr_annotation id sample_id annotation_type storage_type data data_size).
Proof. intros Hid. apply keeps_inv_roe_typed, keeps_inv_anno_wr, Hid. Qed.

Lemma keeps_inv_vsr_annotation id timestamp annotation_type storage_type data data_size :
  0 <= id ->
  keeps_inv (jls_wr_vsr_annotation id timestamp annotation_type storage_type data data_size).
Proof. intros Hid. apply keeps_inv_roe_typed, keeps_inv_anno_wr, Hid. Qed.

Lemma keeps_inv_fsr_utc id sample_id utc :
  0 <= id -> keeps_inv (jls_wr_fsr_utc id sample_id utc).
Proof.
  intros Hid s rc s' Hinv H. unfold jls_wr_fsr_utc in H.
  apply roe_signal_validate_typed in H as [[rc' H] | (Hlt & Hdef & _ & H)].
  { injection H as _ <-. split; [exact Hinv|lia]. }
  cbv zeta in H. rewrite bind_get_st, bind_tell in H.
  use_append (MraData id JLS_TRACK_TYPE_UTC) H Hinv Ha.
  destruct Ha as (Hi & _ & Hp & _).
  - split; [split; assumption|auto].
  - reflexivity.
  - reflexivity.
  - apply list_of_data; [split; assumption|tauto].
  - simpl. lia.
  - split; [exact Hi|lia].
Qed.

(** ** Every call keeps the invariant *)

Lemma keeps_inv_wr_exec c : wr_call_wf c -> keeps_inv (wr_exec c).
Proof.
  destruct c; simpl; intros Hwf.
  - apply keeps_inv_source_def.
  - apply keeps_inv_signal_def.
  - apply keeps_inv_user_data. lia.
  - apply keeps_inv_fsr_f32.
  - apply keeps_inv_fsr_annotation; lia.
  - apply keeps_inv_fsr_utc; lia.
  - apply keeps_inv_vsr_annotation; lia.
Qed.

(** ** The writer after open *)

Lemma get_track_init id ty :
  def (get_track (set_tracks (init_tracks id) signal_info0) ty) = chunk0
  /\ head (get_track (set_tracks (init_tracks id) signal_info0) ty) = chunk0
  /\ data (get_track (set_tracks (init_tracks id) signal_info0) ty) = chunk0.
Proof.
  unfold get_track, arr_get. simpl tracks. unfold init_tracks.
  destruct (list_to_map _ !! ty) as [t|] eqn:E; simpl default; [|auto].
  apply elem_of_list_to_map_2, list_elem_of_fmap in E as (ty' & E & _).
  injection E as _ ->. auto.
Qed.

Lemma get_info_init id :
  get_info wr_init id = signal_info0
  \/ exists id', get_info wr_init id = set_tracks (init_tracks id') signal_info0.
Proof.
  unfold get_info, arr_get. simpl signal_info. unfold init_signal_info.
  destruct (list_to_map _ !! id) as [x|] eqn:E; simpl default; [|auto].
  apply elem_of_list_to_map_2, list_elem_of_fmap in E as (id' & E & _).
  injection E as _ ->. eauto.
Qed.

Lemma wr_init_info id :
  chunk_def (get_info wr_init id) = chunk0
  /\ forall ty, def (get_track (get_info wr_init id) ty) = chunk0
                /\ head (get_track (get_info wr_init id) ty) = chunk0
                /\ data (get_track (get_info wr_init id) ty) = chunk0.
Proof.
  destruct (get_info_init id) as [-> | [id' ->]].
  - split; [reflexivity|]. intros ty. auto.
  - split; [reflexivity|]. intros ty. apply get_track_init.
Qed.

Lemma wr_inv_init : wr_inv wr_init.
Proof.
  split.
  - reflexivity.
  - intros o c H. simpl in H. rewrite lookup_empty in H. discriminate.
  - intros o c H. simpl in H. rewrite lookup_empty in H. discriminate.
  - intros l _ Hnz. exfalso. apply Hnz. destruct l as [| | |id ty]; try reflexivity.
    unfold mra_get, data_mra. destruct (wr_init_info id) as [_ Ht].
    destruct (Ht ty) as (_ & _ & ->). reflexivity.
  - intros id ty _. destruct (wr_init_info id) as [_ Ht].
    destruct (Ht ty) as (-> & -> & _). auto.
  - intros id Hnz. exfalso. apply Hnz. destruct (wr_init_info id) as [-> _]. reflexivity.
  - intros id Hnz. exfalso. apply Hnz. destruct (wr_init_info id) as [-> _]. reflexivity.
Qed.

(** a run through ROE of a computation that keeps the invariant *)
Lemma keeps_inv_roe (m k : W jls_ec) :
  keeps_inv m -> keeps_inv k -> keeps_inv (ROE m ;; k).
Proof.
  intros Hm Hk s rc s' Hinv H. apply bind_Some in H as (rc1 & s1 & H1 & H2).
  destruct (Hm s rc1 s1 Hinv H1) as [Hi1 Hp1].
  destruct (is_ok rc1).
  - destruct (Hk s1 rc s' Hi1 H2) as [Hi2 Hp2]. split; [exact Hi2|lia].
  - injection H2 as _ <-. auto.
Qed.

Lemma wr_inv_open after rc s : jls_wr_open after = Some (rc, s) -> wr_inv s.
Proof.
  unfold jls_wr_open. intros H.
  eapply (keeps_inv_roe _ _ (keeps_inv_user_data _ _ _ 0 (Z.le_refl 0))
            (keeps_inv_roe _ _ (keeps_inv_source_def _)
               (keeps_inv_roe _ _ (keeps_inv_signal_def _) (keeps_inv_ret _)))).
  - exact wr_inv_init.
  - exact H.
Qed.

Lemma reachable_inv defs s : reachable defs s -> wr_inv s.
Proof.
  induction 1 as [after s H|defs s c rc s' _ IH Hwf H].
  - exact (wr_inv_open _ _ _ H).
  - exact (proj1 (keeps_inv_wr_exec c Hwf s rc s' IH H)).
Qed.

(** ** What the calls leave alone: sources and defined signals *)


Lemma preserves_buf_only {X A} (P : jls_wr_s -> X) (m : W A) :
  (forall b s, P (set_buf b s) = P s) -> buf_only m -> preserves P m.
Proof. intros HP Hm s a s' H. apply Hm in H as (b & ->). apply HP. Qed.

Lemma preserves_update_mra {X} (P : jls_wr_s -> X) g st c :
  (forall x s, P (st x s) = P s) -> (forall r s, P (set_raw r s) = P s) ->
  preserves P (update_mra g st c).
Proof. intros Hst Hr. unfold update_mra. pres; auto. Qed.

Ltac keep_step :=
  first [ match goal with
          | |- preserves _ (match (if ?c then _ else _) with _ => _ end) => destruct c
          end
        | pres_step
        | apply preserves_buf_only; [intros ? ?; reflexivity|solve [auto with buf_only]]
        | apply preserves_update_mra; [intros ? ?|intros ? ?]
        | progress cbv zeta ].
Ltac keep := repeat keep_step.

Lemma sig_slot_set_info id i x s :
  chunk_def x = chunk_def (get_info s i) -> signal_def x = signal_def (get_info s i) ->
  sig_slot id (set_info i x s) = sig_slot id s.
Proof.
  intros Hc Hd. unfold sig_slot. rewrite get_info_set_info.
  destruct (decide (i = id)) as [->|]; [rewrite Hc, Hd|]; reflexivity.
Qed.

Lemma sig_slot_set_info_other id i x s :
  i <> id -> sig_slot id (set_info i x s) = sig_slot id s.
Proof.
  intros Hne. unfold sig_slot. rewrite get_info_set_info.
  destruct (decide (i = id)); [congruence|reflexivity].
Qed.

Lemma sig_slot_set_data_mra id i ty c s :
  sig_slot id (set_data_mra i ty c s) = sig_slot id s.
Proof. apply sig_slot_set_info; reflexivity. Qed.

(** *** The calls other than the two definitions *)

Lemma user_data_keeps_sources m st d n : preserves source_info (jls_wr_user_data m st d n).
Proof. unfold jls_wr_user_data. keep; reflexivity. Qed.

Lemma user_data_keeps_signal id m st d n : preserves (sig_slot id) (jls_wr_user_data m st d n).
Proof. unfold jls_wr_user_data. keep; reflexivity. Qed.

Lemma fsr_f32_loop_keeps_sources id sample_id data n wc fuel :
  preserves source_info (fsr_f32_loop fuel id sample_id data n wc).
Proof.
  induction fuel as [|fuel IH]; rewrite fsr_f32_loop_eq; unfold upd_info.
  - keep.
  - keep; try reflexivity. exact IH.
Qed.

Lemma fsr_f32_loop_keeps_signal i id sample_id data n wc fuel :
  preserves (sig_slot i) (fsr_f32_loop fuel id sample_id data n wc).
Proof.
  induction fuel as [|fuel IH]; rewrite fsr_f32_loop_eq; unfold upd_info.
  - keep.
  - keep; try reflexivity; try exact IH;
      try (apply sig_slot_set_info; reflexivity); apply sig_slot_set_data_mra.
Qed.

Lemma fsr_f32_keeps_sources id sample_id data n :
  preserves source_info (jls_wr_fsr_f32 id sample_id data n).
Proof.
  unfold jls_wr_fsr_f32, signal_validate. keep; try reflexivity.
  apply fsr_f32_loop_keeps_sources.
Qed.

Lemma fsr_f32_keeps_signal i id sample_id data n :
  preserves (sig_slot i) (jls_wr_fsr_f32 id sample_id data n).
Proof.
  unfold jls_wr_fsr_f32, signal_validate. keep; try reflexivity.
  apply fsr_f32_loop_keeps_signal.
Qed.

Lemma anno_wr_keeps_sources id t a st d n : preserves source_info (anno_wr id t a st d n).
Proof. unfold anno_wr, signal_validate. keep; reflexivity. Qed.

Lemma anno_wr_keeps_signal i id t a st d n : preserves (sig_slot i) (anno_wr id t a st d n).
Proof.
  unfold anno_wr, signal_validate. keep; try reflexivity; apply sig_slot_set_data_mra.
Qed.

Lemma fsr_utc_keeps_sources id t utc : preserves source_info (jls_wr_fsr_utc id t utc).
Proof. unfold jls_wr_fsr_utc, signal_validate_typed, signal_validate. keep; reflexivity. Qed.

Lemma fsr_utc_keeps_signal i id t utc : preserves (sig_slot i) (jls_wr_fsr_utc id t utc).
Proof.
  unfold jls_wr_fsr_utc, signal_validate_typed, signal_validate.
  keep; try reflexivity; apply sig_slot_set_data_mra.
Qed.

Lemma typed_keeps {X} (P : jls_wr_s -> X) id ty (k : W jls_ec) :
  preserves P k -> preserves P (ROE signal_validate_typed id ty ;; k).
Proof.
  intros Hk. unfold signal_validate_typed, signal_validate. keep; try reflexivity; exact Hk.
Qed.

Lemma source_def_keeps_signal id source : preserves (sig_slot id) (jls_wr_source_def source).
Proof. unfold jls_wr_source_def. keep; reflexivity. Qed.

(** *** Signal definitions *)

Lemma track_wr_def_keeps_sources id ty : preserves source_info (track_wr_def id ty).
Proof. unfold track_wr_def, upd_track, upd_info. keep; reflexivity. Qed.

Lemma track_wr_head_keeps_sources id ty : preserves source_info (track_wr_head id ty).
Proof. unfold track_wr_head, upd_track, upd_info. keep; reflexivity. Qed.

Lemma wr_tracks_keeps_sources id tys : preserves source_info (wr_tracks id tys).
Proof.
  induction tys as [|ty tys IH]; simpl; keep;
    auto using track_wr_def_keeps_sources, track_wr_head_keeps_sources.
Qed.

Lemma track_wr_def_keeps_signal i id ty : preserves (sig_slot i) (track_wr_def id ty).
Proof.
  unfold track_wr_def, upd_track, upd_info. keep; try reflexivity.
  apply sig_slot_set_info; reflexivity.
Qed.

Lemma track_wr_head_keeps_signal i id ty : preserves (sig_slot i) (track_wr_head id ty).
Proof.
  unfold track_wr_head, upd_track, upd_info. keep; try reflexivity.
  apply sig_slot_set_info; reflexivity.
Qed.

Lemma wr_tracks_keeps_signal i id tys : preserves (sig_slot i) (wr_tracks id tys).
Proof.
  induction tys as [|ty tys IH]; simpl; keep;
    auto using track_wr_def_keeps_signal, track_wr_head_keeps_signal.
Qed.

Lemma signal_def_keeps_sources signal : preserves source_info (jls_wr_signal_def signal).
Proof.
  unfold jls_wr_signal_def, upd_info. keep; try reflexivity.
  all: apply wr_tracks_keeps_sources.
Qed.

(** a signal definition leaves the other signals alone; for its own
    signal, once defined, it returns before any change *)
Lemma signal_def_keeps_signal id signal s rc s' :
  offset (chunk_def (get_info s id)) <> 0 ->
  jls_wr_signal_def signal s = Some (rc, s') -> sig_slot id s' = sig_slot id s.
Proof.
  intros Hdef H. destruct (Z.eq_dec (signal_id signal) id) as [E|E].
  - unfold jls_wr_signal_def in H. rewrite bind_get_st in H. cbv zeta in H.
    do 3 (match type of H with
          | (if ?c then ret _ else _) _ = _ => destruct c; [injection H as _ <-; reflexivity|]
          end).
    rewrite E in H. apply Z.eqb_neq in Hdef. rewrite Hdef in H.
    injection H as _ <-. reflexivity.
  - revert s rc s' Hdef H.
    assert (Hp : preserves (sig_slot id) (jls_wr_signal_def signal)); [|intros; eapply Hp; eauto].
    unfold jls_wr_signal_def, upd_info. keep; try reflexivity.
    all: try (apply sig_slot_set_info_other; exact E).
    all: apply wr_tracks_keeps_signal.
Qed.

(** *** Source definitions *)

Ltac past_do H :=
  let b := fresh "b" in
  apply do_buf_only in H;
  [destruct H as (b & H); rewrite ?set_buf_set_buf in H|solve [auto with buf_only]].

(** a step through ROE on the scratch buffer: the run goes on, or it
    stops with a code that is not success and [tac] closes the goal *)
Ltac past_roe H tac :=
  let b := fresh "b" in
  let rc := fresh "rc" in
  let Hrc := fresh "Hrc" in
  apply roe_buf_only in H;
  [destruct H as [(b & H)|(b & rc & Hrc & H)];
   [rewrite ?set_buf_set_buf in H|injection H as ? ?; subst; tac Hrc]
  |solve [auto with buf_only]].

(** a source definition keeps the defined sources defined and, when it
    returns success, has defined its own *)
Lemma source_def_sources source s rc s' :
  wr_inv s -> jls_wr_source_def source s = Some (rc, s') ->
  (forall j, offset (get_source s j) <> 0 -> offset (get_source s' j) <> 0)
  /\ (rc = JLS_SUCCESS ->
      src_source_id source < JLS_SOURCE_COUNT
      /\ offset (get_source s' (src_source_id source)) <> 0).
Proof.
  intros Hinv H. unfold jls_wr_source_def in H. rewrite bind_get_st in H. cbv zeta in H.
  destruct (Z.leb_spec JLS_SOURCE_COUNT (src_source_id source)) as [Hge|Hlt].
  { injection H as <- <-. split; [auto|discriminate]. }
  destruct (negb _).
  { injection H as <- <-. split; [auto|discriminate]. }
  do 2 past_do H.
  do 5 (past_roe H ltac:(fun Hrc =>
          split; [auto|intros ->; discriminate Hrc])).
  rewrite bind_buf_size, bind_get_st, bind_tell in H. cbv zeta in H.
  rewrite bind_modify in H.
  match type of H with
  | ?m ?s1 = _ =>
      assert (Hp : preserves source_info m) by (keep; reflexivity);
      pose proof (Hp _ _ _ H) as Hsrc; clear Hp H
  end.
  simpl source_info in Hsrc.
  match type of Hsrc with
  | _ = <[_ := ?c]> _ => assert (Hoff : offset c = fpos (raw s)) by reflexivity;
                         set (c0 := c) in *
  end.
  assert (Hget : forall j, get_source s' j
            = if decide (src_source_id source = j) then c0 else get_source s j).
  { intros j. unfold get_source, arr_get. rewrite Hsrc, lookup_insert.
    destruct (decide (src_source_id source = j)); reflexivity. }
  pose proof (inv_pos s Hinv) as Hpos.
  split.
  - intros j Hj. rewrite Hget. destruct (decide _); [lia|exact Hj].
  - intros _. split; [exact Hlt|]. rewrite Hget.
    destruct (decide _); [lia|congruence].
Qed.

Lemma get_info_set_buf b s id : get_info (set_buf b s) id = get_info s id.
Proof. reflexivity. Qed.

Lemma signal_type_clamp_factors d : signal_type (clamp_factors d) = signal_type d.
Proof.
  unfold clamp_factors.
  destruct (summary_decimate_factor d <? _); destruct (entries_per_summary _ <? _);
    reflexivity.
Qed.

(** a signal definition that returns success has defined its signal, with
    the type it was given *)
Lemma signal_def_defines signal s s' :
  wr_inv s -> jls_wr_signal_def signal s = Some (JLS_SUCCESS, s') ->
  signal_id signal < JLS_SIGNAL_COUNT
  /\ offset (chunk_def (get_info s' (signal_id signal))) <> 0
  /\ signal_type (signal_def (get_info s' (signal_id signal))) = signal_type signal.
Proof.
  intros Hinv H. unfold jls_wr_signal_def in H. rewrite bind_get_st in H. cbv zeta in H.
  set (id := signal_id signal) in *.
  destruct (Z.leb_spec JLS_SIGNAL_COUNT id) as [|Hlt]; [discriminate|].
  repeat match type of H with
         | (if ?c then ret _ else _) _ = _ => destruct c; [discriminate|]
         end.
  destruct (c_str _) as [chars|]; [|discriminate].
  unfold upd_info in H.
  rewrite bind_modify in H.
  match type of H with
  | (if ?c then ret _ else _) _ = _ => destruct c; [discriminate|]
  end.
  rewrite bind_modify in H.
  match type of H with
  | (if ?c then ret _ else _) _ = _ => destruct c; [discriminate|]
  end.
  rewrite bind_modify, bind_get_st in H. cbv zeta in H.
  match type of H with
  | context [sample_buffer_alloc ?a ?b] => destruct (sample_buffer_alloc a b) as [rc b0]
  end.
  destruct rc; try discriminate.
  rewrite bind_modify in H.
  past_do H.
  do 11 (past_roe H ltac:(fun Hrc => discriminate Hrc)).
  rewrite bind_buf_size, bind_get_st, bind_tell in H. cbv zeta in H.
  rewrite bind_modify in H.
  match type of H with
  | ?m ?s3 = _ =>
      assert (Hp : preserves (sig_slot id) m)
        by (keep; try reflexivity; apply wr_tracks_keeps_signal);
      pose proof (Hp _ _ _ H) as Hsl; clear Hp H
  end.
  unfold sig_slot in Hsl. rewrite get_info_upd_same in Hsl.
  injection Hsl as Hc Hd. split; [exact Hlt|]. rewrite Hc, Hd. split.
  - simpl. pose proof (inv_pos s Hinv). lia.
  - cbn [signal_def set_chunk_def]. rewrite get_info_set_buf, !get_info_upd_same.
    cbn [signal_def set_sample_buffer set_signal_def]. rewrite signal_type_clamp_factors.
    destruct (signal_type signal =? JLS_SIGNAL_TYPE_FSR);
      [|destruct (negb (sample_rate signal =? 0))]; reflexivity.
Qed.

(** ** Appending a chunk always goes through *)

Lemma zlen_le_bytes w x : zlen (le_bytes w x) = Z.of_nat w.
Proof.
  unfold zlen. f_equal. revert x. induction w as [|w IH]; intros x; [reflexivity|].
  simpl. rewrite IH. reflexivity.
Qed.

(** the three steps that end every writing function always go through,
    and the chunk is in the file at the position the writer was at *)
Lemma append_total l h payload n s :
  wr_inv s -> mra_used l ->
  exists s',
    (ROE raw_wr h payload ;;
     DO modify (set_payload_prev_length n) ;;
     update_mra (mra_get l) (mra_set l) (mk_chunk h (fpos (raw s)))) s = Some (JLS_SUCCESS, s')
    /\ chunks (raw s') !! fpos (raw s) = Some (mk_raw_chunk h payload).
Proof.
  intros Hinv Hu.
  erewrite bind_eq by apply raw_wr_result.
  change (is_ok JLS_SUCCESS) with true. cbv iota. rewrite bind_modify.
  rewrite update_mra_result. eexists. split; [reflexivity|].
  rewrite mra_get_set_payload_prev_length, mra_get_set_raw.
  pose proof (mra_offset_below l s Hinv Hu) as Hlt.
  destruct (offset (mra_get l s) =? 0).
  - rewrite raw_mra_set. apply lookup_insert_eq.
  - cbv zeta. rewrite raw_mra_set. simpl raw. simpl chunks.
    rewrite lookup_insert_ne by lia. apply lookup_insert_eq.
Qed.

(** ** Reachable writers *)

Lemma wr_exec_keeps_sources c :
  match c with CallSourceDef _ => True | _ => preserves source_info (wr_exec c) end.
Proof.
  destruct c; simpl.
  - exact I.
  - apply signal_def_keeps_sources.
  - apply user_data_keeps_sources.
  - apply fsr_f32_keeps_sources.
  - apply typed_keeps, anno_wr_keeps_sources.
  - apply fsr_utc_keeps_sources.
  - apply typed_keeps, anno_wr_keeps_sources.
Qed.

Lemma wr_exec_keeps_signal c id s rc s' :
  offset (chunk_def (get_info s id)) <> 0 ->
  wr_exec c s = Some (rc, s') -> sig_slot id s' = sig_slot id s.
Proof.
  intros Hdef. destruct c; simpl.
  - apply source_def_keeps_signal.
  - apply signal_def_keeps_signal, Hdef.
  - apply user_data_keeps_signal.
  - apply fsr_f32_keeps_signal.
  - apply typed_keeps, anno_wr_keeps_signal.
  - apply fsr_utc_keeps_signal.
  - apply typed_keeps, anno_wr_keeps_signal.
Qed.

(** the three calls of [jls_wr_open], one by one *)
Lemma jls_wr_open_steps after s :
  jls_wr_open after = Some (JLS_SUCCESS, s) ->
  exists s1 s2,
    jls_wr_user_data 0 JLS_STORAGE_TYPE_INVALID None 0 wr_init = Some (JLS_SUCCESS, s1)
    /\ jls_wr_source_def SOURCE_0 s1 = Some (JLS_SUCCESS, s2)
    /\ jls_wr_signal_def (SIGNAL_0 after) s2 = Some (JLS_SUCCESS, s).
Proof.
  unfold jls_wr_open. intros H.
  apply roe_success in H as (s1 & H1 & H).
  apply roe_success in H as (s2 & H2 & H).
  apply roe_success in H as (s3 & H3 & H).
  injection H as <-. eauto.
Qed.

Lemma get_source_eq s s' id : source_info s' = source_info s -> get_source s' id = get_source s id.
Proof. intros H. unfold get_source. rewrite H. reflexivity. Qed.

(** the sources in [defs] are defined in the writer *)
Lemma reachable_sources defs s :
  reachable defs s ->
  forall id, In id defs -> id < JLS_SOURCE_COUNT /\ offset (get_source s id) <> 0.
Proof.
  induction 1 as [after s H|defs s c rc s' Hr IH Hwf H].
  - apply jls_wr_open_steps in H as (s1 & s2 & H1 & H2 & H3).
    pose proof (proj1 (keeps_inv_user_data _ _ _ 0 (Z.le_refl 0) _ _ _ wr_inv_init H1)) as Hinv1.
    destruct (source_def_sources _ _ _ _ Hinv1 H2) as [_ Hs].
    destruct (Hs eq_refl) as [Hlt Hoff].
    intros id [<-|[]]. split; [reflexivity|].
    rewrite (get_source_eq s2 s 0 (signal_def_keeps_sources _ _ _ _ H3)). exact Hoff.
  - pose proof (reachable_inv _ _ Hr) as Hinv.
    pose proof (wr_exec_keeps_sources c) as Hk.
    destruct c as [source| | | | | |];
      try (intros j Hj; rewrite (get_source_eq s s' j (Hk _ _ _ H)); exact (IH j Hj)).
    simpl in H. destruct (source_def_sources _ _ _ _ Hinv H) as [Hold Hnew].
    assert (Hdefs : forall id, In id defs -> id < JLS_SOURCE_COUNT /\ offset (get_source s' id) <> 0).
    { intros id Hid. destruct (IH id Hid) as [Hlt Hoff]. split; [exact Hlt|exact (Hold id Hoff)]. }
    destruct rc; try exact Hdefs.
    intros id [<-|Hid]; [exact (Hnew eq_refl)|exact (Hdefs id Hid)].
Qed.

(** signal 0 is a defined VSR signal in every reachable writer *)
Lemma reachable_signal_0 defs s :
  reachable defs s ->
  offset (chunk_def (get_info s 0)) <> 0
  /\ signal_type (signal_def (get_info s 0)) = JLS_SIGNAL_TYPE_VSR.
Proof.
  induction 1 as [after s H|defs s c rc s' Hr IH Hwf H].
  - apply jls_wr_open_steps in H as (s1 & s2 & H1 & H2 & H3).
    pose proof (proj1 (keeps_inv_user_data _ _ _ 0 (Z.le_refl 0) _ _ _ wr_inv_init H1)) as Hinv1.
    pose proof (proj1 (keeps_inv_source_def _ _ _ _ Hinv1 H2)) as Hinv2.
    destruct (signal_def_defines _ _ _ Hinv2 H3) as (_ & Hdef & Hty).
    split; [exact Hdef|exact Hty].
  - destruct IH as [Hdef Hty].
    pose proof (wr_exec_keeps_signal c 0 s rc s' Hdef H) as Hk.
    unfold sig_slot in Hk. injection Hk as -> ->. split; assumption.
Qed.

(** ** The writers of the sessions *)

Lemma reach_wr_opened : reachable [0] Session.wr_opened.
Proof. apply (reach_open [0]). vm_compute. reflexivity. Qed.

Lemma wr_src1_eq :
  jls_wr_source_def Session.source_1 Session.wr_opened = Some (JLS_SUCCESS, Session2.wr_src1).
Proof. vm_compute. reflexivity. Qed.

Lemma wr_sig1_eq :
  jls_wr_signal_def Session.signal_1 Session2.wr_src1 = Some (JLS_SUCCESS, Session2.wr_sig1).
Proof. vm_compute. reflexivity. Qed.

Lemma wr_sig2_eq :
  jls_wr_signal_def Session.signal_2 Session2.wr_sig1 = Some (JLS_SUCCESS, Session2.wr_sig2).
Proof. vm_compute. reflexivity. Qed.

Lemma reach_wr_sig2 : reachable [1; 0] Session2.wr_sig2.
Proof.
  assert (H1 : reachable [1; 0] Session2.wr_src1).
  { apply (reach_call [0] Session.wr_opened (CallSourceDef Session.source_1) JLS_SUCCESS).
    - exact reach_wr_opened.
    - vm_compute. split; [discriminate|reflexivity].
    - exact wr_src1_eq. }
  assert (H2 : reachable [1; 0] Session2.wr_sig1).
  { apply (reach_call [1; 0] Session2.wr_src1 (CallSignalDef Session.signal_1) JLS_SUCCESS).
    - exact H1.
    - vm_compute. repeat split; discriminate.
    - exact wr_sig1_eq. }
  apply (reach_call [1; 0] Session2.wr_sig1 (CallSignalDef Session.signal_2) JLS_SUCCESS).
  - exact H2.
  - vm_compute. repeat split; discriminate.
  - exact wr_sig2_eq.
Qed.

Lemma reach_wr_src1 : reachable [1; 0] Session2.wr_src1.
Proof.
  apply (reach_call [0] Session.wr_opened (CallSourceDef Session.source_1) JLS_SUCCESS).
  - exact reach_wr_opened.
  - vm_compute. split; [discriminate|reflexivity].
  - exact wr_src1_eq.
Qed.

Lemma wr_sig10_eq :
  jls_wr_signal_def Session2.signal_10 Session2.wr_src1
  = Some (JLS_SUCCESS, Session2.wr_sig10).
Proof. vm_compute. reflexivity. Qed.

Lemma wr_sig10_2_eq :
  jls_wr_signal_def Session.signal_2 Session2.wr_sig10
  = Some (JLS_SUCCESS, Session2.wr_sig10_2).
Proof. vm_compute. reflexivity. Qed.

Lemma reach_wr_sig10_2 : reachable [1; 0] Session2.wr_sig10_2.
Proof.
  assert (H1 : reachable [1; 0] Session2.wr_sig10).
  { apply (reach_call [1; 0] Session2.wr_src1 (CallSignalDef Session2.signal_10) JLS_SUCCESS).
    - exact reach_wr_src1.
    - vm_compute. repeat split; discriminate.
    - exact wr_sig10_eq. }
  apply (reach_call [1; 0] Session2.wr_sig10 (CallSignalDef Session.signal_2) JLS_SUCCESS).
  - exact H1.
  - vm_compute. repeat split; discriminate.
  - exact wr_sig10_2_eq.
Qed.

Lemma wr_sig255_eq :
  jls_wr_signal_def Session2.signal_255 Session2.wr_src1
  = Some (JLS_SUCCESS, Session2.wr_sig255).
Proof. vm_compute. reflexivity. Qed.

Lemma reach_wr_sig255 : reachable [1; 0] Session2.wr_sig255.
Proof.
  apply (reach_call [1; 0] Session2.wr_src1 (CallSignalDef Session2.signal_255) JLS_SUCCESS).
  - exact reach_wr_src1.
  - vm_compute. repeat split; discriminate.
  - exact wr_sig255_eq.
Qed.

(** ** Duplicate sources, links, samples on a VSR signal *)

(** C7: in a writer reached from [jls_wr_open] by any calls, a source
    definition with the id of a source already defined (id 0 of the open
    included) returns AlreadyExists and leaves the writer as it was: no
    chunk is written and the first definition stays. *)
Theorem source_def_already_exists (defs : list Z) (s : jls_wr_s) (source : jls_source_def_s) :
  reachable defs s -> In (src_source_id source) defs ->
  jls_wr_source_def source s = Some (JLS_ERROR_ALREADY_EXISTS, s).
Proof.
  intros Hr Hin. destruct (reachable_sources defs s Hr _ Hin) as [Hlt Hoff].
  unfold jls_wr_source_def. rewrite bind_get_st. cbv zeta.
  apply Z.leb_gt in Hlt. rewrite Hlt.
  apply Z.eqb_neq in Hoff. rewrite Hoff. reflexivity.
Qed.

Lemma source_def_already_exists_witness :
  jls_wr_source_def SOURCE_0 Session.wr_opened
  = Some (JLS_ERROR_ALREADY_EXISTS, Session.wr_opened).
Proof.
  assert (Hopen : jls_wr_open [0] = Some (JLS_SUCCESS, Session.wr_opened))
    by (vm_compute; reflexivity).
  apply (source_def_already_exists [0] Session.wr_opened SOURCE_0).
  - exact (reach_open [0] Session.wr_opened Hopen).
  - simpl. left. reflexivity.
Defined.

(** X22: in the file of a writer reached from [jls_wr_open] by any calls,
    a chunk whose [item_next] is not 0 points to a chunk whose
    [item_prev] points back and which is in the same list.  The calls
    are those with a defined result: a call of [jls_wr_fsr_f32] that
    carries samples has none. *)
Theorem writer_links_ok (defs : list Z) (s : jls_wr_s) :
  reachable defs s -> links_ok (snd (jls_wr_close s)).
Proof. intros Hr. exact (inv_links s (reachable_inv defs s Hr)). Qed.

Lemma writer_links_ok_witness : links_ok (snd (jls_wr_close Session.wr_opened)).
Proof.
  assert (Hopen : jls_wr_open [0] = Some (JLS_SUCCESS, Session.wr_opened))
    by (vm_compute; reflexivity).
  exact (writer_links_ok [0] Session.wr_opened (reach_open [0] Session.wr_opened Hopen)).
Defined.

(** C9: source 1, signal 10 with a name of 57 characters and the VSR
    signal 2 are defined; the links of the file hold.  Then one sample is
    written to signal 2: [signal_validate] lets the call through, the
    chunk header takes [item_prev] from [tracks[info->track_type]] with
    [track_type] = 0x2a, which is no index of [tracks[4]], and the call
    has no defined result: no writer and no file are left in which the
    links hold. *)
Theorem sample_write_out_of_tracks :
  let s := Session2.wr_sig10_2 in
  reachable [1; 0] s
  /\ links_ok (snd (jls_wr_close s))
  /\ signal_validate 2 s = Some (JLS_SUCCESS, s)
  /\ track_type (get_info s 2) = 0x2a
  /\ track_index_ok (track_type (get_info s 2)) = false
  /\ wr_exec (CallFsrF32 2 0 [7] 1) s = None.
Proof.
  cbv zeta. split; [exact reach_wr_sig10_2|].
  split; [exact (inv_links _ (reachable_inv _ _ reach_wr_sig10_2))|].
  split; [vm_compute; reflexivity|]. split; [vm_compute; reflexivity|].
  split; vm_compute; reflexivity.
Qed.

(** C10: in a writer reached from [jls_wr_open] by any calls, signal 0 is
    a defined VSR signal, and for every defined VSR signal
    [signal_validate] returns success and [jls_wr_fsr_f32] does not stop
    there, where [jls_wr_fsr_utc] and [jls_wr_fsr_annotation] return
    NotSupported and leave the writer as it was: with no sample the call
    returns success and has done nothing; with samples it goes on to
    [tracks[info->track_type]] with the tag 0x2a as the index and has no
    defined result, so no sample is written to the track of the signal. *)
Theorem fsr_f32_on_vsr (defs : list Z) (s : jls_wr_s) :
  reachable defs s ->
  (offset (chunk_def (get_info s 0)) <> 0
   /\ signal_type (signal_def (get_info s 0)) = JLS_SIGNAL_TYPE_VSR)
  /\ forall id, 0 <= id < JLS_SIGNAL_COUNT ->
       offset (chunk_def (get_info s id)) <> 0 ->
       signal_type (signal_def (get_info s id)) = JLS_SIGNAL_TYPE_VSR ->
       forall sample_id data,
         signal_validate id s = Some (JLS_SUCCESS, s)
         /\ jls_wr_fsr_f32 id sample_id data 0 s = Some (JLS_SUCCESS, s)
         /\ track_type (get_info s id) = JLS_TAG_TRACK_VSR_DATA
         /\ track_index_ok JLS_TAG_TRACK_VSR_DATA = false
         /\ (forall n, n <> 0 -> jls_wr_fsr_f32 id sample_id data n s = None)
         /\ (forall utc,
               jls_wr_fsr_utc id sample_id utc s = Some (JLS_ERROR_NOT_SUPPORTED, s))
         /\ (forall annotation_type storage_type d data_size,
               jls_wr_fsr_annotation id sample_id annotation_type storage_type d data_size s
               = Some (JLS_ERROR_NOT_SUPPORTED, s)).
Proof.
  intros Hr. split; [exact (reachable_signal_0 defs s Hr)|].
  intros id Hid Hdef Hty sample_id data.
  pose proof (reachable_inv defs s Hr) as Hinv.
  assert (E1 : (JLS_SIGNAL_COUNT <=? id) = false) by (apply Z.leb_gt; lia).
  assert (E2 : (offset (chunk_def (get_info s id)) =? 0) = false)
    by (apply Z.eqb_neq; exact Hdef).
  assert (Hv : signal_validate_typed id JLS_SIGNAL_TYPE_FSR s
               = Some (JLS_ERROR_NOT_SUPPORTED, s)).
  { rewrite signal_validate_typed_result, E1, E2, Hty. reflexivity. }
  assert (Htt : track_type (get_info s id) = JLS_TAG_TRACK_VSR_DATA).
  { destruct (inv_tags s Hinv id Hdef) as [_ [[Hf _]|[_ Ht]]]; [|exact Ht].
    rewrite Hty in Hf. discriminate. }
  split; [|split; [|split; [|split; [|split; [|split]]]]].
  - rewrite signal_validate_result, E1, E2. reflexivity.
  - unfold jls_wr_fsr_f32. erewrite bind_eq by apply signal_validate_result.
    rewrite E1, E2. change (is_ok JLS_SUCCESS) with true. cbv iota.
    rewrite bind_get_st, fsr_f32_loop_eq. reflexivity.
  - exact Htt.
  - reflexivity.
  - intros n Hn. apply fsr_f32_out_of_bounds; [lia|exact Hdef| |exact Hn].
    rewrite Htt. reflexivity.
  - intros utc. unfold jls_wr_fsr_utc. erewrite bind_eq by exact Hv. reflexivity.
  - intros a st d m. unfold jls_wr_fsr_annotation. erewrite bind_eq by exact Hv. reflexivity.
Qed.

Lemma fsr_f32_on_vsr_witness :
  let s := Session2.wr_sig255 in
  signal_validate 255 s = Some (JLS_SUCCESS, s)
  /\ jls_wr_fsr_f32 255 0 [7] 0 s = Some (JLS_SUCCESS, s)
  /\ jls_wr_fsr_f32 255 0 [7] 1 s = None
  /\ jls_wr_fsr_utc 255 0 0 s = Some (JLS_ERROR_NOT_SUPPORTED, s).
Proof.
  destruct (fsr_f32_on_vsr [1; 0] Session2.wr_sig255 reach_wr_sig255) as [_ Hall].
  assert (Hid : 0 <= 255 < JLS_SIGNAL_COUNT) by (vm_compute; split; [discriminate|reflexivity]).
  assert (Hdef : offset (chunk_def (get_info Session2.wr_sig255 255)) <> 0)
    by (vm_compute; discriminate).
  assert (Hty : signal_type (signal_def (get_info Session2.wr_sig255 255))
                = JLS_SIGNAL_TYPE_VSR) by (vm_compute; reflexivity).
  destruct (Hall 255 Hid Hdef Hty 0 [7]) as (Hv & H0 & _ & _ & Hn & Hutc & _).
  cbv zeta. split; [exact Hv|]. split; [exact H0|].
  split; [apply Hn; discriminate|apply Hutc].
Defined.

(** ** Sessions: what the reader gets back from the writer *)

Import Session.

(** C1: after the definitions of the session, [jls_wr_fsr_f32] with
    10000 samples for the FSR signal 1 fills the sample buffer and then
    indexes [tracks] with [info->track_type], the tag 0x22: no index of
    [tracks[4]].  The call has no defined result, and so has every call
    that carries samples to the signal: no file comes out of the session
    for the reader to open.  With [track_type] the index of the FSR
    track the call writes the data chunk, and the reader of the closed
    file gets success and 0 samples, not 10000, from [jls_rd_fsr_length]
    and NotFound and no sample from [jls_rd_fsr_f32]: the head of the
    track is not written again. *)
Theorem fsr_round_trip_lost (samples0 : Z) :
  (wr_defined = Some (JLS_SUCCESS, Session2.wr_sig2)
   /\ track_type (get_info Session2.wr_sig2 1) = JLS_TAG_TRACK_FSR_DATA
   /\ track_index_ok JLS_TAG_TRACK_FSR_DATA = false
   /\ jls_wr_fsr_f32 1 0 (ramp 10000) 10000 Session2.wr_sig2 = None
   /\ (forall sample_id data n,
         n = 0 \/ jls_wr_fsr_f32 1 sample_id data n Session2.wr_sig2 = None)
   /\ wr_file 10000 = None
   /\ rd_file 10000 = None)
  /\ match Session2.rd_indexed 10000 with
     | Some (JLS_SUCCESS, s) =>
         option_map fst (Reader.jls_rd_fsr_length 1 samples0 s) = Some (JLS_SUCCESS, 0)
         /\ option_map fst (Reader.jls_rd_fsr_f32 64 1 0 10000 s)
            = Some (JLS_ERROR_NOT_FOUND, [])
     | _ => False
     end.
Proof.
  split; [|vm_compute; split; reflexivity].
  split; [vm_compute; reflexivity|]. split; [vm_compute; reflexivity|].
  split; [reflexivity|]. split; [vm_compute; reflexivity|].
  split; [|split; vm_compute; reflexivity].
  intros sample_id data n. destruct (Z.eq_dec n 0) as [Hn|Hn]; [left; exact Hn|right].
  apply fsr_f32_out_of_bounds; [reflexivity| | |exact Hn].
  - vm_compute. discriminate.
  - vm_compute. reflexivity.
Qed.

(** C2: 20000 samples in one call to signal 1, whose buffer takes 10000:
    the call fills the buffer, indexes [tracks] with the tag 0x22 and has
    no defined result.  With [track_type] the index of the FSR track the
    call returns success after one data chunk, with the first 10000
    samples in the buffer and the other 10000 nowhere. *)
Theorem fsr_f32_returns_after_first_chunk :
  (track_type (get_info Session2.wr_sig2 1) = JLS_TAG_TRACK_FSR_DATA
   /\ track_index_ok JLS_TAG_TRACK_FSR_DATA = false
   /\ jls_wr_fsr_f32 1 0 (ramp 20000) 20000 Session2.wr_sig2 = None)
  /\ match jls_wr_fsr_f32 1 0 (ramp 20000) 20000 Session2.wr_indexed with
     | Some (rc, s') =>
         rc = JLS_SUCCESS
         /\ size (chunks (raw s')) = S (size (chunks (raw Session2.wr_indexed)))
         /\ option_map sb_data (sample_buffer (get_info s' 1)) = Some (ramp 10000)
     | None => False
     end.
Proof.
  split.
  - split; [vm_compute; reflexivity|]. split; [reflexivity|vm_compute; reflexivity].
  - vm_compute. repeat split; reflexivity.
Qed.

(** X23: in a writer reached from [jls_wr_open] by any calls, a call of
    [jls_wr_fsr_f32] for a defined signal with [data_length] other than 0
    gets past [signal_validate], copies into the sample buffer until it
    is full and then indexes [tracks] with [info->track_type], which
    [jls_wr_signal_def] has set to a tag: no index of [tracks[4]].  The
    call has no defined result, whatever the samples and their number. *)
Theorem fsr_f32_samples_undefined (defs : list Z) (s : jls_wr_s) (id sample_id : Z)
    (data : list Z) (n : Z) :
  reachable defs s -> 0 <= id < JLS_SIGNAL_COUNT ->
  offset (chunk_def (get_info s id)) <> 0 -> n <> 0 ->
  signal_validate id s = Some (JLS_SUCCESS, s)
  /\ (track_type (get_info s id) = JLS_TAG_TRACK_FSR_DATA
      \/ track_type (get_info s id) = JLS_TAG_TRACK_VSR_DATA)
  /\ track_index_ok (track_type (get_info s id)) = false
  /\ jls_wr_fsr_f32 id sample_id data n s = None.
Proof.
  intros Hr Hid Hdef Hn. pose proof (reachable_inv defs s Hr) as Hinv.
  pose proof (defined_track_type s id Hinv Hdef) as Hty.
  split; [|split; [|split; [exact Hty|]]].
  - rewrite signal_validate_result.
    assert (E1 : (JLS_SIGNAL_COUNT <=? id) = false) by (apply Z.leb_gt; lia).
    assert (E2 : (offset (chunk_def (get_info s id)) =? 0) = false)
      by (apply Z.eqb_neq; exact Hdef).
    rewrite E1, E2. reflexivity.
  - destruct (inv_tags s Hinv id Hdef) as [_ [[_ H]|[_ H]]]; [left|right]; exact H.
  - apply fsr_f32_out_of_bounds; [lia|exact Hdef|exact Hty|exact Hn].
Qed.

Lemma fsr_f32_samples_undefined_witness :
  jls_wr_fsr_f32 1 0 [7; 8; 9] 3 Session2.wr_sig2 = None.
Proof.
  assert (Hid : 0 <= 1 < JLS_SIGNAL_COUNT) by (vm_compute; split; [discriminate|reflexivity]).
  assert (Hdef : offset (chunk_def (get_info Session2.wr_sig2 1)) <> 0)
    by (vm_compute; discriminate).
  assert (Hn : 3 <> 0) by discriminate.
  exact (proj2 (proj2 (proj2
    (fsr_f32_samples_undefined [1; 0] Session2.wr_sig2 1 0 [7; 8; 9] 3
       reach_wr_sig2 Hid Hdef Hn)))).
Defined.

(** C3: the three signal definitions of the session are written and the
    file is read back: the names come back without their first four
    characters, [entries_per_summary] comes back as 0 and
    [samples_per_data] as the written [summary_decimate_factor]. *)
Theorem signal_defs_round_trip_differs :
  match rd_file 0 with
  | Some (JLS_SUCCESS, s) =>
      let back := snd (Reader.jls_rd_signals s) in
      let written := [SIGNAL_0 [0]; signal_1; signal_2] in
      map name back = [lit "al_annotation_signal"; lit "ormance_1"; lit "ts"]
      /\ map name written
         = [lit "global_annotation_signal"; lit "performance_1"; lit "events"]
      /\ map entries_per_summary back = [0; 0; 0]
      /\ map entries_per_summary written = [10000; 1000; 1000]
      /\ map samples_per_data back = map summary_decimate_factor written
  | _ => False
  end.
Proof. vm_compute. repeat split; reflexivity. Qed.

(** the source definitions of the same session come back as written *)
Example source_defs_round_trip :
  match rd_file 0 with
  | Some (JLS_SUCCESS, s) => snd (Reader.jls_rd_sources s) = [SOURCE_0; source_1]
  | _ => False
  end.
Proof. vm_compute. reflexivity. Qed.

(** C4: in a file whose level-1 index chunk has one entry, the offset 483
    of a data chunk of samples 0 to 9, [seek] to sample 5 takes the
    entry; to sample 10 it computes index 1 and takes the 8 bytes after
    the entry, left in the buffer by an earlier chunk; to sample -10 it
    computes index -1 and takes the entry count as the offset; to sample
    -30 it reads before the payload buffer. *)
Theorem seek_index_not_clamped :
  match Reader.jls_rd_open 64 index_file with
  | Some (JLS_SUCCESS, s) =>
      rc_pos (Reader.seek 1 0 5 s) = Some (JLS_SUCCESS, 483)
      /\ Reader.seek_idx 10 0 10 = 1
      /\ rc_pos (Reader.seek 1 0 10 s) = Some (JLS_SUCCESS, 0)
      /\ Reader.seek_idx (-10) 0 10 = -1
      /\ rc_pos (Reader.seek 1 0 (-10) s) = Some (JLS_SUCCESS, 1)
      /\ Reader.seek_idx (-30) 0 10 = -3
      /\ Reader.seek 1 0 (-30) s = None
  | _ => False
  end.
Proof. vm_compute. repeat split; reflexivity. Qed.

(** the same file read in range: the length and the samples 3 to 7 *)
Example index_file_reads :
  match Reader.jls_rd_open 64 index_file with
  | Some (JLS_SUCCESS, s) =>
      option_map fst (Reader.jls_rd_fsr_length 1 0 s) = Some (JLS_SUCCESS, 10)
      /\ option_map fst (Reader.jls_rd_fsr_f32 8 1 3 5 s) = Some (JLS_SUCCESS, [3; 4; 5; 6; 7])
  | _ => False
  end.
Proof. vm_compute. split; reflexivity. Qed.

(** * More of the code *)

(** * More of the writer and the reader *)

(** ** Integers in a payload *)

Lemma lor_shiftl_8 b v : 0 <= b < 256 -> Z.lor b (Z.shiftl v 8) = b + 256 * v.
Proof.
  intros Hb.
  assert (H0 : Z.land b (Z.shiftl v 8) = 0).
  { apply Z.bits_inj'. intros n Hn. rewrite Z.land_spec, Z.bits_0.
    destruct (Z.lt_ge_cases n 8) as [Hlt|Hge].
    - rewrite (Z.shiftl_spec_low v 8 n) by lia. apply andb_false_r.
    - assert (Hbit : Z.testbit b n = false).
      { destruct (Z.eq_dec b 0) as [->|Hnz]; [apply Z.bits_0|].
        apply Z.bits_above_log2; [lia|].
        apply Z.lt_le_trans with 8; [|exact Hge].
        apply Z.log2_lt_pow2; lia. }
      rewrite Hbit. reflexivity. }
  rewrite <- Z.lxor_lor, <- Z.add_nocarry_lxor by exact H0.
  rewrite Z.shiftl_mul_pow2 by lia. lia.
Qed.

Lemma land_255 x : Z.land x 255 = x mod 256.
Proof. change 255 with (Z.ones 8). rewrite Z.land_ones by lia. reflexivity. Qed.

(** the little-endian bytes of a value decode to the value, as far as
    the bytes go *)
Lemma le_value_le_bytes (w : nat) (x : Z) :
  le_value (le_bytes w x) = x mod 2 ^ (8 * Z.of_nat w).
Proof.
  revert x. induction w as [|w IH]; intros x.
  - simpl. rewrite Z.mod_1_r. reflexivity.
  - change (le_bytes (S w) x) with (Z.land x 255 :: le_bytes w (Z.shiftr x 8)).
    change (le_value (Z.land x 255 :: le_bytes w (Z.shiftr x 8)))
      with (Z.lor (Z.land x 255) (Z.shiftl (le_value (le_bytes w (Z.shiftr x 8))) 8)).
    rewrite IH, land_255, lor_shiftl_8 by (apply Z.mod_pos_bound; lia).
    rewrite Z.shiftr_div_pow2 by lia.
    replace (8 * Z.of_nat (S w)) with (8 + 8 * Z.of_nat w) by lia.
    rewrite Z.pow_add_r by lia. change (2 ^ 8) with 256.
    rewrite Z.rem_mul_r by lia. reflexivity.
Qed.

Lemma zlen_le_bytes' w x : length (le_bytes w x) = w.
Proof. revert x. induction w as [|w IH]; intros x; simpl; [reflexivity|]. rewrite IH. reflexivity. Qed.

(** what the reader finds at a distance from [payload.start] *)
Lemma mem_at_middle (p : Reader.payload_s) (pre post : list Z) (b : Z) :
  Reader.p_mem p = pre ++ b :: post -> zlen pre < Reader.alloc_size p ->
  Reader.mem_at p (zlen pre) = Some b.
Proof.
  intros Hm Ha. unfold Reader.mem_at.
  pose proof (zlen_nonneg pre) as Hp.
  destruct (Z.ltb_spec (zlen pre) 0); [lia|].
  destruct (Z.leb_spec (Reader.alloc_size p) (zlen pre)); [lia|].
  simpl orb. cbv iota. rewrite Hm. unfold zlen. rewrite Nat2Z.id.
  apply list_lookup_middle. reflexivity.
Qed.

Lemma mem_bytes_middle (p : Reader.payload_s) (bs pre post : list Z) :
  Reader.p_mem p = pre ++ bs ++ post -> zlen pre + zlen bs <= Reader.alloc_size p ->
  Reader.mem_bytes p (zlen pre) (length bs) = Some bs.
Proof.
  revert pre. induction bs as [|b bs IH]; intros pre Hm Ha; [reflexivity|].
  simpl Reader.mem_bytes.
  assert (Hlen : zlen (b :: bs) = 1 + zlen bs) by (unfold zlen; simpl length; lia).
  pose proof (zlen_nonneg bs) as Hbs.
  rewrite (mem_at_middle p pre (bs ++ post) b) by (try exact Hm; lia).
  replace (zlen pre + 1) with (zlen (pre ++ [b])) by (rewrite zlen_app; reflexivity).
  rewrite IH; [reflexivity| |].
  - rewrite Hm, <- app_assoc. reflexivity.
  - rewrite zlen_app. change (zlen [b]) with 1. lia.
Qed.

(** the three integer parsers on [w] bytes at the cursor: the value goes
    through [store] and the cursor moves past the bytes *)
Lemma payload_parse_uint_at (w : nat) (store : Z -> Reader.jls_rd_s -> Reader.jls_rd_s)
    (r : Reader.jls_rd_s) (bs pre post : list Z) :
  Reader.p_mem (Reader.payload r) = pre ++ bs ++ post -> length bs = w ->
  Reader.p_cur (Reader.payload r) = zlen pre ->
  zlen pre + Z.of_nat w <= Reader.p_length (Reader.payload r) ->
  Reader.p_length (Reader.payload r) <= Reader.alloc_size (Reader.payload r) ->
  Reader.payload_parse_uint w store r
  = Some (JLS_SUCCESS,
          Reader.set_payload
            (Reader.set_p_cur (zlen pre + Z.of_nat w)
               (Reader.payload (store (le_value bs) r)))
            (store (le_value bs) r)).
Proof.
  intros Hm Hw Hc Hl Ha. unfold Reader.payload_parse_uint, bind, get_st.
  rewrite Hc. destruct (Z.ltb_spec (Reader.p_length (Reader.payload r)) (zlen pre + Z.of_nat w));
    [lia|].
  subst w. rewrite (mem_bytes_middle _ bs pre post Hm) by (unfold zlen in *; lia).
  reflexivity.
Qed.

(** ** Strings in a payload *)

Lemma payload_parse_str_loop_eq fuel str store :
  Reader.payload_parse_str_loop fuel str store =
  (LET s <- get_st ;;
   let p := Reader.payload s in
   if Reader.p_cur p =? Reader.p_length p then
     DO modify (store None) ;; ret JLS_ERROR_EMPTY
   else match fuel with
   | O => undefined
   | S fuel' =>
     if Reader.STRINGS_CAPACITY <=? Reader.strings_cur s then undefined
     else match Reader.mem_at p (Reader.p_cur p) with
     | None => undefined
     | Some ch =>
       DO modify (fun s => Reader.set_strings_cur (Reader.strings_cur s + 1)
                             (Reader.set_payload (Reader.set_p_cur (Reader.p_cur p + 1) p) s)) ;;
       if ch =? 0 then
         match Reader.mem_at p (Reader.p_cur p + 1) with
         | None => undefined
         | Some nx =>
           DO (if nx =? 0x1f
               then modify (Reader.set_payload (Reader.set_p_cur (Reader.p_cur p + 2) p))
               else ret tt) ;;
           DO modify (store (Some (str ++ [0]))) ;;
           ret JLS_SUCCESS
         end
       else Reader.payload_parse_str_loop fuel' (str ++ [ch]) store
     end
   end)%c.
Proof. destruct fuel; reflexivity. Qed.


(** two reader states that differ from [r] in the two cursors only *)
Lemma rd_state_eq (r : Reader.jls_rd_s) (k k' c c' : Z) (r1 r2 : Reader.jls_rd_s) :
  r1 = Reader.set_strings_cur k (Reader.set_payload (Reader.set_p_cur c (Reader.payload r)) r) ->
  r2 = Reader.set_strings_cur k' (Reader.set_payload (Reader.set_p_cur c' (Reader.payload r)) r) ->
  k = k' -> c = c' -> r1 = r2.
Proof. intros -> -> -> ->. reflexivity. Qed.

(** the loop on the characters [cs], their terminator and the 0x1F after
    it *)
Lemma payload_parse_str_loop_chars (cs : list Z) :
  Forall (fun c => c <> 0) cs ->
  forall (fuel : nat) (str pre post : list Z) store (r : Reader.jls_rd_s),
  Reader.p_mem (Reader.payload r) = pre ++ (cs ++ [0; 0x1f]) ++ post ->
  Reader.p_cur (Reader.payload r) = zlen pre ->
  zlen pre + zlen cs < Reader.p_length (Reader.payload r) ->
  zlen pre + zlen cs + 2 <= Reader.alloc_size (Reader.payload r) ->
  Reader.strings_cur r + zlen cs < Reader.STRINGS_CAPACITY ->
  (length cs < fuel)%nat ->
  Reader.payload_parse_str_loop fuel str store r
  = Some (JLS_SUCCESS, store (Some (str ++ cs ++ [0])) (Codec.str_parsed (zlen cs) r)).
Proof.
  induction 1 as [|c cs Hc Hcs IH]; intros fuel str pre post store r Hm Hcur Hl Ha Hs Hf;
    (destruct fuel as [|fuel]; [simpl in Hf; lia|]);
    rewrite payload_parse_str_loop_eq; unfold bind at 1, get_st; cbv zeta.
  - change (zlen []) with 0 in *.
    destruct (Z.eqb_spec (Reader.p_cur (Reader.payload r)) (Reader.p_length (Reader.payload r)));
      [lia|].
    destruct (Z.leb_spec Reader.STRINGS_CAPACITY (Reader.strings_cur r)); [lia|].
    rewrite Hcur.
    rewrite (mem_at_middle _ pre ([0x1f] ++ post) 0) by (try exact Hm; lia).
    replace (zlen pre + 1) with (zlen (pre ++ [0])) by (rewrite zlen_app; reflexivity).
    rewrite (mem_at_middle _ (pre ++ [0]) post 0x1f);
      [|rewrite Hm; simpl; rewrite <- app_assoc; reflexivity
       |rewrite zlen_app; change (zlen [0]) with 1; lia].
    unfold bind, modify, ret. simpl. apply f_equal, f_equal, f_equal.
    eapply (rd_state_eq r); [reflexivity|reflexivity|simpl; lia|simpl; rewrite ?Hcur; lia].
  - assert (Hlen : zlen (c :: cs) = 1 + zlen cs) by (unfold zlen; simpl length; lia).
    pose proof (zlen_nonneg cs) as Hn. rewrite Hlen in *.
    destruct (Z.eqb_spec (Reader.p_cur (Reader.payload r)) (Reader.p_length (Reader.payload r)));
      [lia|].
    destruct (Z.leb_spec Reader.STRINGS_CAPACITY (Reader.strings_cur r)); [lia|].
    rewrite Hcur.
    rewrite (mem_at_middle _ pre ((cs ++ [0; 0x1f]) ++ post) c) by (try exact Hm; lia).
    destruct (Z.eqb_spec c 0) as [->|_]; [congruence|].
    unfold bind at 1, modify.
    rewrite (IH fuel (str ++ [c]) (pre ++ [c]) post store).
    + rewrite <- app_assoc. apply f_equal, f_equal, f_equal.
      eapply (rd_state_eq r); [reflexivity|reflexivity|simpl; lia|simpl; rewrite ?Hcur; lia].
    + simpl. rewrite Hm, <- !app_assoc. reflexivity.
    + simpl. rewrite zlen_app. reflexivity.
    + simpl. rewrite zlen_app. change (zlen [c]) with 1. lia.
    + simpl. rewrite zlen_app. change (zlen [c]) with 1. lia.
    + simpl. lia.
    + simpl in Hf. lia.
Qed.

(** ** The writer's buffer functions and the reader's parsers *)

Lemma at_cursor_rd_with (bs : list Z) : Codec.at_cursor (Codec.rd_with bs) bs.
Proof.
  exists [], []. simpl. rewrite app_nil_r. change (zlen []) with 0.
  repeat split; try reflexivity; lia.
Qed.

(** X1: an integer written by [buf_wr_u8], [buf_wr_u16] or [buf_wr_u32]
    adds its 1, 2 or 4 bytes to the scratch buffer, and the parser of the
    same width of the reader, with these bytes at its cursor, stores the
    value (modulo its width) and moves the cursor past them. *)
Theorem buf_wr_uint_round_trip (k : Codec.uint_kind) (v : Z) (s s' : jls_wr_s) :
  Codec.buf_wr_uint k v s = Some (JLS_SUCCESS, s') ->
  exists bs,
    s' = set_buf (buf s ++ bs) s /\ length bs = Codec.uint_width k
    /\ forall r store, Codec.at_cursor r bs ->
         Codec.payload_parse_uint_of k store r
         = Some (JLS_SUCCESS,
                 Codec.cursor_past (Z.of_nat (Codec.uint_width k)) r
                   (store (v mod 2 ^ (8 * Z.of_nat (Codec.uint_width k))) r)).
Proof.
  intros H.
  assert (Hgen : forall w bs, length bs = w -> le_value bs = v mod 2 ^ (8 * Z.of_nat w) ->
            forall r store, Codec.at_cursor r bs ->
              Reader.payload_parse_uint w store r
              = Some (JLS_SUCCESS,
                      Codec.cursor_past (Z.of_nat w) r (store (v mod 2 ^ (8 * Z.of_nat w)) r))).
  { intros w bs Hw Hv r store (pre & post & Hm & Hc & Hl & Ha).
    rewrite (payload_parse_uint_at w store r bs pre post Hm Hw Hc);
      [|unfold zlen in *; lia|exact Ha].
    unfold Codec.cursor_past. rewrite Hv, Hc. reflexivity. }
  destruct k; simpl Codec.buf_wr_uint in H; simpl Codec.uint_width;
    simpl Codec.payload_parse_uint_of.
  - unfold buf_wr_u8 in H. rewrite bind_get_st in H.
    destruct (BUFFER_SIZE <=? zlen (buf s)); [discriminate|].
    injection H as <-. exists [u8 v]. split; [reflexivity|]. split; [reflexivity|].
    apply (Hgen 1%nat); [reflexivity|].
    change (le_value [u8 v]) with (Z.lor (u8 v) (Z.shiftl 0 8)).
    rewrite lor_shiftl_8 by (apply Z.mod_pos_bound; reflexivity).
    unfold u8. change (2 ^ (8 * Z.of_nat 1)) with 256. change (2 ^ 8) with 256. lia.
  - unfold buf_wr_u16 in H. rewrite bind_get_st in H.
    destruct (BUFFER_SIZE <=? zlen (buf s) + 1); [discriminate|].
    injection H as <-. eexists. split; [reflexivity|]. split; [reflexivity|].
    apply (Hgen 2%nat); [reflexivity|].
    change 0xff with 255.
    change [Z.land (u16 v) 255; Z.land (Z.shiftr (u16 v) 8) 255] with (le_bytes 2 (u16 v)).
    rewrite le_value_le_bytes. unfold u16. apply Z.mod_mod. discriminate.
  - unfold buf_wr_u32 in H. rewrite bind_get_st in H.
    destruct (BUFFER_SIZE <=? zlen (buf s) + 3); [discriminate|]. cbv zeta in H.
    injection H as <-. eexists. split; [reflexivity|]. split; [reflexivity|].
    apply (Hgen 4%nat); [reflexivity|].
    change 0xff with 255.
    replace (Z.shiftr (u32 v) 16) with (Z.shiftr (Z.shiftr (u32 v) 8) 8)
      by (rewrite Z.shiftr_shiftr by lia; reflexivity).
    replace (Z.shiftr (u32 v) 24) with (Z.shiftr (Z.shiftr (Z.shiftr (u32 v) 8) 8) 8)
      by (rewrite !Z.shiftr_shiftr by lia; reflexivity).
    change [Z.land (u32 v) 255; Z.land (Z.shiftr (u32 v) 8) 255;
            Z.land (Z.shiftr (Z.shiftr (u32 v) 8) 8) 255;
            Z.land (Z.shiftr (Z.shiftr (Z.shiftr (u32 v) 8) 8) 8) 255]
      with (le_bytes 4 (u32 v)).
    rewrite le_value_le_bytes. unfold u32. apply Z.mod_mod. discriminate.
Qed.

Lemma buf_wr_uint_round_trip_witness :
  exists bs,
    set_buf [0x78; 0x56; 0x34; 0x12] Codec.wr_blank = set_buf ([] ++ bs) Codec.wr_blank
    /\ length bs = 4%nat
    /\ forall r store, Codec.at_cursor r bs ->
         Reader.payload_parse_u32 store r
         = Some (JLS_SUCCESS, Codec.cursor_past 4 r (store (0x12345678 mod 2 ^ 32) r)).
Proof.
  apply (buf_wr_uint_round_trip Codec.U32 0x12345678 Codec.wr_blank
           (set_buf [0x78; 0x56; 0x34; 0x12] Codec.wr_blank)).
  vm_compute. reflexivity.
Defined.

(** a string that does not fit: the loop stops with the buffer two bytes
    short of full, the characters copied so far in it *)
Lemma buf_add_str_loop_full (cs rest b : list Z) :
  Forall (fun c => c <> 0) cs ->
  BUFFER_SIZE < zlen b + zlen cs + 2 ->
  buf_add_str_loop (cs ++ 0 :: rest) b
  = Some (JLS_ERROR_NOT_ENOUGH_MEMORY,
          b ++ firstn (Z.to_nat (BUFFER_SIZE - 2 - zlen b)) cs).
Proof.
  intros Hnz. revert b. induction Hnz as [|c cs Hc Hcs IH]; intros b Hsz.
  - change (zlen []) with 0 in Hsz. simpl app.
    rewrite buf_add_str_loop_cons.
    destruct (Z.ltb_spec (zlen b) (BUFFER_SIZE - 2)); [lia|].
    rewrite firstn_nil, app_nil_r. reflexivity.
  - assert (Hlen : zlen (c :: cs) = 1 + zlen cs) by (unfold zlen; simpl length; lia).
    pose proof (zlen_nonneg cs) as Hn. rewrite Hlen in Hsz.
    rewrite <- app_comm_cons, buf_add_str_loop_cons.
    destruct (Z.ltb_spec (zlen b) (BUFFER_SIZE - 2)) as [Hlt|Hge].
    + assert (Hnext : exists d m, cs ++ 0 :: rest = d :: m /\ d <> 0).
      { destruct cs as [|d cs'].
        - change (zlen []) with 0 in Hsz. lia.
        - exists d, (cs' ++ 0 :: rest). split; [reflexivity|].
          inversion Hcs; assumption. }
      destruct Hnext as (d & m & Hdm & Hd). rewrite Hdm.
      destruct (Z.eqb_spec d 0); [congruence|]. rewrite <- Hdm.
      rewrite IH by (rewrite zlen_app; change (zlen [c]) with 1; lia).
      rewrite zlen_app. change (zlen [c]) with 1.
      replace (Z.to_nat (BUFFER_SIZE - 2 - zlen b))
        with (S (Z.to_nat (BUFFER_SIZE - 2 - (zlen b + 1)))) by lia.
      simpl firstn. rewrite <- app_assoc. reflexivity.
    + replace (Z.to_nat (BUFFER_SIZE - 2 - zlen b)) with O by lia.
      simpl firstn. rewrite app_nil_r.
      destruct (cs ++ 0 :: rest); reflexivity.
Qed.

(** X2: [buf_add_str] on a C string that is not empty: when the
    characters and the two terminator bytes fit in the scratch buffer they
    are appended and the result is success; when they do not fit the result
    is NotEnoughMemory, with the characters copied until two bytes were
    left. *)
Theorem buf_add_str_nonempty (cs rest : list Z) (s : jls_wr_s) :
  cs <> [] -> Forall (fun c => c <> 0) cs ->
  buf_add_str (Some (cs ++ 0 :: rest)) s
  = if zlen (buf s) + zlen cs + 2 <=? BUFFER_SIZE
    then Some (JLS_SUCCESS, set_buf (buf s ++ cs ++ [0; 0x1f]) s)
    else Some (JLS_ERROR_NOT_ENOUGH_MEMORY,
               set_buf (buf s ++ firstn (Z.to_nat (BUFFER_SIZE - 2 - zlen (buf s))) cs) s).
Proof.
  intros Hne Hnz. unfold buf_add_str. simpl default.
  destruct (Z.leb_spec (zlen (buf s) + zlen cs + 2) BUFFER_SIZE) as [Hfit|Hfull].
  - rewrite buf_add_str_loop_chars by assumption. reflexivity.
  - rewrite buf_add_str_loop_full by assumption. reflexivity.
Qed.

Lemma buf_add_str_nonempty_witness :
  buf_add_str (lit "jls"%string) Codec.wr_blank
  = Some (JLS_SUCCESS, set_buf [106; 108; 115; 0; 0x1f] Codec.wr_blank).
Proof.
  apply (buf_add_str_nonempty [106; 108; 115] [] Codec.wr_blank).
  - discriminate.
  - repeat constructor; discriminate.
Defined.

(** X3: the bytes [buf_add_str] appends for a string that is not empty
    and fits, at the cursor of the reader: [payload_parse_str] returns
    success, stores the characters with their terminator and leaves the
    cursor after the 0x1F. *)
Theorem buf_add_str_parse_round_trip (cs rest : list Z) (s : jls_wr_s) :
  cs <> [] -> Forall (fun c => c <> 0) cs ->
  zlen (buf s) + zlen cs + 2 <= BUFFER_SIZE ->
  exists bs,
    buf_add_str (Some (cs ++ 0 :: rest)) s = Some (JLS_SUCCESS, set_buf (buf s ++ bs) s)
    /\ forall r store,
         Codec.at_cursor r bs ->
         Reader.strings_cur r + zlen cs < Reader.STRINGS_CAPACITY ->
         Reader.payload_parse_str store r
         = Some (JLS_SUCCESS, store (Some (cs ++ [0])) (Codec.str_parsed (zlen cs) r)).
Proof.
  intros Hne Hnz Hfit. exists (cs ++ [0; 0x1f]). split.
  - unfold buf_add_str. simpl default.
    rewrite buf_add_str_loop_chars by assumption. reflexivity.
  - intros r store (pre & post & Hm & Hc & Hl & Ha) Hs.
    rewrite zlen_app in Hl. change (zlen [0; 0x1f]) with 2 in Hl.
    unfold Reader.payload_parse_str, bind at 1, get_st.
    rewrite (payload_parse_str_loop_chars cs Hnz _ [] pre post store r Hm Hc);
      [reflexivity|lia|lia|exact Hs|].
    rewrite Hm, !length_app. lia.
Qed.

Lemma buf_add_str_parse_round_trip_witness :
  exists bs,
    buf_add_str (lit "jls"%string) Codec.wr_blank
    = Some (JLS_SUCCESS, set_buf ([] ++ bs) Codec.wr_blank)
    /\ forall r store,
         Codec.at_cursor r bs ->
         Reader.strings_cur r + 3 < Reader.STRINGS_CAPACITY ->
         Reader.payload_parse_str store r
         = Some (JLS_SUCCESS, store (Some ([106; 108; 115] ++ [0])) (Codec.str_parsed 3 r)).
Proof.
  apply (buf_add_str_parse_round_trip [106; 108; 115] [] Codec.wr_blank).
  - discriminate.
  - repeat constructor; discriminate.
  - vm_compute. discriminate.
Defined.

(** ** Track tags *)

Lemma track_tag_cases (ty kind : Z) (P : Z -> Z -> Z -> Prop) :
  0 <= kind < 8 ->
  (forall t k, In t [0; 1; 2; 3] -> In k [0; 1; 2; 3; 4; 5; 6; 7] ->
               P t k (Z.lor (Z.lor 0x20 (Z.shiftl t 3)) k)) ->
  P (Z.land ty 3) kind (track_tag ty kind).
Proof.
  intros Hk HP. unfold track_tag. apply HP.
  - pose proof (land3_bound ty) as Hb. simpl.
    assert (Hc : Z.land ty 3 = 0 \/ Z.land ty 3 = 1 \/ Z.land ty 3 = 2 \/ Z.land ty 3 = 3)
      by lia.
    intuition auto.
  - simpl.
    assert (Hc : kind = 0 \/ kind = 1 \/ kind = 2 \/ kind = 3 \/ kind = 4 \/ kind = 5
                 \/ kind = 6 \/ kind = 7) by lia.
    intuition auto.
Qed.

(** X4: the tag the writer builds for a track chunk, [0x20 | ((track_type
    & 3) << 3) | kind], gives back the track type through the reader's
    [tag_parse_track_type] and the chunk kind through [tag & 7], and it is
    not one of the three tags of the definition and user-data chunks. *)
Theorem track_tag_round_trip (ty kind : Z) :
  0 <= kind < 8 ->
  Reader.tag_parse_track_type (track_tag ty kind) = Z.land ty 3
  /\ Z.land (track_tag ty kind) 7 = kind
  /\ 0x20 <= track_tag ty kind < 0x40.
Proof.
  intros Hk.
  apply (track_tag_cases ty kind
           (fun t k tg => Reader.tag_parse_track_type tg = t /\ Z.land tg 7 = k
                          /\ 0x20 <= tg < 0x40) Hk).
  intros t k Ht Hkk. simpl in Ht, Hkk.
  destruct Ht as [<- | [<- | [<- | [<- | []]]]];
    destruct Hkk as [<- | [<- | [<- | [<- | [<- | [<- | [<- | [<- | []]]]]]]]];
    vm_compute; repeat split; first [reflexivity | (intros HH; discriminate HH)].
Qed.

Lemma track_tag_round_trip_witness :
  Reader.tag_parse_track_type (track_tag JLS_TRACK_TYPE_UTC JLS_TRACK_CHUNK_HEAD)
  = Z.land JLS_TRACK_TYPE_UTC 3
  /\ Z.land (track_tag JLS_TRACK_TYPE_UTC JLS_TRACK_CHUNK_HEAD) 7 = JLS_TRACK_CHUNK_HEAD
  /\ 0x20 <= track_tag JLS_TRACK_TYPE_UTC JLS_TRACK_CHUNK_HEAD < 0x40.
Proof.
  apply (track_tag_round_trip JLS_TRACK_TYPE_UTC JLS_TRACK_CHUNK_HEAD).
  vm_compute. split; [intros HH; discriminate HH|reflexivity].
Defined.

(** ** Reading a chunk *)

Lemma grow_reaches (fuel : nat) (sz len : Z) :
  0 < sz -> len <= sz * 2 ^ Z.of_nat fuel -> len <= Reader.grow fuel sz len.
Proof.
  revert sz. induction fuel as [|fuel IH]; intros sz Hsz Hlen.
  - simpl in *. lia.
  - simpl Reader.grow. destruct (Z.ltb_spec sz len) as [Hlt|Hge]; [|exact Hge].
    apply IH; [lia|].
    rewrite Nat2Z.inj_succ, Z.pow_succ_r in Hlen by lia. lia.
Qed.

Lemma grow_ge (fuel : nat) (sz len : Z) : 0 < sz -> sz <= Reader.grow fuel sz len.
Proof.
  revert sz. induction fuel as [|fuel IH]; intros sz Hsz; simpl; [lia|].
  destruct (sz <? len); [|lia]. specialize (IH (sz * 2)). lia.
Qed.

Lemma grow_S (fuel : nat) (sz len : Z) :
  Reader.grow (S fuel) sz len
  = if sz <? len then Reader.grow fuel (sz * 2) len else sz.
Proof. reflexivity. Qed.

Lemma rd_loop_S (fuel : nat) :
  Reader.rd_loop (S fuel) =
  (LET s <- get_st ;;
   let off := jls_raw_chunk_tell (Reader.raw s) in
   let '(rc, h, bytes, r) := jls_raw_rd (Reader.raw s) (Reader.alloc_size (Reader.payload s)) in
   match rc with
   | JLS_ERROR_TOO_BIG =>
       let sz_new := Reader.grow 64 (Reader.alloc_size (Reader.payload s)) (payload_length h) in
       DO modify (fun s => Reader.set_raw r (Reader.set_chunk_cur (Reader.mk_chunk h off)
                    (Reader.set_payload
                       (Reader.mk_payload (Reader.p_mem (Reader.payload s)) 0 0 sz_new) s))) ;;
       Reader.rd_loop fuel
   | JLS_SUCCESS =>
       DO modify (fun s => Reader.set_raw r (Reader.set_chunk_cur (Reader.mk_chunk h off)
                    (Reader.set_payload (Reader.mk_payload
                        (bytes ++ skipn (length bytes) (Reader.p_mem (Reader.payload s)))
                        0 (payload_length h) (Reader.alloc_size (Reader.payload s))) s))) ;;
       ret JLS_SUCCESS
   | _ =>
       DO modify (fun s => Reader.set_chunk_cur
                             (Reader.mk_chunk (Reader.hdr (Reader.chunk_cur s)) off) s) ;;
       ret rc
   end)%c.
Proof. reflexivity. Qed.

Lemma rd_chunk (r : Reader.jls_rd_s) (c : raw_chunk) :
  chunks (Reader.raw r) !! fpos (Reader.raw r) = Some c ->
  0 < Reader.alloc_size (Reader.payload r) ->
  payload_length (rc_hdr c) < 2 ^ 64 ->
  Reader.rd r
  = Some (JLS_SUCCESS,
          Codec.rd_done c (Reader.grow 64 (Reader.alloc_size (Reader.payload r))
                       (payload_length (rc_hdr c))) r).
Proof.
  intros Hc Ha Hl. unfold Reader.rd. rewrite rd_loop_S. unfold bind at 1, get_st.
  unfold jls_raw_rd at 1. rewrite Hc.
  set (g := Reader.grow 64 (Reader.alloc_size (Reader.payload r)) (payload_length (rc_hdr c))).
  destruct (Z.ltb_spec (Reader.alloc_size (Reader.payload r)) (payload_length (rc_hdr c)))
    as [Hbig|Hfit].
  - cbv zeta. unfold bind at 1, modify. rewrite rd_loop_S. unfold bind at 1, get_st.
    unfold jls_raw_rd. cbn [Reader.raw Reader.set_raw Reader.set_chunk_cur Reader.set_payload
                              chunks fpos Reader.payload Reader.alloc_size].
    rewrite Hc. fold g.
    assert (Hg : payload_length (rc_hdr c) <= g).
    { apply grow_reaches; [exact Ha|].
      assert (H64 : 2 ^ Z.of_nat 64 = 2 ^ 64) by reflexivity.
      rewrite H64. nia. }
    destruct (Z.ltb_spec g (payload_length (rc_hdr c))); [lia|].
    reflexivity.
  - assert (Hg : g = Reader.alloc_size (Reader.payload r)).
    { unfold g. rewrite grow_S.
      destruct (Z.ltb_spec (Reader.alloc_size (Reader.payload r)) (payload_length (rc_hdr c)));
        [lia|reflexivity]. }
    rewrite Hg. reflexivity.
Qed.

Lemma rd_no_chunk (r : Reader.jls_rd_s) :
  chunks (Reader.raw r) !! fpos (Reader.raw r) = None ->
  Reader.rd r
  = Some (JLS_ERROR_EMPTY,
          Reader.set_chunk_cur
            (Reader.mk_chunk (Reader.hdr (Reader.chunk_cur r)) (fpos (Reader.raw r))) r).
Proof.
  intros Hc. unfold Reader.rd. rewrite rd_loop_S. unfold bind at 1, get_st.
  unfold jls_raw_rd. rewrite Hc. reflexivity.
Qed.

(** X5: [rd] with a chunk at the reader's position, whatever the size of
    the payload allocation: it returns success, the chunk is the current
    chunk, its payload is at the cursor, and the position is after the
    chunk; with no chunk there it returns Empty and only notes the
    position. *)
Theorem rd_reads_chunk (r : Reader.jls_rd_s) :
  0 < Reader.alloc_size (Reader.payload r) ->
  match chunks (Reader.raw r) !! fpos (Reader.raw r) with
  | Some c =>
      zlen (rc_payload c) = payload_length (rc_hdr c) ->
      payload_length (rc_hdr c) < 2 ^ 32 ->
      exists r',
        Reader.rd r = Some (JLS_SUCCESS, r')
        /\ Reader.chunk_cur r' = Reader.mk_chunk (rc_hdr c) (fpos (Reader.raw r))
        /\ Codec.at_cursor r' (rc_payload c)
        /\ Reader.p_cur (Reader.payload r') = 0
        /\ Reader.p_length (Reader.payload r') = payload_length (rc_hdr c)
        /\ Reader.raw r'
           = mk_raw (chunks (Reader.raw r))
               (fpos (Reader.raw r) + chunk_size (payload_length (rc_hdr c)))
  | None =>
      Reader.rd r
      = Some (JLS_ERROR_EMPTY,
              Reader.set_chunk_cur
                (Reader.mk_chunk (Reader.hdr (Reader.chunk_cur r)) (fpos (Reader.raw r))) r)
  end.
Proof.
  intros Ha. destruct (chunks (Reader.raw r) !! fpos (Reader.raw r)) as [c|] eqn:Hc.
  - intros Hp Hl. eexists. split; [apply rd_chunk; [exact Hc|exact Ha|lia]|].
    split; [reflexivity|]. split; [|repeat split].
    exists [], (skipn (length (rc_payload c)) (Reader.p_mem (Reader.payload r))).
    split; [reflexivity|]. split; [reflexivity|].
    cbn [Codec.rd_done Reader.payload Reader.set_raw Reader.set_chunk_cur Reader.set_payload
           Reader.p_length Reader.alloc_size].
    change (zlen []) with 0. split; [lia|].
    destruct (Z.ltb_spec (Reader.alloc_size (Reader.payload r)) (payload_length (rc_hdr c))).
    + apply grow_reaches; [exact Ha|].
      assert (H64 : 2 ^ Z.of_nat 64 = 2 ^ 64) by reflexivity.
      rewrite H64. nia.
    + pose proof (grow_ge 64 (Reader.alloc_size (Reader.payload r))
                    (payload_length (rc_hdr c)) Ha). lia.
  - apply rd_no_chunk, Hc.
Qed.

Lemma rd_reads_chunk_witness :
  exists r',
    Reader.rd Codec.rd_small = Some (JLS_SUCCESS, r')
    /\ Reader.chunk_cur r' = Reader.mk_chunk (rc_hdr Codec.chunk_abc) FILE_HEADER_SIZE
    /\ Codec.at_cursor r' [97; 98; 99]
    /\ Reader.p_cur (Reader.payload r') = 0
    /\ Reader.p_length (Reader.payload r') = 3
    /\ Reader.raw r'
       = mk_raw (<[FILE_HEADER_SIZE := Codec.chunk_abc]> ∅) (FILE_HEADER_SIZE + chunk_size 3).
Proof.
  assert (Ha : 0 < Reader.alloc_size (Reader.payload Codec.rd_small)) by reflexivity.
  pose proof (rd_reads_chunk Codec.rd_small Ha) as W.
  change (chunks (Reader.raw Codec.rd_small) !! fpos (Reader.raw Codec.rd_small))
    with (Some Codec.chunk_abc) in W.
  apply W; reflexivity.
Defined.

(** ** User data *)

(** the reader after [rd_user_data] has accepted the chunk [c] at its
    position *)
Lemma rd_user_data_at (r : Reader.jls_rd_s) (c : raw_chunk) (ud : UserData.jls_rd_user_data_s) :
  chunks (Reader.raw r) !! fpos (Reader.raw r) = Some c ->
  0 < Reader.alloc_size (Reader.payload r) ->
  payload_length (rc_hdr c) < 2 ^ 64 ->
  tag (rc_hdr c) = JLS_TAG_USER_DATA ->
  let st := u8 (Z.land (Z.shiftr (chunk_meta (rc_hdr c)) 12) 0x0f) in
  st = JLS_STORAGE_TYPE_BINARY \/ st = JLS_STORAGE_TYPE_STRING \/ st = JLS_STORAGE_TYPE_JSON ->
  exists alloc,
    UserData.rd_user_data ud r
    = Some ((JLS_SUCCESS,
             UserData.mk_user_data (Z.land (chunk_meta (rc_hdr c)) 0x0fff) st
               (rc_payload c ++ skipn (length (rc_payload c)) (Reader.p_mem (Reader.payload r)))
               (payload_length (rc_hdr c))),
            Reader.set_user_data_cur (Reader.mk_chunk (rc_hdr c) (fpos (Reader.raw r)))
              (Codec.rd_done c alloc r))
    /\ 0 < alloc.
Proof.
  intros Hc Ha Hl Htag st Hst.
  exists (Reader.grow 64 (Reader.alloc_size (Reader.payload r)) (payload_length (rc_hdr c))).
  split; [|pose proof (grow_ge 64 _ (payload_length (rc_hdr c)) Ha); lia].
  unfold UserData.rd_user_data. erewrite bind_eq by (apply rd_chunk; eassumption).
  change (negb (is_ok JLS_SUCCESS)) with false. cbv iota.
  unfold bind at 1, get_st. cbv zeta.
  cbn [Codec.rd_done Reader.chunk_cur Reader.set_raw Reader.set_chunk_cur Reader.set_payload
         Reader.hdr Reader.payload Reader.p_mem].
  rewrite Htag. change (negb (JLS_TAG_USER_DATA =? JLS_TAG_USER_DATA)) with false. cbv iota.
  fold st.
  assert (Hok : (st =? JLS_STORAGE_TYPE_BINARY) || (st =? JLS_STORAGE_TYPE_STRING)
                || (st =? JLS_STORAGE_TYPE_JSON) = true).
  { destruct Hst as [-> | [-> | ->]]; reflexivity. }
  rewrite Hok. reflexivity.
Qed.

Lemma lor_shiftl_add (k b v : Z) :
  0 <= k -> 0 <= b < 2 ^ k -> Z.lor b (Z.shiftl v k) = b + v * 2 ^ k.
Proof.
  intros Hk Hb.
  assert (H0 : Z.land b (Z.shiftl v k) = 0).
  { apply Z.bits_inj'. intros n Hn. rewrite Z.land_spec, Z.bits_0.
    destruct (Z.lt_ge_cases n k) as [Hlt|Hge].
    - rewrite (Z.shiftl_spec_low v k n) by lia. apply andb_false_r.
    - assert (Hbit : Z.testbit b n = false).
      { destruct (Z.eq_dec b 0) as [->|Hnz]; [apply Z.bits_0|].
        apply Z.bits_above_log2; [lia|].
        apply Z.lt_le_trans with k; [|exact Hge].
        apply Z.log2_lt_pow2; lia. }
      rewrite Hbit. reflexivity. }
  rewrite <- Z.lxor_lor, <- Z.add_nocarry_lxor by exact H0.
  rewrite Z.shiftl_mul_pow2 by lia. reflexivity.
Qed.

Lemma land_0xfff_mod x : Z.land x 0x0fff = x mod 4096.
Proof. change 0x0fff with (Z.ones 12). rewrite Z.land_ones by lia. reflexivity. Qed.

(** the bits 12 to 15 of a 16-bit value *)
Lemma land_0xf000 x : 0 <= x < 2 ^ 16 -> Z.land x 0xf000 = (x / 4096) * 4096.
Proof.
  intros Hx. apply Z.bits_inj'. intros n Hn.
  rewrite Z.land_spec.
  replace ((x / 4096) * 4096) with (Z.shiftl (Z.shiftr x 12) 12)
    by (rewrite Z.shiftl_mul_pow2, Z.shiftr_div_pow2 by lia; reflexivity).
  change 0xf000 with (Z.shiftl (Z.ones 4) 12).
  destruct (Z.lt_ge_cases n 12) as [Hlt|Hge].
  - rewrite !Z.shiftl_spec_low by lia. apply andb_false_r.
  - rewrite !Z.shiftl_spec by lia. rewrite Z.shiftr_spec by lia.
    replace (n - 12 + 12) with n by lia.
    destruct (Z.lt_ge_cases (n - 12) 4) as [H4|H4].
    + rewrite Z.ones_spec_low by lia. apply andb_true_r.
    + rewrite Z.ones_spec_high by lia. rewrite andb_false_r.
      destruct (Z.eq_dec x 0) as [->|Hnz]; [symmetry; apply Z.bits_0|].
      symmetry. apply Z.bits_above_log2; [lia|].
      apply Z.lt_le_trans with 16; [|lia]. apply Z.log2_lt_pow2; lia.
Qed.

(** the [chunk_meta] of a user-data chunk, as [jls_wr_user_data] builds
    it, and what [rd_user_data] takes from it *)
Lemma user_data_meta_round_trip (meta st : Z) :
  0 <= meta < 2 ^ 16 -> 0 <= st < 16 ->
  let meta' := if negb (Z.land meta 0xf000 =? 0) then Z.land meta 0x0fff else meta in
  let cm := u16 (Z.lor meta' (Z.shiftl (u16 st) 12)) in
  Z.land cm 0x0fff = Z.land meta 0x0fff
  /\ u8 (Z.land (Z.shiftr cm 12) 0x0f) = st.
Proof.
  intros Hm Hst meta' cm.
  assert (Hm' : meta' = meta mod 4096).
  { unfold meta'. rewrite land_0xfff_mod, land_0xf000 by exact Hm.
    destruct (Z.eqb_spec (meta / 4096 * 4096) 0) as [E|E]; simpl negb; cbv iota;
      [|reflexivity].
    pose proof (Z.div_mod meta 4096). pose proof (Z.mod_pos_bound meta 4096). lia. }
  assert (Hb : 0 <= meta mod 4096 < 4096) by (apply Z.mod_pos_bound; lia).
  assert (Hcm : cm = meta mod 4096 + st * 4096).
  { unfold cm. rewrite Hm'. unfold u16 at 2. rewrite (Z.mod_small st) by lia.
    rewrite (lor_shiftl_add 12) by (change (2 ^ 12) with 4096; lia).
    change (2 ^ 12) with 4096. unfold u16. apply Z.mod_small. lia. }
  rewrite !land_0xfff_mod, Hcm. split.
  - rewrite Z.mod_add by lia. apply Z.mod_mod. lia.
  - rewrite Z.shiftr_div_pow2 by lia. change (2 ^ 12) with 4096.
    rewrite Z.div_add by lia. rewrite (Z.div_small (meta mod 4096)) by lia.
    change 0x0f with (Z.ones 4). rewrite Z.land_ones by lia.
    change (2 ^ 4) with 16. rewrite Z.add_0_l, (Z.mod_small st) by lia.
    unfold u8. apply Z.mod_small. lia.
Qed.

Lemma mem_read_length (p : option (list Z)) (n : Z) (bs : list Z) :
  0 <= n -> mem_read p n = Some bs -> zlen bs = n /\ bs = firstn (Z.to_nat n) (default [] p).
Proof.
  intros Hn H. unfold mem_read in H.
  destruct (Z.eqb_spec n 0) as [->|Hnz].
  - injection H as <-. split; reflexivity.
  - destruct p as [m|]; [|discriminate].
    destruct (Z.leb_spec n (zlen m)); [|discriminate].
    injection H as <-. split; [apply zlen_firstn; lia|reflexivity].
Qed.

(** the end of [jls_wr_user_data]: what a run that returns has put in
    the file *)
Lemma user_data_tail_written (cm : Z) (data : option (list Z)) (n : Z) (s : jls_wr_s)
    (rc : jls_ec) (s' : jls_wr_s) :
  wr_inv s ->
  (LET s <- get_st ;;
   LET pos <- tell ;;
   let chunk := mk_chunk (mk_hdr 0 (offset (user_data_mra s)) JLS_TAG_USER_DATA 0 cm
                            n (wr_payload_prev_length s)) pos in
   match mem_read data n with
   | None => undefined
   | Some payload =>
     ROE raw_wr (hdr chunk) payload ;;
     DO modify (set_payload_prev_length n) ;;
     update_mra user_data_mra set_user_data_mra chunk
   end) s = Some (rc, s') ->
  exists payload,
    rc = JLS_SUCCESS /\ mem_read data n = Some payload
    /\ chunks (raw s') !! fpos (raw s)
       = Some (mk_raw_chunk (mk_hdr 0 (offset (user_data_mra s)) JLS_TAG_USER_DATA 0 cm
                               n (wr_payload_prev_length s)) payload).
Proof.
  intros Hinv H. rewrite bind_get_st, bind_tell in H. cbv zeta in H.
  destruct (mem_read data n) as [payload|]; [|discriminate].
  exists payload.
  destruct (append_total MraUserData
              (mk_hdr 0 (offset (user_data_mra s)) JLS_TAG_USER_DATA 0 cm n
                 (wr_payload_prev_length s)) payload n s Hinv I) as (s'' & Hrun & Hc).
  assert (E : Some (JLS_SUCCESS, s'') = Some (rc, s')) by exact (eq_trans (eq_sym Hrun) H).
  injection E as <- <-. auto.
Qed.

(** a user-data chunk of storage type [st] that [jls_wr_user_data] has
    written: where it is and what it holds *)
Lemma user_data_written (meta st : Z) (data : option (list Z)) (n : Z)
    (s : jls_wr_s) (rc : jls_ec) (s' : jls_wr_s) :
  wr_inv s ->
  st = JLS_STORAGE_TYPE_BINARY \/ st = JLS_STORAGE_TYPE_STRING \/ st = JLS_STORAGE_TYPE_JSON ->
  jls_wr_user_data meta st data n s = Some (rc, s') ->
  rc = JLS_ERROR_PARAMETER_INVALID /\ s' = s
  \/ exists size payload,
       rc = JLS_SUCCESS /\ mem_read data size = Some payload
       /\ (st = JLS_STORAGE_TYPE_BINARY -> size = n)
       /\ (st <> JLS_STORAGE_TYPE_BINARY -> 0 <= size < 2 ^ 32)
       /\ chunks (raw s') !! fpos (raw s)
          = Some (mk_raw_chunk
                    (mk_hdr 0 (offset (user_data_mra s)) JLS_TAG_USER_DATA 0
                       (u16 (Z.lor (if negb (Z.land meta 0xf000 =? 0)
                                    then Z.land meta 0x0fff else meta)
                                   (Z.shiftl (u16 st) 12)))
                       size (wr_payload_prev_length s)) payload).
Proof.
  intros Hinv Hst H. unfold jls_wr_user_data in H.
  destruct (user_data_guard data n); [left; injection H as <- <-; auto|].
  cbv zeta in H. right.
  destruct Hst as [-> | [-> | ->]].
  - change (JLS_STORAGE_TYPE_BINARY =? JLS_STORAGE_TYPE_INVALID) with false in H.
    change (JLS_STORAGE_TYPE_BINARY =? JLS_STORAGE_TYPE_BINARY) with true in H.
    cbv iota in H.
    apply user_data_tail_written in H as (payload & -> & Hrd & Hc); [|exact Hinv].
    exists n, payload. split; [reflexivity|]. split; [exact Hrd|].
    split; [reflexivity|]. split; [intros HH; exfalso; apply HH; reflexivity|exact Hc].
  - change (JLS_STORAGE_TYPE_STRING =? JLS_STORAGE_TYPE_INVALID) with false in H.
    change (JLS_STORAGE_TYPE_STRING =? JLS_STORAGE_TYPE_BINARY) with false in H.
    change (JLS_STORAGE_TYPE_STRING =? JLS_STORAGE_TYPE_STRING) with true in H.
    simpl orb in H. cbv iota in H.
    destruct (c_str (default [] data)) as [cs|]; simpl option_map in H; cbv iota in H;
      [|discriminate].
    apply user_data_tail_written in H as (payload & -> & Hrd & Hc); [|exact Hinv].
    exists (u32 (zlen cs + 1)), payload. split; [reflexivity|]. split; [exact Hrd|].
    split; [intros HH; discriminate HH|].
    split; [intros _; apply Z.mod_pos_bound; reflexivity|exact Hc].
  - change (JLS_STORAGE_TYPE_JSON =? JLS_STORAGE_TYPE_INVALID) with false in H.
    change (JLS_STORAGE_TYPE_JSON =? JLS_STORAGE_TYPE_BINARY) with false in H.
    change (JLS_STORAGE_TYPE_JSON =? JLS_STORAGE_TYPE_STRING) with false in H.
    change (JLS_STORAGE_TYPE_JSON =? JLS_STORAGE_TYPE_JSON) with true in H.
    simpl orb in H. cbv iota in H.
    destruct (c_str (default [] data)) as [cs|]; simpl option_map in H; cbv iota in H;
      [|discriminate].
    apply user_data_tail_written in H as (payload & -> & Hrd & Hc); [|exact Hinv].
    exists (u32 (zlen cs + 1)), payload. split; [reflexivity|]. split; [exact Hrd|].
    split; [intros HH; discriminate HH|].
    split; [intros _; apply Z.mod_pos_bound; reflexivity|exact Hc].
Qed.

Lemma mem_read_some (d : list Z) (n : Z) :
  0 <= n <= zlen d -> mem_read (Some d) n = Some (firstn (Z.to_nat n) d).
Proof.
  intros Hn. unfold mem_read. destruct (Z.eqb_spec n 0) as [->|_]; [reflexivity|].
  destruct (Z.leb_spec n (zlen d)); [reflexivity|lia].
Qed.

(** X6: binary user data of [n] bytes written by [jls_wr_user_data] to
    a writer reached from open: the call returns success, and
    [rd_user_data] of a reader at the place of the new chunk returns
    success with the low 12 bits of [chunk_meta], the storage type, the
    size [n] and the [n] bytes, and takes the chunk as the current
    user-data chunk. *)
Theorem user_data_binary_round_trip (defs : list Z) (s : jls_wr_s) (meta : Z)
    (d : list Z) (n : Z) :
  reachable defs s -> 0 <= meta < 2 ^ 16 -> 0 <= n <= zlen d -> n < 2 ^ 32 ->
  exists s',
    jls_wr_user_data meta JLS_STORAGE_TYPE_BINARY (Some d) n s = Some (JLS_SUCCESS, s')
    /\ forall r ud,
         Reader.raw r = mk_raw (chunks (raw s')) (fpos (raw s)) ->
         0 < Reader.alloc_size (Reader.payload r) ->
         exists ud' r',
           UserData.rd_user_data ud r = Some ((JLS_SUCCESS, ud'), r')
           /\ UserData.ud_chunk_meta ud' = Z.land meta 0x0fff
           /\ UserData.ud_storage_type ud' = JLS_STORAGE_TYPE_BINARY
           /\ UserData.ud_data_size ud' = n
           /\ firstn (Z.to_nat n) (UserData.ud_data ud') = firstn (Z.to_nat n) d
           /\ Reader.offset (Reader.user_data_cur r') = fpos (raw s).
Proof.
  intros Hr Hmeta Hn Hn32. pose proof (reachable_inv defs s Hr) as Hinv.
  set (cm := u16 (Z.lor (if negb (Z.land meta 0xf000 =? 0) then Z.land meta 0x0fff else meta)
                        (Z.shiftl (u16 JLS_STORAGE_TYPE_BINARY) 12))).
  set (h := mk_hdr 0 (offset (user_data_mra s)) JLS_TAG_USER_DATA 0 cm n
              (wr_payload_prev_length s)).
  destruct (append_total MraUserData h (firstn (Z.to_nat n) d) n s Hinv I)
    as (s' & Hrun & Hc).
  exists s'. split.
  - unfold jls_wr_user_data.
    assert (Hg : user_data_guard (Some d) n = false).
    { unfold user_data_guard. simpl is_null. cbv iota. rewrite Z.land_0_r. reflexivity. }
    rewrite Hg. cbv zeta.
    change (JLS_STORAGE_TYPE_BINARY =? JLS_STORAGE_TYPE_INVALID) with false.
    change (JLS_STORAGE_TYPE_BINARY =? JLS_STORAGE_TYPE_BINARY) with true.
    cbv iota. rewrite bind_get_st, bind_tell. cbv zeta.
    rewrite mem_read_some by exact Hn. exact Hrun.
  - intros r ud Hraw Ha.
    assert (Hc' : chunks (Reader.raw r) !! fpos (Reader.raw r)
                  = Some (mk_raw_chunk h (firstn (Z.to_nat n) d)))
      by (rewrite Hraw; exact Hc).
    destruct (user_data_meta_round_trip meta JLS_STORAGE_TYPE_BINARY Hmeta) as [Hm Hst];
      [vm_compute; split; [discriminate|reflexivity]|].
    fold cm in Hm, Hst.
    destruct (rd_user_data_at r _ ud Hc' Ha) as (alloc & Hrd & _).
    + simpl. lia.
    + reflexivity.
    + left. exact Hst.
    + eexists _, _. split; [exact Hrd|].
      cbn [UserData.ud_chunk_meta UserData.ud_storage_type UserData.ud_data_size
             UserData.ud_data rc_hdr rc_payload chunk_meta payload_length h].
      split; [exact Hm|]. split; [exact Hst|]. split; [reflexivity|].
      split; [|rewrite Hraw; reflexivity].
      rewrite firstn_app.
      replace (Z.to_nat n - length (firstn (Z.to_nat n) d))%nat with O
        by (rewrite length_firstn; unfold zlen in Hn; lia).
      simpl firstn at 2. rewrite app_nil_r, firstn_firstn.
      replace (Z.to_nat n `min` Z.to_nat n)%nat with (Z.to_nat n) by lia. reflexivity.
Qed.

Lemma user_data_binary_round_trip_witness :
  exists s',
    jls_wr_user_data 0x1005 JLS_STORAGE_TYPE_BINARY (Some [97; 98; 99]) 3 Session.wr_opened
    = Some (JLS_SUCCESS, s')
    /\ forall r ud,
         Reader.raw r = mk_raw (chunks (raw s')) (fpos (raw Session.wr_opened)) ->
         0 < Reader.alloc_size (Reader.payload r) ->
         exists ud' r',
           UserData.rd_user_data ud r = Some ((JLS_SUCCESS, ud'), r')
           /\ UserData.ud_chunk_meta ud' = Z.land 0x1005 0x0fff
           /\ UserData.ud_storage_type ud' = JLS_STORAGE_TYPE_BINARY
           /\ UserData.ud_data_size ud' = 3
           /\ firstn (Z.to_nat 3) (UserData.ud_data ud') = firstn (Z.to_nat 3) [97; 98; 99]
           /\ Reader.offset (Reader.user_data_cur r') = fpos (raw Session.wr_opened).
Proof.
  apply (user_data_binary_round_trip [0] Session.wr_opened 0x1005 [97; 98; 99] 3).
  - exact reach_wr_opened.
  - vm_compute. split; [discriminate|reflexivity].
  - vm_compute. split; discriminate.
  - reflexivity.
Defined.

(** ** What the writer's calls leave alone *)

(** X7: no call of the writer with a defined result changes the
    definition chunk or the stored definition of a signal that is
    defined, and a signal definition for its id, with a source that is
    defined, returns AlreadyExists and leaves the writer as it was. *)
Theorem defined_signal_kept (c : wr_call) (id : Z) (s : jls_wr_s) (rc : jls_ec)
    (s' : jls_wr_s) :
  offset (chunk_def (get_info s id)) <> 0 ->
  wr_exec c s = Some (rc, s') ->
  (chunk_def (get_info s' id) = chunk_def (get_info s id)
   /\ signal_def (get_info s' id) = signal_def (get_info s id))
  /\ forall signal,
       signal_id signal = id -> id < JLS_SIGNAL_COUNT ->
       source_id signal < JLS_SOURCE_COUNT ->
       offset (get_source s (source_id signal)) <> 0 ->
       jls_wr_signal_def signal s = Some (JLS_ERROR_ALREADY_EXISTS, s).
Proof.
  intros Hdef H. split.
  - pose proof (wr_exec_keeps_signal c id s rc s' Hdef H) as Hk.
    unfold sig_slot in Hk. injection Hk as -> ->. auto.
  - intros signal Hid Hlt Hsrc Hsdef. unfold jls_wr_signal_def.
    rewrite bind_get_st. cbv zeta. rewrite Hid.
    apply Z.leb_gt in Hlt, Hsrc. rewrite Hlt, Hsrc.
    apply Z.eqb_neq in Hsdef, Hdef. rewrite Hsdef, Hdef. reflexivity.
Qed.

Lemma defined_signal_kept_witness :
  (chunk_def (get_info Session2.wr_src1 0) = chunk_def (get_info Session.wr_opened 0)
   /\ signal_def (get_info Session2.wr_src1 0) = signal_def (get_info Session.wr_opened 0))
  /\ forall signal,
       signal_id signal = 0 -> 0 < JLS_SIGNAL_COUNT ->
       source_id signal < JLS_SOURCE_COUNT ->
       offset (get_source Session.wr_opened (source_id signal)) <> 0 ->
       jls_wr_signal_def signal Session.wr_opened
       = Some (JLS_ERROR_ALREADY_EXISTS, Session.wr_opened).
Proof.
  apply (defined_signal_kept (CallSourceDef Session.source_1) 0 Session.wr_opened
           JLS_SUCCESS Session2.wr_src1).
  - vm_compute. discriminate.
  - exact wr_src1_eq.
Defined.

(** what a source definition does to the table of sources *)
Lemma source_def_source_info (source : jls_source_def_s) (s : jls_wr_s) (rc : jls_ec)
    (s' : jls_wr_s) :
  jls_wr_source_def source s = Some (rc, s') ->
  source_info s' = source_info s
  \/ offset (get_source s (src_source_id source)) = 0
     /\ exists c, source_info s' = <[src_source_id source := c]> (source_info s).
Proof.
  intros H. unfold jls_wr_source_def in H. rewrite bind_get_st in H. cbv zeta in H.
  destruct (JLS_SOURCE_COUNT <=? src_source_id source);
    [left; injection H as _ <-; reflexivity|].
  destruct (Z.eqb_spec (offset (get_source s (src_source_id source))) 0) as [Hz|Hnz];
    simpl negb in H; cbv iota in H; [|left; injection H as _ <-; reflexivity].
  do 2 past_do H.
  do 5 (past_roe H ltac:(fun Hrc => left; reflexivity)).
  rewrite bind_buf_size, bind_get_st, bind_tell in H. cbv zeta in H.
  rewrite bind_modify in H.
  match type of H with
  | ?m ?s1 = _ =>
      assert (Hp : preserves source_info m) by (keep; reflexivity);
      pose proof (Hp _ _ _ H) as Hsrc; clear Hp H
  end.
  right. split; [exact Hz|]. eexists. exact Hsrc.
Qed.

(** X8: no call of the writer changes the entry of a source that is
    defined. *)
Theorem defined_source_kept (c : wr_call) (id : Z) (s : jls_wr_s) (rc : jls_ec)
    (s' : jls_wr_s) :
  offset (get_source s id) <> 0 ->
  wr_exec c s = Some (rc, s') ->
  get_source s' id = get_source s id.
Proof.
  intros Hdef H. pose proof (wr_exec_keeps_sources c) as Hk.
  destruct c as [source| | | | | |]; try (apply get_source_eq, (Hk _ _ _ H)).
  simpl in H. apply source_def_source_info in H as [E | (Hz & c & E)].
  - apply get_source_eq, E.
  - unfold get_source, arr_get. rewrite E.
    destruct (Z.eq_dec (src_source_id source) id) as [Eid|Hne]; [congruence|].
    rewrite lookup_insert_ne by exact Hne. reflexivity.
Qed.

Lemma defined_source_kept_witness :
  get_source Session2.wr_src1 0 = get_source Session.wr_opened 0.
Proof.
  apply (defined_source_kept (CallSourceDef Session.source_1) 0 Session.wr_opened
           JLS_SUCCESS Session2.wr_src1).
  - vm_compute. discriminate.
  - exact wr_src1_eq.
Defined.

(** ** Appending a chunk *)

(** the three steps that end every writing function, in full: the new
    chunk at the end of the file, the forward link of the chunk that was
    the last of the list, and nothing else *)
Lemma append_result (l : mra_loc) (h : jls_chunk_header_s) (payload : list Z) (n : Z)
    (s : jls_wr_s) :
  wr_inv s -> mra_used l ->
  exists s',
    (ROE raw_wr h payload ;;
     DO modify (set_payload_prev_length n) ;;
     update_mra (mra_get l) (mra_set l) (mk_chunk h (fpos (raw s)))) s = Some (JLS_SUCCESS, s')
    /\ chunks (raw s') !! fpos (raw s) = Some (mk_raw_chunk h payload)
    /\ fpos (raw s') = fpos (raw s) + chunk_size (payload_length h)
    /\ mra_get l s' = mk_chunk h (fpos (raw s))
    /\ (offset (mra_get l s) <> 0 ->
        exists c, chunks (raw s) !! offset (mra_get l s) = Some c
                  /\ rc_hdr c = hdr (mra_get l s)
                  /\ chunks (raw s') !! offset (mra_get l s)
                     = Some (mk_raw_chunk (set_item_next (fpos (raw s)) (rc_hdr c))
                               (rc_payload c)))
    /\ (forall o, o <> fpos (raw s) -> o <> offset (mra_get l s) ->
                  chunks (raw s') !! o = chunks (raw s) !! o).
Proof.
  intros Hinv Hu.
  erewrite bind_eq by apply raw_wr_result.
  change (is_ok JLS_SUCCESS) with true. cbv iota. rewrite bind_modify.
  rewrite update_mra_result. eexists. split; [reflexivity|].
  rewrite mra_get_set_payload_prev_length, mra_get_set_raw.
  pose proof (mra_offset_below l s Hinv Hu) as Hlt.
  destruct (Z.eqb_spec (offset (mra_get l s)) 0) as [Hz|Hnz].
  - rewrite mra_get_set_same, raw_mra_set. simpl raw. simpl chunks. simpl fpos.
    split; [apply lookup_insert_eq|]. split; [reflexivity|]. split; [reflexivity|].
    split; [intros Hne; contradiction|].
    intros o Ho _. apply lookup_insert_ne. congruence.
  - cbv zeta. rewrite mra_get_set_same, raw_mra_set. simpl raw. simpl chunks. simpl fpos.
    destruct (inv_mra s Hinv l Hu Hnz) as (c & Hc & Hh & _).
    split; [rewrite lookup_insert_ne by lia; apply lookup_insert_eq|].
    split; [reflexivity|]. split; [reflexivity|]. split.
    + intros _. exists c. split; [exact Hc|]. split; [exact Hh|].
      rewrite lookup_insert_eq. rewrite lookup_insert_ne by lia. rewrite Hc.
      simpl. rewrite Hh. reflexivity.
    + intros o Ho1 Ho2. rewrite !lookup_insert_ne by congruence. reflexivity.
Qed.

(** ** UTC entries *)

(** X9: [jls_wr_fsr_utc] on a defined FSR signal of a writer reached from
    open: it returns success; the new chunk is at the end of the file,
    with the UTC tag, the signal id, a backward link to the signal's
    previous UTC chunk and the 16 bytes of [sample_id] and [utc]; the
    previous UTC chunk, if there is one, gets its forward link; no other
    chunk changes, and the chunk is now the signal's last UTC chunk. *)
Theorem fsr_utc_appends (defs : list Z) (s : jls_wr_s) (id sample_id utc : Z) :
  reachable defs s -> 0 <= id < JLS_SIGNAL_COUNT ->
  offset (chunk_def (get_info s id)) <> 0 ->
  signal_type (signal_def (get_info s id)) = JLS_SIGNAL_TYPE_FSR ->
  let prev := offset (data_mra id JLS_TRACK_TYPE_UTC s) in
  let h := mk_hdr 0 prev JLS_TAG_TRACK_UTC_DATA 0 id 16 (wr_payload_prev_length s) in
  exists s',
    jls_wr_fsr_utc id sample_id utc s = Some (JLS_SUCCESS, s')
    /\ chunks (raw s') !! fpos (raw s)
       = Some (mk_raw_chunk h (le_bytes 8 (u64 sample_id) ++ le_bytes 8 (u64 utc)))
    /\ fpos (raw s') = fpos (raw s) + chunk_size 16
    /\ data_mra id JLS_TRACK_TYPE_UTC s' = mk_chunk h (fpos (raw s))
    /\ (prev <> 0 ->
        exists c, chunks (raw s) !! prev = Some c
                  /\ chunks (raw s') !! prev
                     = Some (mk_raw_chunk (set_item_next (fpos (raw s)) (rc_hdr c))
                               (rc_payload c)))
    /\ (forall o, o <> fpos (raw s) -> o <> prev ->
                  chunks (raw s') !! o = chunks (raw s) !! o).
Proof.
  intros Hr Hid Hdef Hty prev h. pose proof (reachable_inv defs s Hr) as Hinv.
  assert (Hu : mra_used (MraData id JLS_TRACK_TYPE_UTC)) by (split; [exact Hid|auto]).
  destruct (append_result (MraData id JLS_TRACK_TYPE_UTC) h
              (le_bytes 8 (u64 sample_id) ++ le_bytes 8 (u64 utc)) 16 s Hinv Hu)
    as (s' & Hrun & Hc & Hpos & Hmra & Hprev & Hother).
  exists s'. split.
  - unfold jls_wr_fsr_utc. erewrite bind_eq by apply signal_validate_typed_result.
    assert (E1 : (JLS_SIGNAL_COUNT <=? id) = false) by (apply Z.leb_gt; lia).
    assert (E2 : (offset (chunk_def (get_info s id)) =? 0) = false)
      by (apply Z.eqb_neq; exact Hdef).
    rewrite E1, E2, Hty.
    change (negb (JLS_SIGNAL_TYPE_FSR =? JLS_SIGNAL_TYPE_FSR)) with false. cbv iota.
    change (is_ok JLS_SUCCESS) with true. cbv iota zeta.
    rewrite bind_get_st, bind_tell. exact Hrun.
  - split; [exact Hc|]. split; [exact Hpos|]. split; [exact Hmra|]. split; [|exact Hother].
    intros Hnz. destruct (Hprev Hnz) as (c & Hc0 & _ & Hc1). exists c. auto.
Qed.

Lemma fsr_utc_appends_witness :
  let s := Session2.wr_sig2 in
  let prev := offset (data_mra 1 JLS_TRACK_TYPE_UTC s) in
  let h := mk_hdr 0 prev JLS_TAG_TRACK_UTC_DATA 0 1 16 (wr_payload_prev_length s) in
  exists s',
    jls_wr_fsr_utc 1 1000 1635000000 s = Some (JLS_SUCCESS, s')
    /\ chunks (raw s') !! fpos (raw s)
       = Some (mk_raw_chunk h (le_bytes 8 (u64 1000) ++ le_bytes 8 (u64 1635000000)))
    /\ fpos (raw s') = fpos (raw s) + chunk_size 16
    /\ data_mra 1 JLS_TRACK_TYPE_UTC s' = mk_chunk h (fpos (raw s))
    /\ (prev <> 0 ->
        exists c, chunks (raw s) !! prev = Some c
                  /\ chunks (raw s') !! prev
                     = Some (mk_raw_chunk (set_item_next (fpos (raw s)) (rc_hdr c))
                               (rc_payload c)))
    /\ (forall o, o <> fpos (raw s) -> o <> prev ->
                  chunks (raw s') !! o = chunks (raw s) !! o).
Proof.
  apply (fsr_utc_appends [1; 0] Session2.wr_sig2 1 1000 1635000000).
  - exact reach_wr_sig2.
  - vm_compute. split; [discriminate|reflexivity].
  - vm_compute. discriminate.
  - vm_compute. reflexivity.
Defined.

(** ** Signals that are not defined *)

(** X10: the four functions that write to a signal, on a signal id that
    is out of range or not defined: ParameterInvalid for an id of 256 or
    more, NotFound otherwise, and the writer is left as it was, whatever
    the other arguments. *)
Theorem undefined_signal_rejected (id : Z) (s : jls_wr_s) :
  JLS_SIGNAL_COUNT <= id \/ offset (chunk_def (get_info s id)) = 0 ->
  let rc := if JLS_SIGNAL_COUNT <=? id then JLS_ERROR_PARAMETER_INVALID
            else JLS_ERROR_NOT_FOUND in
  (forall sample_id data n, jls_wr_fsr_f32 id sample_id data n s = Some (rc, s))
  /\ (forall sample_id a st d n,
        jls_wr_fsr_annotation id sample_id a st d n s = Some (rc, s))
  /\ (forall timestamp a st d n,
        jls_wr_vsr_annotation id timestamp a st d n s = Some (rc, s))
  /\ (forall sample_id utc, jls_wr_fsr_utc id sample_id utc s = Some (rc, s)).
Proof.
  intros Hid rc.
  assert (Hv : signal_validate id s = Some (rc, s) /\ is_ok rc = false).
  { rewrite signal_validate_result. unfold rc.
    destruct (Z.leb_spec JLS_SIGNAL_COUNT id); [auto|].
    destruct Hid as [Hid|Hid]; [lia|]. rewrite Hid. auto. }
  assert (Hvt : forall ty, signal_validate_typed id ty s = Some (rc, s)).
  { intros ty. rewrite signal_validate_typed_result. unfold rc.
    destruct (Z.leb_spec JLS_SIGNAL_COUNT id); [auto|].
    destruct Hid as [Hid|Hid]; [lia|]. rewrite Hid. auto. }
  destruct Hv as [Hv Hrc].
  repeat split; intros.
  - unfold jls_wr_fsr_f32. erewrite bind_eq by exact Hv. rewrite Hrc. reflexivity.
  - unfold jls_wr_fsr_annotation. erewrite bind_eq by apply Hvt. rewrite Hrc. reflexivity.
  - unfold jls_wr_vsr_annotation. erewrite bind_eq by apply Hvt. rewrite Hrc. reflexivity.
  - unfold jls_wr_fsr_utc. erewrite bind_eq by apply Hvt. rewrite Hrc. reflexivity.
Qed.

Lemma undefined_signal_rejected_witness :
  let s := Session.wr_opened in
  (forall sample_id data n, jls_wr_fsr_f32 7 sample_id data n s = Some (JLS_ERROR_NOT_FOUND, s))
  /\ (forall sample_id a st d n,
        jls_wr_fsr_annotation 7 sample_id a st d n s = Some (JLS_ERROR_NOT_FOUND, s))
  /\ (forall timestamp a st d n,
        jls_wr_vsr_annotation 7 timestamp a st d n s = Some (JLS_ERROR_NOT_FOUND, s))
  /\ (forall sample_id utc, jls_wr_fsr_utc 7 sample_id utc s = Some (JLS_ERROR_NOT_FOUND, s)).
Proof.
  apply (undefined_signal_rejected 7 Session.wr_opened).
  right. vm_compute. reflexivity.
Defined.

(** ** The last chunk of each list *)

(** X11: in a writer reached from open, every chunk of the file is at an
    offset between 0 and the end of the file, and each record the writer
    keeps of the last chunk of a list (sources, signals, user data, the
    annotations and the UTC entries of a signal) is the offset and the
    header of a chunk of the file, of that list, whose forward link is
    0; a call never moves the end of the file back. *)
Theorem reachable_tails (defs : list Z) (s : jls_wr_s) :
  reachable defs s ->
  (forall o c, chunks (raw s) !! o = Some c -> 0 < o < fpos (raw s))
  /\ (forall l, mra_used l -> offset (mra_get l s) <> 0 ->
        exists c, chunks (raw s) !! offset (mra_get l s) = Some c
                  /\ rc_hdr c = hdr (mra_get l s)
                  /\ item_next (rc_hdr c) = 0
                  /\ list_of (rc_hdr c) = mra_list l)
  /\ (forall c rc s', wr_call_wf c -> wr_exec c s = Some (rc, s') ->
        fpos (raw s) <= fpos (raw s')).
Proof.
  intros Hr. pose proof (reachable_inv defs s Hr) as Hinv.
  split; [exact (inv_below s Hinv)|]. split; [exact (inv_mra s Hinv)|].
  intros c rc s' Hwf H. exact (proj2 (keeps_inv_wr_exec c Hwf s rc s' Hinv H)).
Qed.

Lemma reachable_tails_witness :
  let s := Session2.wr_sig2 in
  (forall o c, chunks (raw s) !! o = Some c -> 0 < o < fpos (raw s))
  /\ (forall l, mra_used l -> offset (mra_get l s) <> 0 ->
        exists c, chunks (raw s) !! offset (mra_get l s) = Some c
                  /\ rc_hdr c = hdr (mra_get l s)
                  /\ item_next (rc_hdr c) = 0
                  /\ list_of (rc_hdr c) = mra_list l)
  /\ (forall c rc s', wr_call_wf c -> wr_exec c s = Some (rc, s') ->
        fpos (raw s) <= fpos (raw s')).
Proof. exact (reachable_tails [1; 0] Session2.wr_sig2 reach_wr_sig2). Defined.

(** ** Source definitions *)

Lemma roe_buf_add_str (cs : list Z) (k : W jls_ec) (s : jls_wr_s) :
  cs <> [] -> Forall (fun c => c <> 0) cs ->
  zlen (buf s) + zlen cs + 2 <= BUFFER_SIZE ->
  (ROE buf_add_str (Some (cs ++ [0])) ;; k) s = k (set_buf (buf s ++ cs ++ [0; 0x1f]) s).
Proof.
  intros Hne Hnz Hfit. unfold bind at 1, buf_add_str. simpl default.
  rewrite buf_add_str_loop_chars by assumption. reflexivity.
Qed.

(** one string of a source definition, from the payload to the entry
    [id] of the reader's table *)
Lemma parse_str_source_step (cs pre post : list Z)
    (f : option (list Z) -> jls_source_def_s -> jls_source_def_s) (id : Z)
    (r : Reader.jls_rd_s) :
  Forall (fun c => c <> 0) cs ->
  Reader.p_mem (Reader.payload r) = pre ++ (cs ++ [0; 0x1f]) ++ post ->
  Reader.p_cur (Reader.payload r) = zlen pre ->
  zlen pre + zlen cs < Reader.p_length (Reader.payload r) ->
  zlen pre + zlen cs + 2 <= Reader.alloc_size (Reader.payload r) ->
  Reader.strings_cur r + zlen cs < Reader.STRINGS_CAPACITY ->
  exists r',
    Reader.payload_parse_str (fun v => Reader.upd_source_def id (f v)) r
    = Some (JLS_SUCCESS, r')
    /\ Reader.p_mem (Reader.payload r') = Reader.p_mem (Reader.payload r)
    /\ Reader.p_cur (Reader.payload r') = zlen pre + zlen cs + 2
    /\ Reader.p_length (Reader.payload r') = Reader.p_length (Reader.payload r)
    /\ Reader.alloc_size (Reader.payload r') = Reader.alloc_size (Reader.payload r)
    /\ Reader.strings_cur r' = Reader.strings_cur r + zlen cs + 1
    /\ Reader.get_source_def r' id = f (Some (cs ++ [0])) (Reader.get_source_def r id)
    /\ Reader.chunk_cur r' = Reader.chunk_cur r
    /\ Reader.raw r' = Reader.raw r.
Proof.
  intros Hnz Hm Hc Hl Ha Hs. eexists. split.
  - unfold Reader.payload_parse_str, bind at 1, get_st.
    apply (payload_parse_str_loop_chars cs Hnz _ [] pre post _ r Hm Hc Hl Ha Hs).
    rewrite Hm, !length_app. lia.
  - unfold Reader.upd_source_def, Codec.str_parsed, Reader.get_source_def, arr_get.
    cbn [Reader.payload Reader.set_source_def Reader.set_strings_cur Reader.set_payload
           Reader.strings_cur Reader.source_def Reader.chunk_cur Reader.raw
           Reader.set_p_cur Reader.p_mem Reader.p_cur Reader.p_length Reader.alloc_size].
    rewrite lookup_insert_eq, Hc. simpl default.
    repeat split; reflexivity.
Qed.

Lemma zlen_repeat {A} (x : A) (n : nat) : zlen (repeat x n) = Z.of_nat n.
Proof. unfold zlen. rewrite repeat_length. reflexivity. Qed.

Lemma do_buf_add_zero (n : Z) (k : W jls_ec) (s : jls_wr_s) :
  zlen (buf s) + n <= BUFFER_SIZE ->
  (DO buf_add_zero n ;; k) s = k (set_buf (buf s ++ repeat 0 (Z.to_nat n)) s).
Proof.
  intros Hfit. unfold bind at 1, buf_add_zero. rewrite bind_get_st.
  destruct (Z.ltb_spec BUFFER_SIZE (zlen (buf s) + n)); [lia|reflexivity].
Qed.

(** the chunk of a source definition whose strings are not empty *)
Lemma source_def_written (s : jls_wr_s) (id : Z) (name vendor model version serial : list Z) :
  wr_inv s -> 0 <= id < JLS_SOURCE_COUNT -> offset (get_source s id) = 0 ->
  Forall (fun cs => cs <> [] /\ Forall (fun c => c <> 0) cs)
    [name; vendor; model; version; serial] ->
  let B := repeat 0 64 ++ name ++ [0; 0x1f] ++ vendor ++ [0; 0x1f] ++ model ++ [0; 0x1f]
           ++ version ++ [0; 0x1f] ++ serial ++ [0; 0x1f] in
  zlen B <= BUFFER_SIZE ->
  exists s',
    jls_wr_source_def
      (mk_source id (Some (name ++ [0])) (Some (vendor ++ [0])) (Some (model ++ [0]))
         (Some (version ++ [0])) (Some (serial ++ [0]))) s
    = Some (JLS_SUCCESS, s')
    /\ chunks (raw s') !! fpos (raw s)
       = Some (mk_raw_chunk
                 (mk_hdr 0 (offset (source_mra s)) JLS_TAG_SOURCE_DEF 0 id (zlen B)
                    (wr_payload_prev_length s)) B).
Proof.
  intros Hinv Hid Hz Hstr B Hfit.
  repeat match goal with
         | H : Forall _ (_ :: _) |- _ => inversion H; clear H; subst
         end.
  repeat match goal with H : _ /\ _ |- _ => destruct H end.
  assert (Hlen : zlen B = 64 + (zlen name + 2) + (zlen vendor + 2) + (zlen model + 2)
                         + (zlen version + 2) + (zlen serial + 2)).
  { unfold B. rewrite !zlen_app, zlen_repeat. change (zlen [0; 0x1f]) with 2. lia. }
  pose proof (zlen_nonneg name). pose proof (zlen_nonneg vendor).
  pose proof (zlen_nonneg model). pose proof (zlen_nonneg version).
  pose proof (zlen_nonneg serial).
  set (h := mk_hdr 0 (offset (source_mra s)) JLS_TAG_SOURCE_DEF 0 id (zlen B)
              (wr_payload_prev_length s)).
  set (s2 := set_source_info (<[id := mk_chunk h (fpos (raw s))]> (source_info s))
               (set_buf B s)).
  assert (Hinv2 : wr_inv s2) by (apply wr_inv_set_source_info, wr_inv_set_buf, Hinv).
  destruct (append_result MraSource h B (zlen B) s2 Hinv2 I) as (s' & Hrun & Hc & _).
  exists s'. split; [|exact Hc].
  unfold jls_wr_source_def. rewrite bind_get_st. cbv zeta. cbn [src_source_id].
  assert (E1 : (JLS_SOURCE_COUNT <=? id) = false) by (apply Z.leb_gt; lia).
  rewrite E1, Hz. change (negb (0 =? 0)) with false. cbv iota.
  unfold buf_reset. rewrite bind_modify.
  cbn [src_name src_vendor src_model src_version src_serial_number].
  rewrite do_buf_add_zero by (vm_compute; discriminate).
  cbn [buf set_buf].
  do 5 (rewrite roe_buf_add_str;
          [|assumption|assumption
           |cbn [buf set_buf]; rewrite ?zlen_app, ?zlen_repeat;
            change (zlen [0; 0x1f]) with 2; change (zlen (@nil Z)) with 0; lia];
        cbn [buf set_buf]).
  match goal with
  | |- _ (set_buf ?X ?s0) = _ =>
      assert (EX : set_buf X s0 = set_buf B s)
        by (change (set_buf X s0) with (set_buf X s); f_equal;
            rewrite <- !app_assoc; reflexivity);
      rewrite EX; clear EX
  end.
  rewrite bind_buf_size, bind_get_st, bind_tell. cbv zeta. rewrite bind_modify.
  cbn [buf set_buf]. rewrite (u32_small (zlen B)) by (change BUFFER_SIZE with (2 ^ 20) in *; lia).
  exact Hrun.
Qed.

Lemma scan_sources_loop_S (fuel : nat) :
  Reader.scan_sources_loop (S fuel)
  = (ROE Reader.rd ;;
     LET s <- get_st ;;
     let id := chunk_meta (Reader.hdr (Reader.chunk_cur s)) in
     ROE (if JLS_SOURCE_COUNT <=? id then ret JLS_SUCCESS
          else
            ROE Reader.payload_skip 64 ;;
            ROE Reader.payload_parse_str (fun v => Reader.upd_source_def id (src_set_name v)) ;;
            ROE Reader.payload_parse_str (fun v => Reader.upd_source_def id (src_set_vendor v)) ;;
            ROE Reader.payload_parse_str (fun v => Reader.upd_source_def id (src_set_model v)) ;;
            ROE Reader.payload_parse_str (fun v => Reader.upd_source_def id (src_set_version v)) ;;
            ROE Reader.payload_parse_str
                  (fun v => Reader.upd_source_def id (src_set_serial_number v)) ;;
            DO modify (Reader.upd_source_def id (src_set_id id)) ;;
            ret JLS_SUCCESS) ;;
     if item_next (Reader.hdr (Reader.chunk_cur s)) =? 0 then ret JLS_SUCCESS
     else
       ROE Reader.raw_seek (item_next (Reader.hdr (Reader.chunk_cur s))) ;;
       Reader.scan_sources_loop fuel)%c.
Proof. reflexivity. Qed.

(** the strings of a source definition chunk, from the payload to the
    reader's table *)
Lemma parse_source_strings (id : Z) (name vendor model version serial tail : list Z)
    (r : Reader.jls_rd_s) :
  Forall (fun cs => Forall (fun c => c <> 0) cs) [name; vendor; model; version; serial] ->
  let B := repeat 0 64 ++ name ++ [0; 0x1f] ++ vendor ++ [0; 0x1f] ++ model ++ [0; 0x1f]
           ++ version ++ [0; 0x1f] ++ serial ++ [0; 0x1f] in
  Reader.p_mem (Reader.payload r) = B ++ tail ->
  Reader.p_cur (Reader.payload r) = 0 ->
  Reader.p_length (Reader.payload r) = zlen B ->
  zlen B <= Reader.alloc_size (Reader.payload r) ->
  Reader.strings_cur r + (zlen name + 1) + (zlen vendor + 1) + (zlen model + 1)
    + (zlen version + 1) + (zlen serial + 1) <= Reader.STRINGS_CAPACITY ->
  exists r',
    (ROE Reader.payload_skip 64 ;;
     ROE Reader.payload_parse_str (fun v => Reader.upd_source_def id (src_set_name v)) ;;
     ROE Reader.payload_parse_str (fun v => Reader.upd_source_def id (src_set_vendor v)) ;;
     ROE Reader.payload_parse_str (fun v => Reader.upd_source_def id (src_set_model v)) ;;
     ROE Reader.payload_parse_str (fun v => Reader.upd_source_def id (src_set_version v)) ;;
     ROE Reader.payload_parse_str
           (fun v => Reader.upd_source_def id (src_set_serial_number v)) ;;
     DO modify (Reader.upd_source_def id (src_set_id id)) ;;
     ret JLS_SUCCESS) r = Some (JLS_SUCCESS, r')
    /\ Reader.get_source_def r' id
       = mk_source id (Some (name ++ [0])) (Some (vendor ++ [0])) (Some (model ++ [0]))
           (Some (version ++ [0])) (Some (serial ++ [0]))
    /\ Reader.chunk_cur r' = Reader.chunk_cur r
    /\ Reader.raw r' = Reader.raw r.
Proof.
  intros Hstr B Hm Hc Hl Ha Hs.
  repeat match goal with
         | H : Forall _ (_ :: _) |- _ => inversion H; clear H; subst
         end.
  assert (Hlen : zlen B = 64 + (zlen name + 2) + (zlen vendor + 2) + (zlen model + 2)
                         + (zlen version + 2) + (zlen serial + 2)).
  { unfold B. rewrite !zlen_app, zlen_repeat. change (zlen [0; 0x1f]) with 2. lia. }
  pose proof (zlen_nonneg name). pose proof (zlen_nonneg vendor).
  pose proof (zlen_nonneg model). pose proof (zlen_nonneg version).
  pose proof (zlen_nonneg serial).
  (* skip *)
  set (r0 := Reader.set_payload (Reader.set_p_cur 64 (Reader.payload r)) r).
  assert (Hskip : Reader.payload_skip 64 r = Some (JLS_SUCCESS, r0)).
  { unfold Reader.payload_skip, bind at 1, get_st. cbv zeta. rewrite Hc.
    destruct (Z.ltb_spec (Reader.p_length (Reader.payload r)) (0 + 64)); [lia|reflexivity]. }
  erewrite bind_eq by exact Hskip. change (is_ok JLS_SUCCESS) with true. cbv iota.
  assert (M0 : Reader.p_mem (Reader.payload r0) = B ++ tail) by exact Hm.
  assert (K0 : Reader.p_cur (Reader.payload r0) = 64) by reflexivity.
  assert (L0 : Reader.p_length (Reader.payload r0) = zlen B) by exact Hl.
  assert (A0 : zlen B <= Reader.alloc_size (Reader.payload r0)) by exact Ha.
  assert (S0 : Reader.strings_cur r0 = Reader.strings_cur r) by reflexivity.
  assert (C0 : Reader.chunk_cur r0 = Reader.chunk_cur r) by reflexivity.
  assert (W0 : Reader.raw r0 = Reader.raw r) by reflexivity.
  clearbody r0.
  (* name *)
  destruct (parse_str_source_step name (repeat 0 64)
              (vendor ++ [0; 0x1f] ++ model ++ [0; 0x1f] ++ version ++ [0; 0x1f]
               ++ serial ++ [0; 0x1f] ++ tail) src_set_name id r0)
    as (r1 & R1 & M1 & K1 & L1 & A1 & S1 & D1 & C1 & W1);
    [assumption
    |rewrite M0; unfold B; rewrite <- !app_assoc; reflexivity
    |rewrite ?zlen_app, ?zlen_repeat; change (zlen [0; 0x1f]) with 2; lia ..|].
  erewrite bind_eq by exact R1. change (is_ok JLS_SUCCESS) with true. cbv iota.
  rewrite M0 in M1. rewrite L0 in L1. rewrite <- A1 in A0. rewrite S0 in S1.
  rewrite C0 in C1. rewrite W0 in W1.
  rewrite ?zlen_app, ?zlen_repeat in K1.
  (* vendor *)
  destruct (parse_str_source_step vendor (repeat 0 64 ++ name ++ [0; 0x1f])
              (model ++ [0; 0x1f] ++ version ++ [0; 0x1f] ++ serial ++ [0; 0x1f] ++ tail)
              src_set_vendor id r1)
    as (r2 & R2 & M2 & K2 & L2 & A2 & S2 & D2 & C2 & W2);
    [assumption
    |rewrite M1; unfold B; rewrite <- !app_assoc; reflexivity
    |rewrite ?zlen_app, ?zlen_repeat; change (zlen [0; 0x1f]) with 2; lia ..|].
  erewrite bind_eq by exact R2. change (is_ok JLS_SUCCESS) with true. cbv iota.
  rewrite M1 in M2. rewrite L1 in L2. rewrite <- A2 in A0. rewrite S1 in S2.
  rewrite C1 in C2. rewrite W1 in W2.
  rewrite ?zlen_app, ?zlen_repeat in K2. change (zlen [0; 0x1f]) with 2 in K2.
  (* model *)
  destruct (parse_str_source_step model
              (repeat 0 64 ++ name ++ [0; 0x1f] ++ vendor ++ [0; 0x1f])
              (version ++ [0; 0x1f] ++ serial ++ [0; 0x1f] ++ tail)
              src_set_model id r2)
    as (r3 & R3 & M3 & K3 & L3 & A3 & S3 & D3 & C3 & W3);
    [assumption
    |rewrite M2; unfold B; rewrite <- !app_assoc; reflexivity
    |rewrite ?zlen_app, ?zlen_repeat; change (zlen [0; 0x1f]) with 2; lia ..|].
  erewrite bind_eq by exact R3. change (is_ok JLS_SUCCESS) with true. cbv iota.
  rewrite M2 in M3. rewrite L2 in L3. rewrite <- A3 in A0. rewrite S2 in S3.
  rewrite C2 in C3. rewrite W2 in W3.
  rewrite ?zlen_app, ?zlen_repeat in K3. change (zlen [0; 0x1f]) with 2 in K3.
  (* version *)
  destruct (parse_str_source_step version
              (repeat 0 64 ++ name ++ [0; 0x1f] ++ vendor ++ [0; 0x1f] ++ model ++ [0; 0x1f])
              (serial ++ [0; 0x1f] ++ tail)
              src_set_version id r3)
    as (r4 & R4 & M4 & K4 & L4 & A4 & S4 & D4 & C4 & W4);
    [assumption
    |rewrite M3; unfold B; rewrite <- !app_assoc; reflexivity
    |rewrite ?zlen_app, ?zlen_repeat; change (zlen [0; 0x1f]) with 2; lia ..|].
  erewrite bind_eq by exact R4. change (is_ok JLS_SUCCESS) with true. cbv iota.
  rewrite M3 in M4. rewrite L3 in L4. rewrite <- A4 in A0. rewrite S3 in S4.
  rewrite C3 in C4. rewrite W3 in W4.
  rewrite ?zlen_app, ?zlen_repeat in K4. change (zlen [0; 0x1f]) with 2 in K4.
  (* serial number *)
  destruct (parse_str_source_step serial
              (repeat 0 64 ++ name ++ [0; 0x1f] ++ vendor ++ [0; 0x1f] ++ model ++ [0; 0x1f]
               ++ version ++ [0; 0x1f])
              tail src_set_serial_number id r4)
    as (r5 & R5 & M5 & K5 & L5 & A5 & S5 & D5 & C5 & W5);
    [assumption
    |rewrite M4; unfold B; rewrite <- !app_assoc; reflexivity
    |rewrite ?zlen_app, ?zlen_repeat; change (zlen [0; 0x1f]) with 2; lia ..|].
  erewrite bind_eq by exact R5. change (is_ok JLS_SUCCESS) with true. cbv iota.
  eexists. split; [reflexivity|].
  unfold Reader.upd_source_def at 1.
  unfold Reader.get_source_def at 1, arr_get.
  cbn [Reader.set_source_def Reader.source_def Reader.chunk_cur Reader.raw].
  rewrite lookup_insert_eq. simpl default.
  rewrite D5, D4, D3, D2, D1.
  split; [reflexivity|]. split; [exact (eq_trans C5 C4)|exact (eq_trans W5 W4)].
Qed.

(** X13: a source definition whose five strings are not empty, written
    by [jls_wr_source_def] to a writer reached from open under an id that
    is not yet defined: the call returns success, and the walk of
    [scan_sources] from the place of the new chunk returns success with
    the definition in the reader's table under the same id, the five
    strings as written. *)
Theorem source_def_round_trip (defs : list Z) (s : jls_wr_s) (id : Z)
    (name vendor model version serial : list Z) :
  reachable defs s -> 0 <= id < JLS_SOURCE_COUNT -> offset (get_source s id) = 0 ->
  Forall (fun cs => cs <> [] /\ Forall (fun c => c <> 0) cs)
    [name; vendor; model; version; serial] ->
  64 + (zlen name + 2) + (zlen vendor + 2) + (zlen model + 2) + (zlen version + 2)
    + (zlen serial + 2) <= BUFFER_SIZE ->
  let src := mk_source id (Some (name ++ [0])) (Some (vendor ++ [0])) (Some (model ++ [0]))
               (Some (version ++ [0])) (Some (serial ++ [0])) in
  exists s',
    jls_wr_source_def src s = Some (JLS_SUCCESS, s')
    /\ forall (r : Reader.jls_rd_s) (fuel : nat),
         Reader.raw r = mk_raw (chunks (raw s')) (fpos (raw s)) ->
         0 < Reader.alloc_size (Reader.payload r) ->
         Reader.strings_cur r + (zlen name + 1) + (zlen vendor + 1) + (zlen model + 1)
           + (zlen version + 1) + (zlen serial + 1) <= Reader.STRINGS_CAPACITY ->
         exists r',
           Reader.scan_sources_loop (S fuel) r = Some (JLS_SUCCESS, r')
           /\ Reader.get_source_def r' id = src.
Proof.
  intros Hr Hid Hz Hstr Hfit src. pose proof (reachable_inv defs s Hr) as Hinv.
  set (B := repeat 0 64 ++ name ++ [0; 0x1f] ++ vendor ++ [0; 0x1f] ++ model ++ [0; 0x1f]
            ++ version ++ [0; 0x1f] ++ serial ++ [0; 0x1f]).
  assert (Hlen : zlen B = 64 + (zlen name + 2) + (zlen vendor + 2) + (zlen model + 2)
                         + (zlen version + 2) + (zlen serial + 2)).
  { unfold B. rewrite !zlen_app, zlen_repeat. change (zlen [0; 0x1f]) with 2. lia. }
  destruct (source_def_written s id name vendor model version serial Hinv Hid Hz Hstr)
    as (s' & Hrun & Hc); [fold B; lia|]. fold B in Hc.
  exists s'. split; [exact Hrun|].
  intros r fuel Hraw Ha Hs.
  set (h := mk_hdr 0 (offset (source_mra s)) JLS_TAG_SOURCE_DEF 0 id (zlen B)
              (wr_payload_prev_length s)) in Hc.
  assert (Hc' : chunks (Reader.raw r) !! fpos (Reader.raw r) = Some (mk_raw_chunk h B))
    by (rewrite Hraw; exact Hc).
  assert (Hbig : zlen B < 2 ^ 64) by (change BUFFER_SIZE with (2 ^ 20) in Hfit; lia).
  rewrite scan_sources_loop_S.
  erewrite bind_eq by (apply (rd_chunk r _ Hc' Ha); exact Hbig).
  change (is_ok JLS_SUCCESS) with true. cbv iota.
  set (g := Reader.grow 64 (Reader.alloc_size (Reader.payload r))
              (payload_length (rc_hdr (mk_raw_chunk h B)))).
  unfold bind at 1, get_st. cbv zeta.
  change (chunk_meta (Reader.hdr (Reader.chunk_cur (Codec.rd_done (mk_raw_chunk h B) g r))))
    with id.
  change (item_next (Reader.hdr (Reader.chunk_cur (Codec.rd_done (mk_raw_chunk h B) g r))))
    with 0.
  assert (E1 : (JLS_SOURCE_COUNT <=? id) = false) by (apply Z.leb_gt; lia).
  rewrite E1.
  assert (Hg : zlen B <= g).
  { unfold g. cbn [rc_hdr h payload_length].
    destruct (Z.ltb_spec (Reader.alloc_size (Reader.payload r)) (zlen B)).
    - apply grow_reaches; [exact Ha|].
      assert (H64 : 2 ^ Z.of_nat 64 = 2 ^ 64) by reflexivity.
      rewrite H64. nia.
    - pose proof (grow_ge 64 (Reader.alloc_size (Reader.payload r)) (zlen B) Ha). lia. }
  assert (Hnz : Forall (fun cs => Forall (fun c : Z => c <> 0) cs)
                  [name; vendor; model; version; serial]).
  { eapply Forall_impl; [exact Hstr|]. intros cs [_ H]. exact H. }
  destruct (parse_source_strings id name vendor model version serial
              (skipn (length B) (Reader.p_mem (Reader.payload r)))
              (Codec.rd_done (mk_raw_chunk h B) g r) Hnz)
    as (r' & Hparse & Hdef & _); [reflexivity|reflexivity|reflexivity|exact Hg|exact Hs|].
  erewrite bind_eq by exact Hparse.
  change (is_ok JLS_SUCCESS) with true. cbv iota.
  change (0 =? 0) with true. cbv iota.
  exists r'. split; [reflexivity|exact Hdef].
Qed.

Lemma source_def_round_trip_witness :
  let src := mk_source 1 (lit "probe"%string) (lit "jls"%string) (lit "m1"%string)
               (lit "1.0"%string) (lit "0001"%string) in
  exists s',
    jls_wr_source_def src Session.wr_opened = Some (JLS_SUCCESS, s')
    /\ forall (r : Reader.jls_rd_s) (fuel : nat),
         Reader.raw r = mk_raw (chunks (raw s')) (fpos (raw Session.wr_opened)) ->
         0 < Reader.alloc_size (Reader.payload r) ->
         Reader.strings_cur r + (5 + 1) + (3 + 1) + (2 + 1) + (3 + 1) + (4 + 1)
           <= Reader.STRINGS_CAPACITY ->
         exists r',
           Reader.scan_sources_loop (S fuel) r = Some (JLS_SUCCESS, r')
           /\ Reader.get_source_def r' 1 = src.
Proof.
  apply (source_def_round_trip [0] Session.wr_opened 1
           (bytes_of_string "probe") (bytes_of_string "jls") (bytes_of_string "m1")
           (bytes_of_string "1.0") (bytes_of_string "0001") reach_wr_opened).
  - vm_compute. split; [discriminate|reflexivity].
  - vm_compute. reflexivity.
  - vm_compute.
    repeat first [apply Forall_nil | apply Forall_cons | split
                 | (intros HH; discriminate HH)].
  - vm_compute. discriminate.
Defined.

(** ** Walking the user data *)

Lemma list_of_user_data (h : jls_chunk_header_s) :
  list_of h = UserDataList -> tag h = JLS_TAG_USER_DATA.
Proof.
  unfold list_of.
  destruct (tag h =? JLS_TAG_SOURCE_DEF); [discriminate|].
  destruct (Z.eqb_spec (tag h) JLS_TAG_USER_DATA); [auto|].
  destruct (_ || _); discriminate.
Qed.

Lemma list_of_user_data_tag (h : jls_chunk_header_s) :
  tag h = JLS_TAG_USER_DATA -> list_of h = UserDataList.
Proof. intros H. unfold list_of. rewrite H. reflexivity. Qed.

(** X14: in the file of a writer reached from open, with the reader's
    current user-data chunk at a user-data chunk that has a successor and
    is not the head of the list: [jls_rd_user_data_next] moves to the
    successor and [jls_rd_user_data_prev] comes back to the chunk, both
    with success, when the storage types of the two chunks are ones the
    reader accepts. *)
Theorem user_data_next_prev (defs : list Z) (s : jls_wr_s) (r : Reader.jls_rd_s)
    (ud : UserData.jls_rd_user_data_s) (o : Z) (c : raw_chunk) :
  reachable defs s ->
  chunks (Reader.raw r) = chunks (raw s) ->
  0 < Reader.alloc_size (Reader.payload r) ->
  chunks (raw s) !! o = Some c ->
  Reader.user_data_cur r = Reader.mk_chunk (rc_hdr c) o ->
  tag (rc_hdr c) = JLS_TAG_USER_DATA ->
  UserWalk.ud_storage_ok c ->
  item_next (rc_hdr c) <> 0 ->
  (forall c', chunks (raw s) !! item_next (rc_hdr c) = Some c' -> UserWalk.ud_storage_ok c') ->
  o <> u64 (Reader.offset (Reader.user_data_head r)) ->
  exists c' ud1 r1 ud2 r2,
    chunks (raw s) !! item_next (rc_hdr c) = Some c'
    /\ UserData.jls_rd_user_data_next ud r = Some ((JLS_SUCCESS, ud1), r1)
    /\ Reader.user_data_cur r1 = Reader.mk_chunk (rc_hdr c') (item_next (rc_hdr c))
    /\ UserData.ud_data_size ud1 = payload_length (rc_hdr c')
    /\ UserData.jls_rd_user_data_prev ud1 r1 = Some ((JLS_SUCCESS, ud2), r2)
    /\ Reader.user_data_cur r2 = Reader.user_data_cur r
    /\ UserData.ud_data_size ud2 = payload_length (rc_hdr c).
Proof.
  intros Hr Hfile Ha Hc Hcur Htag [Hlen Hst] Hnext Hok Hhead.
  pose proof (reachable_inv defs s Hr) as Hinv.
  destruct (inv_links s Hinv o c Hc Hnext) as (c' & Hc' & Hprev & Hlist).
  destruct (Hok c' Hc') as [Hlen' Hst'].
  assert (Htag' : tag (rc_hdr c') = JLS_TAG_USER_DATA).
  { apply list_of_user_data. rewrite Hlist. apply list_of_user_data_tag, Htag. }
  pose proof (inv_below s Hinv o c Hc) as Ho.
  pose proof (inv_below s Hinv _ c' Hc') as Hn.
  set (N := item_next (rc_hdr c)) in *.
  (* next *)
  set (rs := Reader.set_raw (mk_raw (chunks (Reader.raw r)) N) r).
  assert (Hseek : Reader.raw_seek N r = Some (JLS_SUCCESS, rs)) by reflexivity.
  destruct (rd_user_data_at rs c' ud) as (alloc & Hrd & Halloc);
    [cbn [rs Reader.raw Reader.set_raw chunks fpos]; rewrite Hfile; exact Hc'
    |exact Ha|exact Hlen'|exact Htag'|exact Hst'|].
  match type of Hrd with _ = Some ((_, ?u), ?x) => set (ud1 := u) in *; set (r1 := x) in * end.
  (* prev *)
  set (rs1 := Reader.set_raw (mk_raw (chunks (Reader.raw r1)) o) r1).
  assert (Hseek1 : Reader.raw_seek o r1 = Some (JLS_SUCCESS, rs1)) by reflexivity.
  destruct (rd_user_data_at rs1 c ud1) as (alloc1 & Hrd1 & _);
    [cbn [rs1 r1 rs Codec.rd_done Reader.raw Reader.set_raw Reader.set_user_data_cur
            Reader.set_chunk_cur Reader.set_payload chunks fpos];
     rewrite Hfile; exact Hc
    |exact Halloc|exact Hlen|exact Htag|exact Hst|].
  match type of Hrd1 with _ = Some ((_, ?u), ?x) => set (ud2 := u) in *; set (r2 := x) in * end.
  exists c', ud1, r1, ud2, r2.
  split; [exact Hc'|]. split; [|split; [reflexivity|split; [reflexivity|split]]].
  - unfold UserData.jls_rd_user_data_next, bind at 1, get_st. rewrite Hcur.
    cbn [Reader.offset Reader.hdr]. fold N.
    assert (E : (o =? 0) || (N =? 0) = false).
    { apply orb_false_iff. split; apply Z.eqb_neq; lia. }
    rewrite E. erewrite bind_eq by exact Hseek.
    change (negb (is_ok JLS_SUCCESS)) with false. cbv iota. exact Hrd.
  - unfold UserData.jls_rd_user_data_prev, bind at 1, get_st.
    change (Reader.user_data_cur r1) with (Reader.mk_chunk (rc_hdr c') N).
    change (Reader.user_data_head r1) with (Reader.user_data_head r).
    cbn [Reader.offset Reader.hdr]. rewrite Hprev.
    assert (E : (N <=? 0) || (o =? 0) = false).
    { apply orb_false_iff. split; [apply Z.leb_gt|apply Z.eqb_neq]; lia. }
    rewrite E.
    destruct (Z.eqb_spec o (u64 (Reader.offset (Reader.user_data_head r)))); [contradiction|].
    erewrite bind_eq by exact Hseek1.
    change (negb (is_ok JLS_SUCCESS)) with false. cbv iota. exact Hrd1.
  - split; [|reflexivity]. rewrite Hcur. reflexivity.
Qed.

Lemma wr_ud1_eq :
  jls_wr_user_data 5 JLS_STORAGE_TYPE_BINARY (Some [97; 98; 99]) 3 Session.wr_opened
  = Some (JLS_SUCCESS, UserWalk.wr_ud1).
Proof. vm_compute. reflexivity. Qed.

Lemma wr_ud2_eq :
  jls_wr_user_data 6 JLS_STORAGE_TYPE_STRING (Some [100; 101; 0]) 0 UserWalk.wr_ud1
  = Some (JLS_SUCCESS, UserWalk.wr_ud2).
Proof. vm_compute. reflexivity. Qed.

Lemma reach_wr_ud2 : reachable [0] UserWalk.wr_ud2.
Proof.
  assert (H1 : reachable [0] UserWalk.wr_ud1).
  { apply (reach_call [0] Session.wr_opened
             (CallUserData 5 JLS_STORAGE_TYPE_BINARY (Some [97; 98; 99]) 3) JLS_SUCCESS).
    - exact reach_wr_opened.
    - vm_compute. split; [discriminate|reflexivity].
    - exact wr_ud1_eq. }
  apply (reach_call [0] UserWalk.wr_ud1
           (CallUserData 6 JLS_STORAGE_TYPE_STRING (Some [100; 101; 0]) 0) JLS_SUCCESS).
  - exact H1.
  - vm_compute. split; [discriminate|reflexivity].
  - exact wr_ud2_eq.
Qed.

Lemma user_data_next_prev_witness :
  let o := fpos (raw Session.wr_opened) in
  let c := UserWalk.chunk_at UserWalk.wr_ud2 o in
  let r := UserWalk.rd_at_ud1 in
  exists c' ud1 r1 ud2 r2,
    chunks (raw UserWalk.wr_ud2) !! item_next (rc_hdr c) = Some c'
    /\ UserData.jls_rd_user_data_next (UserData.mk_user_data 0 0 [] 0) r
       = Some ((JLS_SUCCESS, ud1), r1)
    /\ Reader.user_data_cur r1 = Reader.mk_chunk (rc_hdr c') (item_next (rc_hdr c))
    /\ UserData.ud_data_size ud1 = payload_length (rc_hdr c')
    /\ UserData.jls_rd_user_data_prev ud1 r1 = Some ((JLS_SUCCESS, ud2), r2)
    /\ Reader.user_data_cur r2 = Reader.user_data_cur r
    /\ UserData.ud_data_size ud2 = payload_length (rc_hdr c).
Proof.
  pose proof (user_data_next_prev [0] UserWalk.wr_ud2 UserWalk.rd_at_ud1
           (UserData.mk_user_data 0 0 [] 0) (fpos (raw Session.wr_opened))
           (UserWalk.chunk_at UserWalk.wr_ud2 (fpos (raw Session.wr_opened)))
           reach_wr_ud2) as W.
  assert (H1 : chunks (Reader.raw UserWalk.rd_at_ud1) = chunks (raw UserWalk.wr_ud2))
    by (vm_compute; reflexivity).
  assert (H2 : 0 < Reader.alloc_size (Reader.payload UserWalk.rd_at_ud1))
    by (vm_compute; reflexivity).
  assert (H3 : chunks (raw UserWalk.wr_ud2) !! fpos (raw Session.wr_opened)
               = Some (UserWalk.chunk_at UserWalk.wr_ud2 (fpos (raw Session.wr_opened))))
    by (vm_compute; reflexivity).
  assert (H4 : Reader.user_data_cur UserWalk.rd_at_ud1
               = Reader.mk_chunk
                   (rc_hdr (UserWalk.chunk_at UserWalk.wr_ud2 (fpos (raw Session.wr_opened))))
                   (fpos (raw Session.wr_opened)))
    by (vm_compute; reflexivity).
  specialize (W H1 H2 H3 H4).
  intros o c r. apply W.
  - vm_compute; reflexivity.
  - vm_compute; split; [reflexivity|left; reflexivity].
  - vm_compute; discriminate.
  - intros c' HH.
    assert (HN : chunks (raw UserWalk.wr_ud2)
                 !! item_next (rc_hdr (UserWalk.chunk_at UserWalk.wr_ud2
                                         (fpos (raw Session.wr_opened))))
                 = Some (UserWalk.chunk_at UserWalk.wr_ud2 (fpos (raw UserWalk.wr_ud1))))
      by (vm_compute; reflexivity).
    assert (E : c' = UserWalk.chunk_at UserWalk.wr_ud2 (fpos (raw UserWalk.wr_ud1)))
      by congruence.
    rewrite E. vm_compute; split; [reflexivity|right; left; reflexivity].
  - vm_compute; discriminate.
Defined.

(** ** Annotations *)

Lemma roe_step (m k : W jls_ec) (s s1 : jls_wr_s) :
  m s = Some (JLS_SUCCESS, s1) -> (ROE m ;; k) s = k s1.
Proof. intros H. unfold bind. rewrite H. reflexivity. Qed.

Lemma buf_wr_u8_fits (v : Z) (s : jls_wr_s) :
  zlen (buf s) < BUFFER_SIZE ->
  buf_wr_u8 v s = Some (JLS_SUCCESS, set_buf (buf s ++ [u8 v]) s).
Proof.
  intros H. unfold buf_wr_u8. rewrite bind_get_st.
  destruct (Z.leb_spec BUFFER_SIZE (zlen (buf s))); [lia|reflexivity].
Qed.

Lemma buf_wr_u64_fits (v : Z) (s : jls_wr_s) :
  zlen (buf s) + 9 <= BUFFER_SIZE ->
  exists bs, zlen bs = 9 /\ buf_wr_u64 v s = Some (JLS_SUCCESS, set_buf (buf s ++ bs) s).
Proof.
  intros H. unfold buf_wr_u64. rewrite bind_get_st.
  destruct (Z.leb_spec BUFFER_SIZE (zlen (buf s) + 3)); [lia|].
  destruct (Z.ltb_spec BUFFER_SIZE (zlen (buf s) + 9)); [lia|].
  eexists. split; [|reflexivity]. reflexivity.
Qed.

Lemma buf_add_zero_fits (n : Z) (s : jls_wr_s) :
  zlen (buf s) + n <= BUFFER_SIZE ->
  buf_add_zero n s = Some (JLS_SUCCESS, set_buf (buf s ++ repeat 0 (Z.to_nat n)) s).
Proof.
  intros H. unfold buf_add_zero. rewrite bind_get_st.
  destruct (Z.ltb_spec BUFFER_SIZE (zlen (buf s) + n)); [lia|reflexivity].
Qed.

Lemma buf_add_bin_fits (d : list Z) (n : Z) (s : jls_wr_s) :
  0 <= n <= zlen d -> zlen (buf s) + n <= BUFFER_SIZE ->
  buf_add_bin (Some d) n s
  = Some (JLS_SUCCESS, set_buf (buf s ++ firstn (Z.to_nat n) d) s).
Proof.
  intros Hn H. unfold buf_add_bin. rewrite bind_get_st.
  destruct (Z.ltb_spec BUFFER_SIZE (zlen (buf s) + n)); [lia|].
  rewrite mem_read_some by exact Hn. reflexivity.
Qed.

(** the scratch buffer when [anno_wr] writes a binary annotation: the
    timestamp takes nine bytes, so seventeen bytes come before the data *)
Lemma anno_binary_buf (timestamp annotation_type : Z) (d : list Z) (n : Z) (k : W jls_ec)
    (s : jls_wr_s) :
  0 <= n <= zlen d -> 17 + n <= BUFFER_SIZE ->
  exists B,
    zlen B = 17 + n
    /\ (DO buf_reset ;;
        ROE buf_wr_u64 timestamp ;;
        ROE buf_wr_u8 annotation_type ;;
        ROE buf_wr_u8 JLS_STORAGE_TYPE_BINARY ;;
        ROE buf_add_zero 6 ;;
        ROE buf_add_bin (Some d) n ;;
        k) s = k (set_buf B s).
Proof.
  intros Hn Hfit. pose proof BUFFER_SIZE_eq as HB.
  unfold buf_reset. rewrite bind_modify.
  destruct (buf_wr_u64_fits timestamp (set_buf [] s)) as (bs & Hbs & H64);
    [cbn [buf set_buf]; change (zlen (@nil Z)) with 0; lia|].
  rewrite (roe_step _ _ _ _ H64). cbn [buf set_buf]. rewrite set_buf_set_buf.
  assert (Hside : forall x : Z, zlen [x] = 1) by reflexivity.
  erewrite roe_step
    by (apply buf_wr_u8_fits; cbn [buf set_buf];
        rewrite ?zlen_app, ?Hbs, ?Hside; change (zlen (@nil Z)) with 0; lia).
  cbn [buf set_buf]. rewrite set_buf_set_buf.
  erewrite roe_step
    by (apply buf_wr_u8_fits; cbn [buf set_buf];
        rewrite ?zlen_app, ?Hbs, ?Hside; change (zlen (@nil Z)) with 0; lia).
  cbn [buf set_buf]. rewrite set_buf_set_buf.
  erewrite roe_step
    by (apply buf_add_zero_fits; cbn [buf set_buf];
        rewrite ?zlen_app, ?Hbs, ?Hside; change (zlen (@nil Z)) with 0; lia).
  cbn [buf set_buf]. rewrite set_buf_set_buf.
  erewrite roe_step
    by (apply buf_add_bin_fits; [exact Hn|]; cbn [buf set_buf];
        rewrite ?zlen_app, ?Hbs, ?Hside, ?zlen_repeat; change (zlen (@nil Z)) with 0; lia).
  cbn [buf set_buf]. rewrite set_buf_set_buf.
  eexists. split; [|reflexivity].
  rewrite !zlen_app, Hbs, !Hside, zlen_repeat, zlen_firstn by lia.
  change (zlen (@nil Z)) with 0. lia.
Qed.

(** X15: a binary annotation of [n] bytes on a defined FSR signal of a
    writer reached from open.  [anno_wr] builds seventeen bytes and the
    data in the scratch buffer, and then writes the chunk from [data]
    itself with the length of the buffer: with [17 + n] bytes readable at
    [data] the call returns success and the payload of the new chunk is
    those bytes of [data]; with fewer the read goes past them and the call
    has no defined result. *)
Theorem fsr_annotation_binary (defs : list Z) (s : jls_wr_s)
    (id sample_id annotation_type : Z) (d : list Z) (n : Z) :
  reachable defs s -> 0 <= id < JLS_SIGNAL_COUNT ->
  offset (chunk_def (get_info s id)) <> 0 ->
  signal_type (signal_def (get_info s id)) = JLS_SIGNAL_TYPE_FSR ->
  0 <= annotation_type < 256 ->
  0 <= n <= zlen d -> 17 + n <= BUFFER_SIZE ->
  let h := mk_hdr 0 (offset (data_mra id JLS_TRACK_TYPE_ANNOTATION s))
             JLS_TAG_TRACK_ANNOTATION_DATA 0 id (17 + n) (wr_payload_prev_length s) in
  if 17 + n <=? zlen d then
    exists s',
      jls_wr_fsr_annotation id sample_id annotation_type JLS_STORAGE_TYPE_BINARY (Some d) n s
      = Some (JLS_SUCCESS, s')
      /\ chunks (raw s') !! fpos (raw s)
         = Some (mk_raw_chunk h (firstn (Z.to_nat (17 + n)) d))
      /\ fpos (raw s') = fpos (raw s) + chunk_size (17 + n)
  else
    jls_wr_fsr_annotation id sample_id annotation_type JLS_STORAGE_TYPE_BINARY (Some d) n s
    = None.
Proof.
  intros Hr Hid Hdef Hty Hat Hn Hfit h. pose proof (reachable_inv defs s Hr) as Hinv.
  pose proof BUFFER_SIZE_eq as HB.
  assert (Hu : mra_used (MraData id JLS_TRACK_TYPE_ANNOTATION)) by (split; [exact Hid|auto]).
  assert (E1 : (JLS_SIGNAL_COUNT <=? id) = false) by (apply Z.leb_gt; lia).
  assert (E2 : (offset (chunk_def (get_info s id)) =? 0) = false)
    by (apply Z.eqb_neq; exact Hdef).
  assert (E3 : Z.land annotation_type 0xff = annotation_type).
  { change 0xff with (Z.ones 8). rewrite Z.land_ones by lia. apply Z.mod_small. lia. }
  assert (Hcall : exists B, zlen B = 17 + n /\
    jls_wr_fsr_annotation id sample_id annotation_type JLS_STORAGE_TYPE_BINARY (Some d) n s
    = match mem_read (Some d) (17 + n) with
      | None => undefined
      | Some payload =>
        ROE raw_wr h payload ;;
        DO modify (set_payload_prev_length (17 + n)) ;;
        update_mra (data_mra id JLS_TRACK_TYPE_ANNOTATION)
                   (set_data_mra id JLS_TRACK_TYPE_ANNOTATION) (mk_chunk h (fpos (raw s)))
      end (set_buf B s)).
  { unfold jls_wr_fsr_annotation.
    erewrite bind_eq by apply signal_validate_typed_result.
    rewrite E1, E2, Hty.
    change (negb (JLS_SIGNAL_TYPE_FSR =? JLS_SIGNAL_TYPE_FSR)) with false. cbv iota.
    change (is_ok JLS_SUCCESS) with true. cbv iota.
    unfold anno_wr. erewrite bind_eq by apply signal_validate_result.
    rewrite E1, E2. change (is_ok JLS_SUCCESS) with true. cbv iota.
    rewrite E3, Z.eqb_refl.
    change (negb true) with false. cbv iota.
    change (negb (Z.land JLS_STORAGE_TYPE_BINARY 255 =? JLS_STORAGE_TYPE_BINARY)) with false.
    cbv iota.
    change (JLS_STORAGE_TYPE_BINARY =? JLS_STORAGE_TYPE_BINARY) with true. cbv iota zeta.
    match goal with
    | |- exists B, _ /\ bind buf_reset (fun _ =>
           bind _ (fun _ => if _ then
           bind _ (fun _ => if _ then
           bind _ (fun _ => if _ then
           bind _ (fun _ => if _ then
           bind _ (fun _ => if _ then ?k else _) else _) else _) else _) else _)) s = _ =>
        destruct (anno_binary_buf sample_id annotation_type d n k s Hn Hfit)
          as (B & HlenB & Hrun)
    end.
    exists B. split; [exact HlenB|]. rewrite Hrun.
    rewrite bind_buf_size, bind_get_st, bind_tell.
    cbn [buf set_buf]. rewrite HlenB, u32_small by lia. reflexivity. }
  destruct Hcall as (B & HlenB & Hcall). rewrite Hcall.
  destruct (Z.leb_spec (17 + n) (zlen d)) as [Hlong|Hshort].
  - rewrite mem_read_some by lia.
    destruct (append_result (MraData id JLS_TRACK_TYPE_ANNOTATION) h
                (firstn (Z.to_nat (17 + n)) d) (17 + n) (set_buf B s)
                (wr_inv_set_buf _ _ Hinv) Hu)
      as (s' & Hrun & Hc & Hpos & _).
    exists s'. split; [exact Hrun|split; [exact Hc|exact Hpos]].
  - unfold mem_read. destruct (Z.eqb_spec (17 + n) 0); [lia|].
    destruct (Z.leb_spec (17 + n) (zlen d)); [lia|reflexivity].
Qed.

Lemma fsr_annotation_binary_witness :
  let s := Session2.wr_sig2 in
  let d := Session.ramp 20 in
  let h := mk_hdr 0 (offset (data_mra 1 JLS_TRACK_TYPE_ANNOTATION s))
             JLS_TAG_TRACK_ANNOTATION_DATA 0 1 (17 + 3) (wr_payload_prev_length s) in
  exists s',
    jls_wr_fsr_annotation 1 0 2 JLS_STORAGE_TYPE_BINARY (Some d) 3 s = Some (JLS_SUCCESS, s')
    /\ chunks (raw s') !! fpos (raw s) = Some (mk_raw_chunk h (firstn (Z.to_nat (17 + 3)) d))
    /\ fpos (raw s') = fpos (raw s) + chunk_size (17 + 3).
Proof.
  pose proof (fsr_annotation_binary [1; 0] Session2.wr_sig2 1 0 2 (Session.ramp 20) 3
                reach_wr_sig2) as W.
  cbv zeta in W.
  change (17 + 3 <=? zlen (Session.ramp 20)) with true in W. cbv iota in W.
  apply W.
  - vm_compute. split; [discriminate|reflexivity].
  - vm_compute. discriminate.
  - vm_compute. reflexivity.
  - vm_compute. split; [discriminate|reflexivity].
  - vm_compute. split; discriminate.
  - vm_compute. discriminate.
Defined.

(** ** Calls that fail *)

Lemma succeeds_ret : Outcome.succeeds (ret JLS_SUCCESS).
Proof. intros s rc s' H. injection H as <- _. reflexivity. Qed.

Lemma succeeds_undefined : Outcome.succeeds undefined.
Proof. intros s rc s' H. discriminate. Qed.

Lemma succeeds_bind {A} (m : W A) (k : A -> W jls_ec) :
  (forall a, Outcome.succeeds (k a)) -> Outcome.succeeds (bind m k).
Proof. intros Hk s rc s' H. apply bind_Some in H as (a & s1 & _ & H2). eapply Hk, H2. Qed.

Lemma succeeds_roe (m k : W jls_ec) :
  Outcome.succeeds m -> Outcome.succeeds k -> Outcome.succeeds (ROE m ;; k).
Proof.
  intros Hm Hk s rc s' H. apply bind_Some in H as (rc1 & s1 & H1 & H2).
  rewrite (Hm _ _ _ H1) in H2. eapply Hk, H2.
Qed.

Lemma succeeds_lift_raw (f : jls_raw_s -> jls_ec * jls_raw_s) :
  (forall r, fst (f r) = JLS_SUCCESS) -> Outcome.succeeds (lift_raw f).
Proof.
  intros Hf s rc s' H. unfold lift_raw in H. specialize (Hf (raw s)).
  destruct (f (raw s)) as [rc1 r]. injection H as <- _. exact Hf.
Qed.

Ltac succ_step :=
  match goal with
  | |- Outcome.succeeds (ret JLS_SUCCESS) => apply succeeds_ret
  | |- Outcome.succeeds undefined => apply succeeds_undefined
  | |- Outcome.succeeds (raw_wr _ _) => apply succeeds_lift_raw; intros ?; reflexivity
  | |- Outcome.succeeds (lift_raw1 _ _) => apply succeeds_lift_raw; intros ?; reflexivity
  | |- Outcome.succeeds (lift_raw _) => apply succeeds_lift_raw; intros ?; reflexivity
  | |- Outcome.succeeds (bind _ (fun rc => if is_ok rc then _ else ret rc)) =>
      apply succeeds_roe
  | |- Outcome.succeeds (bind _ _) => apply succeeds_bind; intros ?
  | |- Outcome.succeeds (if ?c then _ else _) => destruct c
  | |- Outcome.succeeds (match ?x with _ => _ end) => destruct x
  | |- Outcome.succeeds _ => progress cbv zeta
  end.
Ltac succ := repeat succ_step.

Lemma succeeds_update_mra g st c : Outcome.succeeds (update_mra g st c).
Proof. unfold update_mra. succ. Qed.

Lemma succeeds_track_wr_def id ty : Outcome.succeeds (track_wr_def id ty).
Proof. unfold track_wr_def. succ. apply succeeds_update_mra. Qed.

Lemma succeeds_track_wr_head id ty : Outcome.succeeds (track_wr_head id ty).
Proof. unfold track_wr_head. succ. apply succeeds_update_mra. Qed.

Lemma succeeds_wr_tracks id tys : Outcome.succeeds (wr_tracks id tys).
Proof.
  induction tys as [|ty tys IH]; simpl wr_tracks; [apply succeeds_ret|].
  apply succeeds_roe; [apply succeeds_track_wr_def|].
  apply succeeds_roe; [apply succeeds_track_wr_head|exact IH].
Qed.

Lemma succeeds_fsr_f32_loop fuel id sample_id data n wc :
  Outcome.succeeds (fsr_f32_loop fuel id sample_id data n wc).
Proof.
  induction fuel as [|fuel IH]; rewrite fsr_f32_loop_eq.
  - succ.
  - succ; first [apply succeeds_update_mra | exact IH].
Qed.

(** *** What a failed call has left alone *)

Section FailsKeeps.
Context {X : Type} (P : jls_wr_s -> X).

Lemma fails_keeps_ret rc : Outcome.fails_keeps P (ret rc).
Proof. intros s rc' s' H. injection H as _ <-. right. reflexivity. Qed.

Lemma fails_keeps_succeeds m : Outcome.succeeds m -> Outcome.fails_keeps P m.
Proof. intros Hm s rc s' H. left. eapply Hm, H. Qed.

Lemma fails_keeps_bind {A} (m : W A) (k : A -> W jls_ec) :
  preserves P m -> (forall a, Outcome.fails_keeps P (k a)) ->
  Outcome.fails_keeps P (bind m k).
Proof.
  intros Hm Hk s rc s' H. apply bind_Some in H as (a & s1 & H1 & H2).
  destruct (Hk _ _ _ _ H2) as [->|E]; [left; reflexivity|right].
  rewrite E. eapply Hm, H1.
Qed.

End FailsKeeps.

(** a failed computation has left [P] alone: step by step; the goals
    left are the facts about the setters before the first write *)
Ltac fk_step :=
  first [ apply fails_keeps_succeeds;
          solve [succ; first [apply succeeds_update_mra | apply succeeds_wr_tracks
                             | apply succeeds_fsr_f32_loop]]
        | match goal with
          | |- Outcome.fails_keeps _ (ret _) => apply fails_keeps_ret
          | |- Outcome.fails_keeps _ undefined =>
              apply fails_keeps_succeeds, succeeds_undefined
          | |- Outcome.fails_keeps _ (match (if ?c then _ else _) with _ => _ end) =>
              destruct c
          | |- Outcome.fails_keeps _ (bind _ _) =>
              apply fails_keeps_bind; [keep|intros ?]
          | |- Outcome.fails_keeps _ (if ?c then _ else _) => destruct c
          | |- Outcome.fails_keeps _ (match ?x with _ => _ end) => destruct x
          | |- Outcome.fails_keeps _ _ => progress cbv zeta
          end ].
Ltac fk := repeat fk_step.

Lemma def_offset_set_info id i x s :
  chunk_def x = chunk_def (get_info s i) ->
  Outcome.def_offset id (set_info i x s) = Outcome.def_offset id s.
Proof.
  intros Hc. unfold Outcome.def_offset. rewrite get_info_set_info.
  destruct (decide (i = id)) as [->|]; [rewrite Hc|]; reflexivity.
Qed.

Lemma source_def_fails_raw source : Outcome.fails_keeps raw (jls_wr_source_def source).
Proof. unfold jls_wr_source_def. fk; reflexivity. Qed.

Lemma source_def_fails_sources source :
  Outcome.fails_keeps source_info (jls_wr_source_def source).
Proof. unfold jls_wr_source_def. fk; reflexivity. Qed.

Lemma source_def_fails_def id source :
  Outcome.fails_keeps (Outcome.def_offset id) (jls_wr_source_def source).
Proof. unfold jls_wr_source_def. fk; reflexivity. Qed.

Lemma signal_def_fails_raw signal : Outcome.fails_keeps raw (jls_wr_signal_def signal).
Proof. unfold jls_wr_signal_def, upd_info. fk; reflexivity. Qed.

Lemma signal_def_fails_sources signal :
  Outcome.fails_keeps source_info (jls_wr_signal_def signal).
Proof. unfold jls_wr_signal_def, upd_info. fk; reflexivity. Qed.

Lemma signal_def_fails_def id signal :
  Outcome.fails_keeps (Outcome.def_offset id) (jls_wr_signal_def signal).
Proof.
  unfold jls_wr_signal_def, upd_info. fk; try reflexivity;
    apply def_offset_set_info; try reflexivity.
  all: repeat match goal with |- context [if ?c then _ else _] => destruct c end; reflexivity.
Qed.

(** the calls that change nothing but the scratch buffer before they
    write *)
Ltac fk_call :=
  unfold wr_exec, jls_wr_user_data, jls_wr_fsr_f32, jls_wr_fsr_annotation,
    jls_wr_vsr_annotation, jls_wr_fsr_utc, anno_wr, signal_validate_typed, signal_validate;
  fk; reflexivity.

Lemma wr_exec_fails_raw c : Outcome.fails_keeps raw (wr_exec c).
Proof.
  destruct c; [apply source_def_fails_raw|apply signal_def_fails_raw|..]; fk_call.
Qed.

Lemma wr_exec_fails_sources c : Outcome.fails_keeps source_info (wr_exec c).
Proof.
  destruct c; [apply source_def_fails_sources|apply signal_def_fails_sources|..]; fk_call.
Qed.

Lemma wr_exec_fails_def id c : Outcome.fails_keeps (Outcome.def_offset id) (wr_exec c).
Proof.
  destruct c; [apply source_def_fails_def|apply signal_def_fails_def|..]; fk_call.
Qed.

(** X16: a call of the writer that returns an error has written nothing:
    the file and the position in it are as before the call, and so are
    the table of the defined sources and the definition chunk of every
    signal.  Every check of a call comes before its first write; the
    writes of the raw layer are taken to succeed. *)
Theorem failed_call_writes_nothing (c : wr_call) (s : jls_wr_s) (rc : jls_ec)
    (s' : jls_wr_s) :
  wr_exec c s = Some (rc, s') -> rc <> JLS_SUCCESS ->
  raw s' = raw s
  /\ source_info s' = source_info s
  /\ forall id, offset (chunk_def (get_info s' id)) = offset (chunk_def (get_info s id)).
Proof.
  intros H Hrc. split; [|split; [|intros id]].
  - destruct (wr_exec_fails_raw c s rc s' H); [contradiction|assumption].
  - destruct (wr_exec_fails_sources c s rc s' H); [contradiction|assumption].
  - destruct (wr_exec_fails_def id c s rc s' H); [contradiction|assumption].
Qed.

Lemma wr_refused_eq :
  jls_wr_signal_def Session2.signal_u8 Session2.wr_src1
  = Some (JLS_ERROR_NOT_SUPPORTED, Session2.wr_refused).
Proof. vm_compute. reflexivity. Qed.

Lemma failed_call_writes_nothing_witness :
  let s := Session2.wr_src1 in
  let s' := Session2.wr_refused in
  raw s' = raw s
  /\ source_info s' = source_info s
  /\ forall id, offset (chunk_def (get_info s' id)) = offset (chunk_def (get_info s id)).
Proof.
  apply (failed_call_writes_nothing (CallSignalDef Session2.signal_u8) Session2.wr_src1
           JLS_ERROR_NOT_SUPPORTED Session2.wr_refused).
  - exact wr_refused_eq.
  - discriminate.
Defined.

(** ** Opening a file *)

(** X17: [jls_rd_open] on a file with no chunk after the file header
    returns success: [scan] takes the Empty of the first read as the end
    of the file.  The reader then lists one source and one signal, both
    with id 0 and no strings, since a table entry that was never filled
    has the id 0. *)
Theorem rd_open_no_chunk (fuel : nat) (f : gmap Z raw_chunk) :
  f !! FILE_HEADER_SIZE = None ->
  exists r,
    Reader.jls_rd_open (S fuel) f = Some (JLS_SUCCESS, r)
    /\ Reader.jls_rd_sources r = (JLS_SUCCESS, [source0])
    /\ Reader.jls_rd_signals r = (JLS_SUCCESS, [signal0]).
Proof.
  intros Hf. unfold Reader.jls_rd_open, Reader.scan.
  assert (Hscan : Reader.scan_loop (S fuel) 0 (Reader.rd_init f)
                  = Some (Some JLS_SUCCESS,
                          Reader.set_chunk_cur
                            (Reader.mk_chunk (Reader.hdr (Reader.chunk_cur (Reader.rd_init f)))
                               (fpos (Reader.raw (Reader.rd_init f)))) (Reader.rd_init f))).
  { cbn [Reader.scan_loop]. change (0 =? 7) with false. cbv iota.
    unfold bind at 1, Reader.tell.
    erewrite bind_eq by (apply rd_no_chunk; exact Hf).
    reflexivity. }
  eexists. split.
  - erewrite bind_eq by (erewrite bind_eq by exact Hscan; reflexivity).
    reflexivity.
  - split; vm_compute; reflexivity.
Qed.

Lemma rd_open_no_chunk_witness :
  exists r,
    Reader.jls_rd_open 1 ∅ = Some (JLS_SUCCESS, r)
    /\ Reader.jls_rd_sources r = (JLS_SUCCESS, [source0])
    /\ Reader.jls_rd_signals r = (JLS_SUCCESS, [signal0]).
Proof. apply (rd_open_no_chunk 0 ∅). reflexivity. Defined.

(** ** Numbers on the command line *)

Lemma isspace_nonzero (c : Z) : Performance._isspace c = true -> c <> 0.
Proof. unfold Performance._isspace. intros H ->. discriminate H. Qed.

Lemma isspace_not_digit (c : Z) :
  Performance._isspace c = true -> (48 <=? c) && (c <=? 57) = false.
Proof.
  unfold Performance._isspace. intros H.
  apply orb_true_iff in H as [H|H].
  - apply Z.eqb_eq in H. subst c. reflexivity.
  - apply andb_true_iff in H as [H1 H2]. apply Z.leb_le in H1, H2.
    apply andb_false_iff. left. apply Z.leb_gt. lia.
Qed.

Lemma digit_test (c : Z) : Performance.is_digit c -> (48 <=? c) && (c <=? 57) = true.
Proof.
  intros [H1 H2]. apply andb_true_iff. split; apply Z.leb_le; assumption.
Qed.

Lemma digit_not_space (c : Z) :
  Performance.is_digit c -> negb (c =? 0) && Performance._isspace c = false.
Proof.
  intros [H1 H2]. unfold Performance._isspace.
  destruct (Z.eqb_spec c 0); [lia|]. destruct (Z.eqb_spec c 32); [lia|].
  destruct (Z.leb_spec 9 c); [|reflexivity].
  destruct (Z.leb_spec c 13); [lia|reflexivity].
Qed.

Lemma skip_spaces_app (sp m : list Z) :
  Forall (fun c => Performance._isspace c = true) sp ->
  Performance.skip_spaces (sp ++ m) = Performance.skip_spaces m.
Proof.
  induction 1 as [|c sp Hc _ IH]; [reflexivity|].
  simpl. rewrite Hc. destruct (Z.eqb_spec c 0) as [->|_]; [discriminate Hc|exact IH].
Qed.

Lemma fold_digits_mod (l : list Z) : forall x y : Z,
  x mod 2 ^ 32 = y mod 2 ^ 32 ->
  fold_left (fun v c => v * 10 + (c - 48)) l x mod 2 ^ 32
  = fold_left (fun v c => v * 10 + (c - 48)) l y mod 2 ^ 32.
Proof.
  induction l as [|e l IHl]; intros x y Hxy; [exact Hxy|].
  simpl. apply IHl.
  rewrite (Z.add_mod (x * 10)), (Z.add_mod (y * 10)) by lia.
  rewrite (Z.mul_mod x), (Z.mul_mod y), Hxy by lia. reflexivity.
Qed.

Lemma digits_app (ds m : list Z) (v : Z) :
  Forall Performance.is_digit ds -> 0 <= v < 2 ^ 32 ->
  Performance.digits (ds ++ m) v
  = Performance.digits m
      (fold_left (fun v c => v * 10 + (c - 48)) ds v mod 2 ^ 32).
Proof.
  intros Hds. revert v. induction Hds as [|c ds Hc _ IH]; intros v Hv.
  - simpl. rewrite Z.mod_small by exact Hv. reflexivity.
  - simpl. rewrite (digit_test c Hc).
    rewrite IH by (unfold u32; apply Z.mod_pos_bound; reflexivity).
    f_equal. unfold u32. apply fold_digits_mod, Z.mod_mod. lia.
Qed.

Lemma trailing_spaces (sp rest : list Z) :
  Forall (fun c => Performance._isspace c = true) sp ->
  Performance.trailing (sp ++ 0 :: rest) = Some true.
Proof.
  induction 1 as [|c sp Hc _ IH]; [reflexivity|].
  simpl. rewrite Hc. destruct (Z.eqb_spec c 0) as [->|_]; [discriminate Hc|exact IH].
Qed.

(** X18: [cstr_to_u32] on decimal digits between spaces: it returns 0
    and stores the number the digits stand for, modulo 2^32.  The digits
    are added up in a [uint32_t], so a number of 2^32 or more is taken
    without an error. *)
Theorem cstr_to_u32_decimal (sp1 ds sp2 rest : list Z) (old : Z) :
  Forall (fun c => Performance._isspace c = true) sp1 ->
  ds <> [] -> Forall Performance.is_digit ds ->
  Forall (fun c => Performance._isspace c = true) sp2 ->
  Performance.cstr_to_u32 (Some (sp1 ++ ds ++ sp2 ++ 0 :: rest)) (Some old)
  = Some (0, Some (Performance.decimal ds mod 2 ^ 32)).
Proof.
  intros Hsp1 Hne Hds Hsp2.
  unfold Performance.cstr_to_u32, Performance.cstr_to_i64.
  rewrite skip_spaces_app by exact Hsp1.
  destruct ds as [|c ds]; [congruence|].
  inversion Hds as [|? ? Hc Hds']; subst.
  assert (Hskip : Performance.skip_spaces ((c :: ds) ++ sp2 ++ 0 :: rest)
                  = Some ((c :: ds) ++ sp2 ++ 0 :: rest)).
  { simpl. rewrite (digit_not_space c Hc). reflexivity. }
  rewrite Hskip. cbn [app].
  destruct (Z.eqb_spec c 0) as [->|_]; [destruct Hc; lia|].
  change (c :: ds ++ sp2 ++ 0 :: rest) with ((c :: ds) ++ sp2 ++ 0 :: rest).
  rewrite digits_app by (try exact Hds; lia).
  fold (Performance.decimal (c :: ds)).
  set (v := Performance.decimal (c :: ds) mod 2 ^ 32).
  assert (Hv : 0 <= v < 2 ^ 32) by (apply Z.mod_pos_bound; reflexivity).
  assert (Hdig : Performance.digits (sp2 ++ 0 :: rest) v = Some (sp2 ++ 0 :: rest, v)).
  { destruct sp2 as [|e sp2]; [reflexivity|].
    inversion Hsp2; subst. simpl. rewrite isspace_not_digit by assumption. reflexivity. }
  rewrite Hdig, trailing_spaces by exact Hsp2.
  simpl default.
  destruct (Z.ltb_spec v 0); [lia|].
  change (Z.shiftl 1 32) with (2 ^ 32).
  destruct (Z.ltb_spec (2 ^ 32) v); [lia|].
  simpl orb. cbv iota. unfold u32. rewrite Z.mod_small by exact Hv. reflexivity.
Qed.

Lemma cstr_to_u32_decimal_witness :
  Performance.cstr_to_u32 (lit " 4294967297 "%string) (Some 7)
  = Some (0, Some 1).
Proof.
  apply (cstr_to_u32_decimal [32] (bytes_of_string "4294967297") [32] [] 7).
  - repeat constructor.
  - discriminate.
  - vm_compute. repeat constructor; discriminate.
  - repeat constructor.
Defined.

Lemma skip_spaces_inv (m m1 : list Z) :
  Performance.skip_spaces m = Some m1 ->
  exists sp, m = sp ++ m1 /\ Forall (fun c => Performance._isspace c = true) sp
             /\ match m1 with
                | [] => False
                | c :: _ => c = 0 \/ Performance._isspace c = false
                end.
Proof.
  induction m as [|c m IH]; [discriminate|]. simpl.
  destruct (Z.eqb_spec c 0) as [->|Hc]; simpl negb; cbv iota.
  - intros H. injection H as <-. exists []. split; [reflexivity|]. split; [constructor|auto].
  - simpl andb. destruct (Performance._isspace c) eqn:Hs.
    + intros H. destruct (IH H) as (sp & -> & Hsp & Hm1).
      exists (c :: sp). split; [reflexivity|]. split; [constructor; assumption|exact Hm1].
    + intros H. injection H as <-. exists []. split; [reflexivity|].
      split; [constructor|auto].
Qed.

Lemma digits_inv (m : list Z) : forall (v : Z) (m2 : list Z) (v' : Z),
  0 <= v < 2 ^ 32 ->
  Performance.digits m v = Some (m2, v') ->
  exists ds, m = ds ++ m2 /\ Forall Performance.is_digit ds
             /\ v' = fold_left (fun v c => v * 10 + (c - 48)) ds v mod 2 ^ 32.
Proof.
  induction m as [|c m IH]; intros v m2 v' Hv; [discriminate|]. simpl.
  destruct ((48 <=? c) && (c <=? 57)) eqn:Hd.
  - intros H.
    assert (Hc : Performance.is_digit c).
    { apply andb_true_iff in Hd as [H1 H2]. apply Z.leb_le in H1, H2. split; assumption. }
    apply IH in H as (ds & -> & Hds & ->);
      [|unfold u32; apply Z.mod_pos_bound; reflexivity].
    exists (c :: ds). split; [reflexivity|]. split; [constructor; assumption|].
    simpl. unfold u32. apply fold_digits_mod, Z.mod_mod. lia.
  - intros H. injection H as <- <-. exists []. split; [reflexivity|]. split; [constructor|].
    simpl. rewrite Z.mod_small by exact Hv. reflexivity.
Qed.

Lemma trailing_inv (m : list Z) :
  Performance.trailing m = Some true ->
  exists sp rest, m = sp ++ 0 :: rest /\ Forall (fun c => Performance._isspace c = true) sp.
Proof.
  induction m as [|c m IH]; [discriminate|]. simpl.
  destruct (Z.eqb_spec c 0) as [->|Hc].
  - intros _. exists [], m. split; [reflexivity|constructor].
  - destruct (Performance._isspace c) eqn:Hs; simpl negb; cbv iota; [|discriminate].
    intros H. destruct (IH H) as (sp & rest & -> & Hsp).
    exists (c :: sp), rest. split; [reflexivity|constructor; assumption].
Qed.

(** X19: what [cstr_to_u32] returns on a string that is not null, with a
    place for the value: 0 only for decimal digits between spaces, with
    their number modulo 2^32 stored; 1 otherwise, and then 0 has been
    stored over the caller's value.  The range check of the function is
    never taken. *)
Theorem cstr_to_u32_result (m : list Z) (old rv : Z) (out : option Z) :
  Performance.cstr_to_u32 (Some m) (Some old) = Some (rv, out) ->
  (rv = 1 /\ out = Some 0)
  \/ (rv = 0
      /\ exists sp1 ds sp2 rest,
           m = sp1 ++ ds ++ sp2 ++ 0 :: rest
           /\ Forall (fun c => Performance._isspace c = true) sp1
           /\ ds <> [] /\ Forall Performance.is_digit ds
           /\ Forall (fun c => Performance._isspace c = true) sp2
           /\ out = Some (Performance.decimal ds mod 2 ^ 32)).
Proof.
  unfold Performance.cstr_to_u32, Performance.cstr_to_i64.
  destruct (Performance.skip_spaces m) as [m1|] eqn:Hskip; [|discriminate].
  apply skip_spaces_inv in Hskip as (sp1 & -> & Hsp1 & Hhead).
  destruct m1 as [|c m1]; [contradiction|].
  destruct (Z.eqb_spec c 0) as [->|Hc].
  { intros Hres. injection Hres as <- <-. left. split; reflexivity. }
  destruct Hhead as [Hz|Hns]; [contradiction|].
  destruct (Performance.digits (c :: m1) 0) as [[m2 v]|] eqn:Hdig; [|discriminate].
  apply digits_inv in Hdig as (ds & Hm & Hds & Hv); [|lia].
  destruct (Performance.trailing m2) as [[|]|] eqn:Htr; [| |discriminate].
  - apply trailing_inv in Htr as (sp2 & rest & -> & Hsp2).
    assert (Hb : 0 <= v < 2 ^ 32) by (rewrite Hv; apply Z.mod_pos_bound; reflexivity).
    simpl default.
    destruct (Z.ltb_spec v 0) as [?|_]; [lia|].
    change (Z.shiftl 1 32) with (2 ^ 32).
    destruct (Z.ltb_spec (2 ^ 32) v) as [?|_]; [lia|].
    simpl orb. cbv iota. intros Hres. injection Hres as <- <-. right.
    split; [reflexivity|]. exists sp1, ds, sp2, rest.
    split; [rewrite Hm; reflexivity|]. split; [exact Hsp1|]. split.
    + intros ->. simpl in Hm. destruct sp2 as [|e sp2].
      * injection Hm as -> _. contradiction.
      * injection Hm as -> _. inversion Hsp2; subst. congruence.
    + split; [exact Hds|]. split; [exact Hsp2|].
      unfold u32. rewrite Z.mod_small by exact Hb. rewrite Hv. reflexivity.
  - simpl default. change ((0 <? 0) || (Z.shiftl 1 32 <? 0)) with false. cbv iota.
    intros Hres. injection Hres as <- <-. left. split; reflexivity.
Qed.

Lemma cstr_to_u32_result_witness :
  (1 = 1 /\ Some 0 = Some 0)
  \/ (1 = 0
      /\ exists sp1 ds sp2 rest,
           bytes_of_string "12 3" ++ [0] = sp1 ++ ds ++ sp2 ++ 0 :: rest
           /\ Forall (fun c => Performance._isspace c = true) sp1
           /\ ds <> [] /\ Forall Performance.is_digit ds
           /\ Forall (fun c => Performance._isspace c = true) sp2
           /\ Some 0 = Some (Performance.decimal ds mod 2 ^ 32)).
Proof.
  apply (cstr_to_u32_result (bytes_of_string "12 3" ++ [0]) 7 1 (Some 0)).
  reflexivity.
Defined.

(** ** Index chunks *)

Lemma zlen_i64s (l : list Z) : zlen (flat_map (le_bytes 8) l) = 8 * zlen l.
Proof.
  induction l as [|x l IH]; [reflexivity|].
  change (flat_map (le_bytes 8) (x :: l)) with (le_bytes 8 x ++ flat_map (le_bytes 8) l).
  rewrite zlen_app, IH, zlen_le_bytes. unfold zlen. simpl length. lia.
Qed.

Lemma i64_mod (v : Z) : i64 (v mod 2 ^ 64) = i64 v.
Proof. unfold i64. rewrite Z.mod_mod by lia. reflexivity. Qed.

(** the [k]-th [int64_t] of a payload that holds the values [vals] *)
Lemma mem_i64_at (p : Reader.payload_s) (vals tail : list Z) (k : nat) (v : Z) :
  Reader.p_mem p = flat_map (le_bytes 8) vals ++ tail ->
  8 * zlen vals <= Reader.alloc_size p ->
  vals !! k = Some v ->
  Reader.mem_i64 p (Z.of_nat k) = Some (i64 v).
Proof.
  intros Hm Ha Hk.
  pose proof (take_drop_middle vals k v Hk) as Hsplit.
  assert (Hlt : (k < length vals)%nat) by (eapply lookup_lt_Some; exact Hk).
  assert (Hpre : zlen (flat_map (le_bytes 8) (take k vals)) = 8 * Z.of_nat k).
  { rewrite zlen_i64s. unfold zlen. rewrite length_take. lia. }
  assert (E : Reader.mem_bytes p (8 * Z.of_nat k) 8 = Some (le_bytes 8 v)).
  { rewrite <- Hpre.
    apply (mem_bytes_middle p (le_bytes 8 v) (flat_map (le_bytes 8) (take k vals))
             (flat_map (le_bytes 8) (drop (S k) vals) ++ tail)).
    - rewrite Hm. rewrite <- Hsplit at 1. rewrite flat_map_app. simpl flat_map.
      rewrite <- !app_assoc. reflexivity.
    - rewrite Hpre, zlen_le_bytes. unfold zlen in *. lia. }
  unfold Reader.mem_i64. rewrite E. cbn [option_map]. rewrite le_value_le_bytes.
  change (8 * Z.of_nat 8) with 64. rewrite i64_mod. reflexivity.
Qed.

Lemma i64_small (v : Z) : - 2 ^ 63 <= v < 2 ^ 63 -> i64 v = v.
Proof.
  intros Hv. unfold i64.
  destruct (Z.lt_ge_cases v 0) as [Hneg|Hpos].
  - replace (v mod 2 ^ 64) with (v + 2 ^ 64).
    + destruct (Z.ltb_spec (v + 2 ^ 64) (2 ^ 63)); lia.
    + apply (Z.mod_unique v (2 ^ 64) (-1) (v + 2 ^ 64)); [left; lia|lia].
  - rewrite Z.mod_small by lia. destruct (Z.ltb_spec v (2 ^ 63)); lia.
Qed.

(** X20: one round of the descent of [seek] at an index chunk that holds
    its time stamp, the number of its entries and the entries: when the
    index computed from [sample_id] is within the entries, the round
    returns success with the entry at that index as the next offset. *)
Theorem seek_round_in_range (d : jls_signal_def_s) (lvl o sample_id : Z)
    (r : Reader.jls_rd_s) (c : raw_chunk) (t : Z) (offs : list Z) :
  chunks (Reader.raw r) !! o = Some c ->
  0 < Reader.alloc_size (Reader.payload r) ->
  rc_payload c = flat_map (le_bytes 8) (t :: zlen offs :: offs) ->
  payload_length (rc_hdr c) = 8 * (2 + zlen offs) ->
  payload_length (rc_hdr c) < 2 ^ 32 ->
  Reader.step_size d lvl <> 0 ->
  let idx := Reader.seek_idx sample_id (i64 t) (Reader.step_size d lvl) in
  0 <= idx < zlen offs ->
  exists r',
    Reader.seek_round d lvl o sample_id r
    = Some ((JLS_SUCCESS, i64 (nth (Z.to_nat idx) offs 0)), r')
    /\ Reader.chunk_cur r' = Reader.mk_chunk (rc_hdr c) o.
Proof.
  intros Hc Ha Hp Hlen Hsmall Hstep idx Hidx.
  pose proof (zlen_nonneg offs) as He.
  set (rs := Reader.set_raw (mk_raw (chunks (Reader.raw r)) o) r).
  assert (Hseek : Reader.raw_seek o r = Some (JLS_SUCCESS, rs)) by reflexivity.
  set (g := Reader.grow 64 (Reader.alloc_size (Reader.payload r)) (payload_length (rc_hdr c))).
  assert (Hrd : Reader.rd rs = Some (JLS_SUCCESS, Codec.rd_done c g rs))
    by (apply (rd_chunk rs c); [exact Hc|exact Ha|lia]).
  assert (Hg : payload_length (rc_hdr c) <= g).
  { unfold g.
    destruct (Z.ltb_spec (Reader.alloc_size (Reader.payload r)) (payload_length (rc_hdr c))).
    - apply grow_reaches; [exact Ha|].
      assert (H64 : 2 ^ Z.of_nat 64 = 2 ^ 64) by reflexivity.
      rewrite H64. nia.
    - pose proof (grow_ge 64 (Reader.alloc_size (Reader.payload r))
                    (payload_length (rc_hdr c)) Ha). lia. }
  set (p := Reader.payload (Codec.rd_done c g rs)).
  assert (Hm : Reader.p_mem p
               = flat_map (le_bytes 8) (t :: zlen offs :: offs)
                 ++ skipn (length (rc_payload c)) (Reader.p_mem (Reader.payload r)))
    by (unfold p; cbn [Codec.rd_done Reader.payload Reader.set_raw Reader.set_chunk_cur
                         Reader.set_payload Reader.p_mem rs]; rewrite Hp; reflexivity).
  assert (Hal : 8 * zlen (t :: zlen offs :: offs) <= Reader.alloc_size p).
  { unfold p. cbn [Codec.rd_done Reader.payload Reader.set_raw Reader.set_chunk_cur
                     Reader.set_payload Reader.alloc_size].
    replace (zlen (t :: zlen offs :: offs)) with (2 + zlen offs)
      by (unfold zlen; simpl length; lia).
    lia. }
  assert (H0 : Reader.mem_i64 p 0 = Some (i64 t))
    by (apply (mem_i64_at p _ _ 0 t Hm Hal); reflexivity).
  assert (H1 : Reader.mem_i64 p 1 = Some (zlen offs)).
  { pose proof (mem_i64_at p _ _ 1 (zlen offs) Hm Hal eq_refl) as E.
    rewrite i64_small in E by lia. exact E. }
  assert (Hnth : offs !! Z.to_nat idx = Some (nth (Z.to_nat idx) offs 0)).
  { destruct (lookup_lt_is_Some_2 offs (Z.to_nat idx)) as [x Hx];
      [unfold zlen in Hidx; lia|].
    rewrite nth_lookup, Hx. reflexivity. }
  assert (H2 : Reader.mem_i64 p (2 + idx) = Some (i64 (nth (Z.to_nat idx) offs 0))).
  { replace (2 + idx) with (Z.of_nat (S (S (Z.to_nat idx)))) by lia.
    apply (mem_i64_at p _ _ _ _ Hm Hal). exact Hnth. }
  eexists. split.
  - unfold Reader.seek_round. cbv zeta.
    erewrite bind_eq by exact Hseek.
    change (negb (is_ok JLS_SUCCESS)) with false. cbv iota.
    erewrite bind_eq by exact Hrd.
    change (negb (is_ok JLS_SUCCESS)) with false. cbv iota.
    unfold bind at 1, get_st. fold p. rewrite H0, H1.
    assert (Hpl : Reader.p_length p = payload_length (rc_hdr c)) by reflexivity.
    rewrite Hpl, Hlen.
    assert (Hu : u64 ((2 + zlen offs) * 8) = 8 * (2 + zlen offs))
      by (unfold u64; rewrite Z.mod_small by lia; lia).
    rewrite Hu, Z.ltb_irrefl.
    destruct (Z.eqb_spec (Reader.step_size d lvl) 0); [contradiction|].
    fold idx. rewrite H2. reflexivity.
  - reflexivity.
Qed.

Lemma seek_round_in_range_witness :
  exists r',
    Reader.seek_round Session.signal_1 1 FILE_HEADER_SIZE 1500 Session2.rd_index
    = Some ((JLS_SUCCESS, 200), r')
    /\ Reader.chunk_cur r' = Reader.mk_chunk (rc_hdr Session2.chunk_index) FILE_HEADER_SIZE.
Proof.
  apply (seek_round_in_range Session.signal_1 1 FILE_HEADER_SIZE 1500 Session2.rd_index
           Session2.chunk_index 0 [100; 200]).
  - reflexivity.
  - reflexivity.
  - reflexivity.
  - reflexivity.
  - reflexivity.
  - discriminate.
  - vm_compute. split; [discriminate|reflexivity].
Defined.
